(** * The partner earnings job of the GIB partnership service

    A shallow embedding of [src/server.js]: the earnings job
    [syncPartnerEarningsFromTapfiliate], the ledger upsert
    [upsertPartnerEarnings] and the schema they rely on
    ([ensureV2Tables]), followed by the properties of the job.

    Layout: the ECMAScript built-ins the job calls ([Runtime]); JSON
    values and the conversions JavaScript applies to them; the PostgreSQL
    column types of the schema ([Postgres]); the world the job runs in
    (database, trace of effects) with its error monad; the job itself,
    statement by statement; reference instances of the two interfaces;
    theorems. *)

(** Beside the job, the file embeds the admin guard [requireAdmin], the
    two routes of the ledger, the onboarding functions
    ([forwardEmailToLanding], [createTapfiliateAffiliateForEmail],
    [syncTapfiliateAffiliate], the approval route) and the application
    route, each after the job and before the reference instances; their
    properties follow those of the job, and the concrete inputs come
    last. *)

From Stdlib Require Import ZArith QArith Qabs Qround Qminmax Lia Ascii String List DecimalString Floats.
From stdpp Require Import base option list strings.

Set Default Proof Using "Type".
Set Warnings "-register-all".
Local Open Scope Z_scope.
Local Open Scope string_scope.
Local Open Scope list_scope.

(** ** Errors

    [Error] is JavaScript's [new Error(message)], the only exception the
    source throws itself. The others are raised by the runtime
    ([TypeError]), by [fetch] when the request itself fails, and by
    [pool.query] when PostgreSQL refuses a statement. *)

Inductive exn :=
| Error (message : string)
| TypeError
| FetchRejected
| QueryError.

Inductive result (A : Type) :=
| Ok (a : A)
| Throw (e : exn).
Arguments Ok {A} a.
Arguments Throw {A} e.

Definition rbind {A B} (r : result A) (k : A -> result B) : result B :=
  match r with
  | Ok a => k a
  | Throw e => Throw e
  end.

Notation "'let!' x ':=' r 'in' k" := (rbind r (fun x => k))
  (at level 10, x name, r at level 100, k at level 200).

(** ** The runtime

    Numbers are JavaScript Numbers. The job only adds, subtracts,
    multiplies, compares and converts them, so their implementation is a
    parameter: every theorem stated over an arbitrary [Runtime] holds for
    IEEE binary64 as well as for the exact arithmetic of the reference
    instance further down. *)

Class Runtime := {
  num : Type;
  NaN : num;
  (** [Number(true)], the literal [0], a row id read from the store *)
  of_Z : Z -> num;
  num_add : num -> num -> num;
  num_sub : num -> num -> num;
  num_mul : num -> num -> num;
  (** [Math.max(a, b)] *)
  Math_max : num -> num -> num;
  (** [a <= b] *)
  num_le : num -> num -> bool;
  Number_isNaN : num -> bool;
  (** ToBoolean on a Number: false for [0], [-0] and [NaN] only *)
  num_truthy : num -> bool;
  (** Number::toString, radix 10 *)
  Number_toString : num -> string;
  (** StringToNumber, the conversion behind [Number("...")] *)
  StringToNumber : string -> num;
  (** [String.prototype.toLowerCase] *)
  toLowerCase : string -> string;
  (** [new Date(Date.UTC(year, monthIndex, 1)).toISOString()] *)
  utc_month_start_iso : num -> num -> string;
}.

(** ** Plain objects

    An object created with [{}] or by [JSON.parse]: its own properties
    in creation order, and [Object.prototype] behind them. *)

(** The own property names of [Object.prototype] in Node.js. *)
Definition Object_prototype_names : list string :=
  [ "constructor"; "__defineGetter__"; "__defineSetter__"; "hasOwnProperty";
    "__lookupGetter__"; "__lookupSetter__"; "isPrototypeOf";
    "propertyIsEnumerable"; "toString"; "valueOf"; "__proto__";
    "toLocaleString" ].

Definition inherited (name : string) : bool :=
  bool_decide (name ∈ Object_prototype_names).

Fixpoint own_property {A} (props : list (string * A)) (name : string) : option A :=
  match props with
  | [] => None
  | (k, v) :: rest => if String.eqb k name then Some v else own_property rest name
  end.

Definition has_own {A} (props : list (string * A)) (name : string) : bool :=
  match own_property props name with Some _ => true | None => false end.

(** [obj[key]] on an object the job itself built with [{}]: an own
    property first, then [Object.prototype]. *)
Inductive lookup (A : Type) :=
| Own (a : A)
| Inherited (name : string)
| Missing.
Arguments Own {A} a.
Arguments Inherited {A} name.
Arguments Missing {A}.

Definition object_get {A} (props : list (string * A)) (key : string) : lookup A :=
  match own_property props key with
  | Some a => Own a
  | None => if inherited key then Inherited key else Missing
  end.

(** [obj[key] = a]: the first write creates the own property after the
    existing ones, a later write replaces its value in place. *)
Fixpoint own_set {A} (props : list (string * A)) (key : string) (a : A)
  : list (string * A) :=
  match props with
  | [] => [(key, a)]
  | (k, v) :: rest =>
      if String.eqb k key then (k, a) :: rest else (k, v) :: own_set rest key a
  end.

(** ** Values *)

Section Values.
Context `{Runtime}.

(** A value is what [JSON.parse] can produce, [undefined], or a member of
    [Object.prototype] that a property read on a plain object reaches by
    inheritance ([VBuiltin], by its property name). [VObj] lists the own
    properties of a parsed object, duplicate member names already
    resolved by the parser. *)
Inductive value :=
| VUndefined
| VNull
| VBool (b : bool)
| VNum (n : num)
| VStr (s : string)
| VArr (items : list value)
| VObj (props : list (string * value))
| VBuiltin (name : string).

(** ToBoolean *)
Definition truthy (v : value) : bool :=
  match v with
  | VUndefined | VNull => false
  | VBool b => b
  | VNum n => num_truthy n
  | VStr s => negb (String.eqb s "")
  | VArr _ | VObj _ | VBuiltin _ => true
  end.

(** [a || b] and [a && b]; the right operand is an expression that is
    evaluated only when the left one does not decide. *)
Definition js_or (a : value) (b : result value) : result value :=
  if truthy a then Ok a else b.

Definition js_and (a : value) (b : result value) : result value :=
  if truthy a then b else Ok a.

(** [v.name] for a property name written in the source. The names the
    job reads from fetched data (affiliate, affiliate_program,
    affiliate_program_affiliate, id, affiliate_id, amount,
    commission_amount, currency, commission) are members of no built-in
    prototype, so the read finds an own property of a parsed object or
    nothing; on [null] and [undefined] it throws. *)
Definition get (v : value) (name : string) : result value :=
  match v with
  | VUndefined | VNull => Throw TypeError
  | VObj props =>
      match own_property props name with
      | Some x => Ok x
      | None => Ok VUndefined
      end
  | _ => Ok VUndefined
  end.

(** What [Function.prototype.toString] prints for the members of
    [Object.prototype]; the accessor [__proto__] yields the prototype
    object itself. *)
Definition builtin_to_string (name : string) : string :=
  if String.eqb name "__proto__" then "[object Object]"
  else "function "
         +:+ (if String.eqb name "constructor" then "Object" else name)
         +:+ "() { [native code] }".

(** ToString, the conversion behind [String(v)] and template literals.
    A parsed object converts through [Object.prototype.toString] unless
    an own (hence not callable) [toString] property shadows it, in which
    case OrdinaryToPrimitive finds no usable method and throws; an array
    joins its elements with commas, [null] printed as the empty string. *)
Fixpoint ToString (v : value) : result string :=
  match v with
  | VUndefined => Ok "undefined"
  | VNull => Ok "null"
  | VBool true => Ok "true"
  | VBool false => Ok "false"
  | VNum n => Ok (Number_toString n)
  | VStr s => Ok s
  | VArr items =>
      (fix join (l : list value) : result string :=
         match l with
         | [] => Ok ""
         | x :: rest =>
             let! s := match x with
                       | VUndefined | VNull => Ok ""
                       | _ => ToString x
                       end in
             match rest with
             | [] => Ok s
             | _ => let! r := join rest in Ok (s +:+ "," +:+ r)
             end
         end) items
  | VObj props => if has_own props "toString" then Throw TypeError
                  else Ok "[object Object]"
  | VBuiltin name => Ok (builtin_to_string name)
  end.

(** ToNumber, the conversion behind [Number(v)]. Arrays and objects go
    through their string form: [valueOf] returns the object itself, so
    OrdinaryToPrimitive falls back on [toString]. *)
Definition ToNumber (v : value) : result num :=
  match v with
  | VUndefined => Ok NaN
  | VNull => Ok (of_Z 0)
  | VBool true => Ok (of_Z 1)
  | VBool false => Ok (of_Z 0)
  | VNum n => Ok n
  | VStr s => Ok (StringToNumber s)
  | VArr _ | VObj _ | VBuiltin _ =>
      let! s := ToString v in Ok (StringToNumber s)
  end.

(** [Number(v) || 0] *)
Definition Number_or_zero (v : value) : result num :=
  let! n := ToNumber v in
  Ok (if num_truthy n then n else of_Z 0).

(** [v.toLowerCase()]: only strings have the method. *)
Definition call_toLowerCase (v : value) : result string :=
  match v with
  | VStr s => Ok (toLowerCase s)
  | _ => Throw TypeError
  end.

End Values.

(** ** The store

    The column types of [partner_earnings] and the way PostgreSQL reads a
    statement parameter into each of them are parameters as well:
    [None] is a statement refused for that parameter (bad syntax, out of
    range, too long). *)

Class Postgres `{Runtime} := {
  date : Type;
  date_eq_dec :: EqDecision date;
  numeric : Type;
  (** a parameter bound to an INT column *)
  int4_in : value -> option Z;
  (** a parameter bound to a DATE column *)
  date_in : value -> option date;
  (** a parameter bound to a VARCHAR(n) column *)
  varchar_in : nat -> value -> option string;
  (** a Number bound to a NUMERIC(precision, scale) column *)
  numeric_in : nat -> nat -> num -> option numeric;
}.

Section Job.
Context `{Postgres}.

(** *** Schema ([ensureV2Tables]) *)

(** A row of [partners], by the columns the job reads. *)
Record partner := {
  partner_row_id : Z;                              (* id SERIAL PRIMARY KEY *)
  tapfiliate_affiliate_id : option string;         (* VARCHAR(255) *)
}.

(** A row of [partner_earnings]. *)
Record earning := {
  id : Z;                        (* SERIAL PRIMARY KEY *)
  partner_id : option Z;         (* INT REFERENCES partners(id) *)
  period : date;                 (* DATE NOT NULL *)
  currency : string;             (* VARCHAR(10) NOT NULL *)
  gross_revenue : numeric;       (* NUMERIC(12, 2) NOT NULL *)
  net_revenue : numeric;         (* NUMERIC(12, 2) NOT NULL *)
  commission_rate : numeric;     (* NUMERIC(5, 4) NOT NULL *)
  commission_amount : numeric;   (* NUMERIC(12, 2) NOT NULL *)
  source : option string;        (* VARCHAR(50) *)
  created_at : Z;                (* TIMESTAMP DEFAULT CURRENT_TIMESTAMP *)
}.

Record database := {
  partners : list partner;
  partner_earnings : list earning;
  (** the sequence behind [partner_earnings.id] *)
  partner_earnings_id_seq : Z;
}.

(** The triple of [idx_partner_earnings_partner_period_currency]. A row
    whose [partner_id] is NULL has none: a unique index never matches
    NULLs. *)
Definition index_key (r : earning) : option (Z * date * string) :=
  match partner_id r with
  | Some p => Some (p, period r, currency r)
  | None => None
  end.

(** What the unique index enforces on the table. *)
Definition unique_index (rows : list earning) : Prop :=
  NoDup (omap index_key rows).

(** *** The world: database, external service, trace *)

Record request := {
  program : string;       (* ?program= *)
  from : string;          (* &from= *)
  to : string;            (* &to= *)
  page : Z;               (* &page=, sent as String(page) *)
  api_key : string;       (* the Api-Key header *)
}.

Record response := {
  ok : bool;
  status : Z;
  (** what [res.json()] resolves to; [None] when it rejects *)
  json : option value;
}.

Inductive statement :=
| CREATE_TABLE (name : string)
| CREATE_UNIQUE_INDEX (name : string)
| SELECT_partners
| INSERT_partner_earnings.

Inductive event :=
| Query (s : statement)
| Fetch (r : request)
| Console_error (message : string).

(** The part of the world the job does not control: the affiliate
    service ([None] when the request itself fails) and the wall clock,
    read as a function of the number of effects performed so far. *)
Record environment := {
  fetch : request -> option response;
  clock : nat -> Z;
}.

Record world := {
  db : database;
  trace : list event;
}.

Definition M (A : Type) : Type := world -> result A * world.

Definition ret {A} (a : A) : M A := fun w => (Ok a, w).
Definition throw {A} (e : exn) : M A := fun w => (Throw e, w).
Definition lift {A} (r : result A) : M A := fun w => (r, w).

Definition bind {A B} (m : M A) (k : A -> M B) : M B :=
  fun w =>
    match m w with
    | (Ok a, w') => k a w'
    | (Throw e, w') => (Throw e, w')
    end.

(** [try { m } catch (err) { handler err }] *)
Definition try_catch {A} (m : M A) (handler : exn -> M A) : M A :=
  fun w =>
    match m w with
    | (Ok a, w') => (Ok a, w')
    | (Throw e, w') => handler e w'
    end.

Definition emit (e : event) : M unit :=
  fun w => (Ok tt, {| db := db w; trace := trace w ++ [e] |}).

Definition console_error (message : string) : M unit :=
  emit (Console_error message).

Declare Scope job_scope.
Delimit Scope job_scope with job.
Notation "x <- m ;; k" := (bind m (fun x => k))
  (at level 100, m at next level, right associativity) : job_scope.
Notation "m ;; k" := (bind m (fun _ => k))
  (at level 100, right associativity) : job_scope.
Local Open Scope job_scope.

(** [await pool.query(...)] for the statements that only create what is
    missing: on the modelled state they change nothing. *)
Definition pool_query_ddl (s : statement) : M unit := emit (Query s).

(** server.js 349-400 *)
Definition ensureV2Tables : M unit :=
  try_catch
    (pool_query_ddl (CREATE_TABLE "partners") ;;
     pool_query_ddl (CREATE_TABLE "partner_earnings") ;;
     pool_query_ddl (CREATE_UNIQUE_INDEX "idx_partner_earnings_partner_period_currency") ;;
     pool_query_ddl (CREATE_TABLE "partner_payouts"))
    (fun err => console_error "Error ensuring v2 tables exist:").

(** *** The ledger upsert, server.js 402-455 *)

(** The proposed row, once every parameter has been read into its
    column. *)
Record proposed := {
  new_partner_id : option Z;
  new_period : date;
  new_currency : string;
  new_gross_revenue : numeric;
  new_net_revenue : numeric;
  new_commission_rate : numeric;
  new_commission_amount : numeric;
  new_source : string;
}.

Definition is_null (v : value) : bool :=
  match v with
  | VUndefined | VNull => true
  | _ => false
  end.

(** The eight parameters [$1 .. $8] against the column types. The driver
    sends [null] and [undefined] as NULL, which only [partner_id]
    accepts. The last parameter is the literal of the source, eleven
    characters in a VARCHAR(50). *)
Definition bind_parameters (partnerId period currency : value)
    (gross net rate commissionAmount : num) (source : string) : option proposed :=
  p ← (if is_null partnerId then Some None else Some <$> int4_in partnerId);
  d ← (if is_null period then None else date_in period);
  c ← (if is_null currency then None else varchar_in 10 currency);
  g ← numeric_in 12 2 gross;
  n ← numeric_in 12 2 net;
  r ← numeric_in 5 4 rate;
  a ← numeric_in 12 2 commissionAmount;
  Some {| new_partner_id := p; new_period := d; new_currency := c;
          new_gross_revenue := g; new_net_revenue := n;
          new_commission_rate := r; new_commission_amount := a;
          new_source := source |}.

(** [partner_id INT REFERENCES partners(id)] *)
Definition references_partner (v : proposed) (d : database) : bool :=
  match new_partner_id v with
  | Some p => bool_decide (p ∈ partner_row_id <$> partners d)
  | None => true
  end.

(** [ON CONFLICT (partner_id, period, currency)]: the existing row the
    proposed one collides with. *)
Definition conflicts (v : proposed) (r : earning) : bool :=
  match new_partner_id v with
  | Some p => bool_decide (index_key r = Some (p, new_period v, new_currency v))
  | None => false
  end.

(** [DO UPDATE SET gross_revenue = EXCLUDED.gross_revenue, ...]: the five
    columns of the SET list; id, key and created_at stay. *)
Definition do_update (v : proposed) (r : earning) : earning :=
  {| id := id r; partner_id := partner_id r; period := period r;
     currency := currency r;
     gross_revenue := new_gross_revenue v;
     net_revenue := new_net_revenue v;
     commission_rate := new_commission_rate v;
     commission_amount := new_commission_amount v;
     source := Some (new_source v);
     created_at := created_at r |}.

Definition inserted (v : proposed) (nextval now : Z) : earning :=
  {| id := nextval; partner_id := new_partner_id v; period := new_period v;
     currency := new_currency v;
     gross_revenue := new_gross_revenue v;
     net_revenue := new_net_revenue v;
     commission_rate := new_commission_rate v;
     commission_amount := new_commission_amount v;
     source := Some (new_source v);
     created_at := now |}.

(** [INSERT INTO partner_earnings (...) VALUES (...) ON CONFLICT (...) DO
    UPDATE SET ... RETURNING *] on the rows of the table. *)
Definition insert_on_conflict (v : proposed) (nextval now : Z)
    (rows : list earning) : earning * list earning :=
  match List.find (conflicts v) rows with
  | Some r =>
      (do_update v r,
       map (fun x => if conflicts v x then do_update v x else x) rows)
  | None =>
      (inserted v nextval now, rows ++ [inserted v nextval now])
  end.

Section WithEnvironment.
Variable env : environment.

(** [await pool.query(INSERT ..., [partnerId, ..., 'manual_test'])],
    returning [result.rows[0]]. The sequence advances whenever the
    statement is executed, also when the row then conflicts or is
    refused by the foreign key. *)
Definition pool_query_insert (partnerId period currency : value)
    (gross net rate commissionAmount : num) (source : string) : M earning :=
  fun w =>
    let w1 := {| db := db w; trace := trace w ++ [Query INSERT_partner_earnings] |} in
    match bind_parameters partnerId period currency gross net rate
            commissionAmount source with
    | None => (Throw QueryError, w1)
    | Some v =>
        let d := db w in
        let nextval := partner_earnings_id_seq d in
        if references_partner v d then
          let '(row, rows) :=
            insert_on_conflict v nextval (clock env (List.length (trace w)))
              (partner_earnings d) in
          (Ok row,
           {| db := {| partners := partners d; partner_earnings := rows;
                       partner_earnings_id_seq := nextval + 1 |};
              trace := trace w1 |})
        else
          (Throw QueryError,
           {| db := {| partners := partners d;
                       partner_earnings := partner_earnings d;
                       partner_earnings_id_seq := nextval + 1 |};
              trace := trace w1 |})
    end.

(** The argument object of [upsertPartnerEarnings]. *)
Record upsert_args := {
  partnerId : value;
  arg_period : value;
  arg_currency : value;
  grossRevenue : value;
  netRevenue : value;
  commissionRate : value;
}.

Definition upsertPartnerEarnings (a : upsert_args) : M earning :=
  try_catch
    (ensureV2Tables ;;
     rate <- lift (Number_or_zero (commissionRate a)) ;;
     net <- lift (Number_or_zero (netRevenue a)) ;;
     gross <- lift (Number_or_zero (grossRevenue a)) ;;
     let commissionAmount := num_mul net rate in
     pool_query_insert (partnerId a) (arg_period a) (arg_currency a)
       gross net rate commissionAmount "manual_test")
    (fun err =>
       console_error "Error upserting partner earnings:" ;;
       throw err).

(** *** Configuration, server.js 21-28 *)

Record config := {
  TAPFILIATE_API_KEY : option string;
  TAPFILIATE_PROGRAM_ID : option string;
  GLOBAL_COMMISSION_RATE : num;
  STRIPE_FEE_PERCENT : num;
  STRIPE_FEE_FIXED : num;
}.

(** [process.env.X || default]: an unset or empty variable gives the
    default. *)
Definition env_or (x : option string) (default : string) : string :=
  match x with
  | Some s => if String.eqb s "" then default else s
  | None => default
  end.

Definition load_config (process_env : string -> option string) : config :=
  {| TAPFILIATE_API_KEY := process_env "TAPFILIATE_API_KEY";
     TAPFILIATE_PROGRAM_ID := process_env "TAPFILIATE_PROGRAM_ID";
     GLOBAL_COMMISSION_RATE :=
       StringToNumber (env_or (process_env "PARTNER_COMMISSION_RATE") "0.35");
     STRIPE_FEE_PERCENT :=
       StringToNumber (env_or (process_env "STRIPE_FEE_PERCENT") "0.029");
     STRIPE_FEE_FIXED :=
       StringToNumber (env_or (process_env "STRIPE_FEE_FIXED") "0.30") |}.

(** [!X] on an environment variable *)
Definition unset (x : option string) : bool :=
  match x with
  | Some s => String.eqb s ""
  | None => true
  end.

Variable cfg : config.

(** *** The earnings job, server.js 457-607 *)

Definition is_digit (c : ascii) : bool :=
  (48 <=? nat_of_ascii c)%nat && (nat_of_ascii c <=? 57)%nat.

(** [/^\d{4}-\d{2}$/.test(periodYm)]: four digits, a hyphen, two digits
    and nothing else (without the m flag, [$] is the end of input). *)
Definition period_format_ok (periodYm : string) : bool :=
  match list_ascii_of_string periodYm with
  | [y1; y2; y3; y4; h; m1; m2] =>
      is_digit y1 && is_digit y2 && is_digit y3 && is_digit y4
      && Ascii.eqb h "-" && is_digit m1 && is_digit m2
  | _ => false
  end.

(** [s.split('-')] *)
Fixpoint split_hyphen (s : string) : list string :=
  match s with
  | EmptyString => [""]
  | String c rest =>
      if Ascii.eqb c "-" then "" :: split_hyphen rest
      else match split_hyphen rest with
           | piece :: pieces => String c piece :: pieces
           | [] => [String c ""]
           end
  end.

Definition ERR_NOT_CONFIGURED : exn :=
  Error "Tapfiliate API not fully configured. Please set TAPFILIATE_API_KEY and TAPFILIATE_PROGRAM_ID.".
Definition ERR_INVALID_PERIOD : exn :=
  Error "Invalid period format. Expected YYYY-MM.".
Definition ERR_FETCH_FAILED : exn :=
  Error "Failed to fetch conversions from Tapfiliate.".

(** [SELECT id, tapfiliate_affiliate_id FROM partners WHERE
    tapfiliate_affiliate_id IS NOT NULL] *)
Definition linked_partners (d : database) : list (Z * string) :=
  omap (fun r => match tapfiliate_affiliate_id r with
                 | Some a => Some (partner_row_id r, a)
                 | None => None
                 end) (partners d).

Definition pool_query_select_partners : M (list (Z * string)) :=
  fun w =>
    (Ok (linked_partners (db w)),
     {| db := db w; trace := trace w ++ [Query SELECT_partners] |}).

(** [affiliateToPartner[String(row.tapfiliate_affiliate_id)] = row.id]
    for the rows whose affiliate id is truthy. Assigning a number to
    [__proto__] goes to the setter of [Object.prototype], which ignores
    it: no own property is created. *)
Definition affiliate_map (rows : list (Z * string)) : list (string * Z) :=
  fold_left
    (fun affiliateToPartner row =>
       let '(row_id, affiliate) := row in
       if String.eqb affiliate "" then affiliateToPartner
       else if String.eqb affiliate "__proto__" then affiliateToPartner
       else own_set affiliateToPartner affiliate row_id)
    rows [].

Definition mk_request (fromIso toIso : string) (page : Z) : request :=
  {| program := default "" (TAPFILIATE_PROGRAM_ID cfg);
     from := fromIso; to := toIso; page := page;
     api_key := default "" (TAPFILIATE_API_KEY cfg) |}.

(** [await fetch(url, { method: 'GET', headers })] *)
Definition do_fetch (r : request) : M response :=
  fun w =>
    let w1 := {| db := db w; trace := trace w ++ [Fetch r] |} in
    match fetch env r with
    | Some res => (Ok res, w1)
    | None => (Throw FetchRejected, w1)
    end.

(** [for (let page = 1; page <= 5; page += 1) { ... }], server.js
    501-533. [remaining] counts the values [page] can still take, from
    the current one up to 5; the accumulator is [allConversions]. *)
Fixpoint fetch_pages (fromIso toIso : string) (remaining : nat) (page : Z)
    (allConversions : list value) : M (list value) :=
  match remaining with
  | O => ret allConversions
  | S remaining' =>
      res <- do_fetch (mk_request fromIso toIso page) ;;
      if negb (ok res) then
        console_error "Tapfiliate conversions fetch failed:" ;;
        throw ERR_FETCH_FAILED
      else
        (* res.json().catch(() => []) *)
        let pageData := default (VArr []) (json res) in
        match pageData with
        | VArr [] => ret allConversions
        | VArr items =>
            let allConversions' := allConversions ++ items in
            if (Z.of_nat (List.length items) <? 50)%Z then ret allConversions'
            else fetch_pages fromIso toIso remaining' (page + 1) allConversions'
        | _ => ret allConversions
        end
  end.

(** An entry of [bucket]. [partnerId] is whatever the lookup in
    [affiliateToPartner] produced. *)
Record bucket_entry := {
  bucket_partnerId : value;
  bucket_currency : string;
  bucket_gross : num;
  bucket_net : num;
}.

(** [gross * STRIPE_FEE_PERCENT + STRIPE_FEE_FIXED] and
    [Math.max(gross - fee, 0)], server.js 564-565 *)
Definition stripe_fee (gross : num) : num :=
  num_add (num_mul gross (STRIPE_FEE_PERCENT cfg)) (STRIPE_FEE_FIXED cfg).

Definition estimated_net (gross : num) : num :=
  Math_max (num_sub gross (stripe_fee gross)) (of_Z 0).

Definition lookup_value (l : lookup Z) : value :=
  match l with
  | Own row_id => VNum (of_Z row_id)
  | Inherited name => VBuiltin name
  | Missing => VUndefined
  end.

(** The body of [for (const conv of allConversions)], server.js 542-579.
    [Ok bucket] with the bucket unchanged is a [continue]. *)
Definition aggregate_conversion (affiliateToPartner : list (string * Z))
    (bucket : list (string * bucket_entry)) (conv : value)
  : result (list (string * bucket_entry)) :=
  let! affiliate :=
    (let! a := get conv "affiliate" in
     js_or a (let! b := get conv "affiliate_program" in
     js_or b (let! c := get conv "affiliate_program_affiliate" in
     js_or c (Ok VNull)))) in
  let! affiliateId :=
    js_and affiliate
      (let! a := get affiliate "id" in
       js_or a (let! b := get affiliate "affiliate" in
       js_or b (get affiliate "affiliate_id"))) in
  if negb (truthy affiliateId) then Ok bucket else
  let! affiliateKey := ToString affiliateId in
  let partnerId := lookup_value (object_get affiliateToPartner affiliateKey) in
  if negb (truthy partnerId) then Ok bucket else
  let! amount :=
    (let! a := get conv "amount" in
     js_or a (let! b := get conv "commission_amount" in
     js_or b (Ok (VNum (of_Z 0))))) in
  let! gross := ToNumber amount in
  if negb (num_truthy gross) || Number_isNaN gross || num_le gross (of_Z 0)
  then Ok bucket else
  let! currencyValue :=
    (let! a := get conv "currency" in
     js_or a (let! b := (let! c := get conv "commission" in
                         js_and c (get c "currency")) in
     js_or b (Ok (VStr "usd")))) in
  let! currency := call_toLowerCase currencyValue in
  let net := estimated_net gross in
  let! partnerKey := ToString partnerId in
  let key := partnerKey +:+ ":" +:+ currency in
  let bucket1 :=
    match object_get bucket key with
    | Missing =>
        own_set bucket key
          {| bucket_partnerId := partnerId; bucket_currency := currency;
             bucket_gross := of_Z 0; bucket_net := of_Z 0 |}
    | _ => bucket
    end in
  match object_get bucket1 key with
  | Own e =>
      Ok (own_set bucket1 key
            {| bucket_partnerId := bucket_partnerId e;
               bucket_currency := bucket_currency e;
               bucket_gross := num_add (bucket_gross e) gross;
               bucket_net := num_add (bucket_net e) net |})
  | _ => Ok bucket1
  end.

Fixpoint aggregate (affiliateToPartner : list (string * Z))
    (bucket : list (string * bucket_entry)) (allConversions : list value)
  : result (list (string * bucket_entry)) :=
  match allConversions with
  | [] => Ok bucket
  | conv :: rest =>
      let! bucket' := aggregate_conversion affiliateToPartner bucket conv in
      aggregate affiliateToPartner bucket' rest
  end.

(** An element of [totals]. *)
Record total := {
  total_partner_id : value;
  total_currency : string;
  total_gross : num;
  total_net : num;
  total_commission_rate : num;
  (** [row.commission_amount], as the store returned it *)
  total_commission_amount : numeric;
}.

Record summary := {
  summary_period : string;
  totals : list total;
  note : option string;
}.

(** [for (const key of Object.keys(bucket))], server.js 584-604. The
    keys of [bucket] all contain a colon, so none is an array index and
    [Object.keys] lists them in creation order. *)
Fixpoint upsert_buckets (bucket : list (string * bucket_entry))
    (periodDate : string) (keys : list string) (totals : list total)
  : M (list total) :=
  match keys with
  | [] => ret totals
  | key :: keys' =>
      match object_get bucket key with
      | Own e =>
          row <- upsertPartnerEarnings
                   {| partnerId := bucket_partnerId e;
                      arg_period := VStr periodDate;
                      arg_currency := VStr (bucket_currency e);
                      grossRevenue := VNum (bucket_gross e);
                      netRevenue := VNum (bucket_net e);
                      commissionRate := VNum (GLOBAL_COMMISSION_RATE cfg) |} ;;
          upsert_buckets bucket periodDate keys'
            (totals ++ [ {| total_partner_id := bucket_partnerId e;
                            total_currency := bucket_currency e;
                            total_gross := bucket_gross e;
                            total_net := bucket_net e;
                            total_commission_rate := GLOBAL_COMMISSION_RATE cfg;
                            total_commission_amount := commission_amount row |} ])
      | _ => throw TypeError
      end
  end.

(** What the job does with the fetched conversions, server.js 535-606. *)
Definition settle_conversions (periodYm : string)
    (affiliateToPartner : list (string * Z)) (allConversions : list value)
  : M summary :=
  if (List.length allConversions =? 0)%nat then
    ret {| summary_period := periodYm; totals := [];
           note := Some "No conversions found for this period." |}
  else
    bucket <- lift (aggregate affiliateToPartner [] allConversions) ;;
    let periodDate := periodYm +:+ "-01" in
    totals <- upsert_buckets bucket periodDate (map fst bucket) [] ;;
    ret {| summary_period := periodYm; totals := totals; note := None |}.

Definition syncPartnerEarningsFromTapfiliate (periodYm : string) : M summary :=
  if unset (TAPFILIATE_API_KEY cfg) || unset (TAPFILIATE_PROGRAM_ID cfg)
  then throw ERR_NOT_CONFIGURED else
  if negb (period_format_ok periodYm) then throw ERR_INVALID_PERIOD else
  let pieces := split_hyphen periodYm in
  let year := StringToNumber (nth 0 pieces "") in
  let month := StringToNumber (nth 1 pieces "") in
  let fromIso := utc_month_start_iso year (num_sub month (of_Z 1)) in
  let toIso := utc_month_start_iso year month in
  ensureV2Tables ;;
  partnersRes <- pool_query_select_partners ;;
  let affiliateToPartner := affiliate_map partnersRes in
  if (List.length affiliateToPartner =? 0)%nat then
    ret {| summary_period := periodYm; totals := [];
           note := Some "No partners with tapfiliate_affiliate_id found." |}
  else
    allConversions <- fetch_pages fromIso toIso 5 1 [] ;;
    settle_conversions periodYm affiliateToPartner allConversions.

End WithEnvironment.

End Job.

(** ** The admin guard, server.js 129 and 609-643

    [adminAttempts] is a plain object with one record per client, keyed
    by [req.ip || 'global']. The counter and the times are integers far
    below 2^53, where the arithmetic of Numbers is exact. *)

Record attempts := {
  count : Z;
  lockedUntil : Z;
}.

Record admin_request := {
  (** [req.ip]: the address of the peer, or [undefined] *)
  req_ip : option string;
  (** [req.headers.authorization] *)
  req_authorization : option string;
}.

Inductive guard_outcome :=
| Next
| Refused (status : Z) (message : string).

Fixpoint strip_prefix (pattern s : string) : option string :=
  match pattern, s with
  | EmptyString, _ => Some s
  | String a pattern', String b rest =>
      if Ascii.eqb a b then strip_prefix pattern' rest else None
  | String _ _, EmptyString => None
  end.

(** [s.replace(pattern, '')] for a string pattern: the first occurrence
    of the pattern is taken out, the rest of [s] stays. *)
Fixpoint replace_first (pattern s : string) : string :=
  match strip_prefix pattern s with
  | Some rest => rest
  | None =>
      match s with
      | EmptyString => EmptyString
      | String c rest => String c (replace_first pattern rest)
      end
  end.

(** [req.ip || 'global'] *)
Definition client_key (req : admin_request) : string :=
  match req_ip req with
  | Some address => if String.eqb address "" then "global" else address
  | None => "global"
  end.

(** [(req.headers.authorization || '').replace('Bearer ', '')] *)
Definition bearer_token (req : admin_request) : string :=
  replace_first "Bearer "
    (match req_authorization req with
     | Some header => header
     | None => ""
     end).

(** [!token || token !== process.env.ADMIN_API_TOKEN] *)
Definition token_refused (ADMIN_API_TOKEN : option string) (token : string) : bool :=
  String.eqb token ""
  || negb (match ADMIN_API_TOKEN with
           | Some expected => String.eqb token expected
           | None => false
           end).

Definition MSG_LOCKED : string :=
  "Too many failed admin attempts. Access is locked for 2 hours.".
Definition MSG_UNAUTHORIZED : string := "Unauthorized. Invalid admin token.".

(** The function from [const record = adminAttempts[key]] on, server.js
    618-643. The record is shared with [adminAttempts]: what is written
    to it is written to the entry of [key]. *)
Definition check_attempt (ADMIN_API_TOKEN : option string) (now : Z)
    (req : admin_request) (key : string) (record : attempts)
    (adminAttempts : list (string * attempts))
  : guard_outcome * list (string * attempts) :=
  let windowMs := 2 * 60 * 60 * 1000 in
  if negb (lockedUntil record =? 0)%Z && (now <? lockedUntil record)%Z then
    (Refused 429 MSG_LOCKED, adminAttempts)
  else if token_refused ADMIN_API_TOKEN (bearer_token req) then
    let count1 := count record + 1 in
    let record1 :=
      {| count := count1;
         lockedUntil := if (3 <=? count1)%Z then now + windowMs
                        else lockedUntil record |} in
    (Refused 401 MSG_UNAUTHORIZED, own_set adminAttempts key record1)
  else
    (Next, own_set adminAttempts key {| count := 0; lockedUntil := 0 |}).

(** [requireAdmin(req, res, next)] at the time [now = Date.now()].
    [req.ip] is the address of the socket (the application does not
    enable [trust proxy]), so the key never names a member of
    [Object.prototype]; for such a key the record would be that member,
    which is not followed here: [None]. *)
Definition requireAdmin (ADMIN_API_TOKEN : option string) (now : Z)
    (req : admin_request) (adminAttempts : list (string * attempts))
  : option (guard_outcome * list (string * attempts)) :=
  let key := client_key req in
  match object_get adminAttempts key with
  | Own record =>
      Some (check_attempt ADMIN_API_TOKEN now req key record adminAttempts)
  | Missing =>
      let record := {| count := 0; lockedUntil := 0 |} in
      Some (check_attempt ADMIN_API_TOKEN now req key record
              (own_set adminAttempts key record))
  | Inherited _ => None
  end.

(** ** The routes of the ledger, server.js 702-720 and 972-1004 *)

Section Routes.
Context `{Postgres}.
Variable env : environment.
Variable cfg : config.

(** What [res.status(...).json(...)] is given. *)
Inductive payload :=
| Message (success : bool) (message : string)
| Summary (s : summary)
| Earnings (row : earning).

Record http_response := {
  http_status : Z;
  http_payload : payload;
}.

(** [const { name } = req.body || {}] for the names the routes read
    (period, partner_id, currency, gross_revenue, net_revenue,
    commission_rate), none of which a built-in prototype has: an own
    property of the parsed body, or [undefined]. *)
Definition body_field (body : value) (name : string) : value :=
  match (if truthy body then body else VObj []) with
  | VObj props =>
      match own_property props name with
      | Some v => v
      | None => VUndefined
      end
  | _ => VUndefined
  end.

(** The handler of [POST /api/partner-earnings/sync]. *)
Definition post_partner_earnings_sync (body : value) : M http_response :=
  try_catch
    (match body_field body "period" with
     | VStr period =>
         if String.eqb period "" then
           ret {| http_status := 400;
                  http_payload := Message false "period (YYYY-MM) is required." |}
         else
           bind (syncPartnerEarningsFromTapfiliate env cfg period) (fun summary =>
           ret {| http_status := 200; http_payload := Summary summary |})
     | _ =>
         ret {| http_status := 400;
                http_payload := Message false "period (YYYY-MM) is required." |}
     end)
    (fun err =>
       bind (console_error "Error syncing partner earnings from Tapfiliate:")
         (fun _ =>
            ret {| http_status := 500;
                   http_payload := Message false "Error syncing partner earnings." |})).

(** The handler of [POST /api/partner-earnings/test]. *)
Definition post_partner_earnings_test (body : value) : M http_response :=
  try_catch
    (let partnerId := body_field body "partner_id" in
     let period := body_field body "period" in
     let currency := body_field body "currency" in
     let grossRevenue := body_field body "gross_revenue" in
     let netRevenue := body_field body "net_revenue" in
     let commissionRate := body_field body "commission_rate" in
     if negb (truthy partnerId) || negb (truthy period) || negb (truthy currency)
     then
       ret {| http_status := 400;
              http_payload :=
                Message false "partner_id, period, and currency are required." |}
     else
       bind (upsertPartnerEarnings env
               {| partnerId := partnerId; arg_period := period;
                  arg_currency := currency; grossRevenue := grossRevenue;
                  netRevenue := netRevenue; commissionRate := commissionRate |})
         (fun row => ret {| http_status := 200; http_payload := Earnings row |}))
    (fun err =>
       bind (console_error "Error creating test partner earnings:")
         (fun _ =>
            ret {| http_status := 500;
                   http_payload := Message false "Error creating test earnings." |})).

(** [app.post(path, requireAdmin, handler)]: the handler runs when the
    guard calls [next()]; otherwise the guard has answered. *)
Definition guarded (ADMIN_API_TOKEN : option string) (now : Z)
    (req : admin_request) (handler : M http_response)
    (adminAttempts : list (string * attempts)) (w : world)
  : option (result http_response * list (string * attempts) * world) :=
  match requireAdmin ADMIN_API_TOKEN now req adminAttempts with
  | Some (Next, adminAttempts1) =>
      let '(response, w1) := handler w in
      Some (response, adminAttempts1, w1)
  | Some (Refused status message, adminAttempts1) =>
      Some (Ok {| http_status := status; http_payload := Message false message |},
            adminAttempts1, w)
  | None => None
  end.

End Routes.

(** ** Onboarding: the waitlist, the Tapfiliate affiliates and the
    approval of an application, server.js 131-347 and 846-900 *)

Class Strings := {
  (** [String.prototype.trim] *)
  String_trim : string -> string;
}.

Class PostgresText `{Postgres} := {
  (** a parameter bound to a TEXT column *)
  text_in : value -> option string;
}.

(** [s.split(' ')] and [pieces.join(' ')] *)
Fixpoint split_space (s : string) : list string :=
  match s with
  | EmptyString => [""]
  | String c rest =>
      if Ascii.eqb c " " then "" :: split_space rest
      else match split_space rest with
           | piece :: pieces => String c piece :: pieces
           | [] => [String c ""]
           end
  end.

Fixpoint join_space (pieces : list string) : string :=
  match pieces with
  | [] => ""
  | [piece] => piece
  | piece :: rest => piece +:+ " " +:+ join_space rest
  end.

Section Onboarding.
Context `{PostgresText} `{Strings}.

(** A row of [partner_applications], by the columns the code below reads
    or writes. *)
Record application := {
  app_id : Z;                        (* id SERIAL PRIMARY KEY *)
  app_name : option string;          (* name VARCHAR(255) *)
  app_email : option string;         (* email VARCHAR(255) *)
  app_affiliate : option string;     (* tapfiliate_affiliate_id VARCHAR(255) *)
  app_status : option string;        (* status VARCHAR(50) *)
  app_approved_at : option Z;        (* approved_at TIMESTAMP *)
  app_approved_by : option string;   (* approved_by VARCHAR(255) *)
}.

(** A row of [partners], with the column [application_id] the ledger
    does not read. *)
Record partner_row := {
  row_id : Z;                        (* id SERIAL PRIMARY KEY *)
  row_application_id : option Z;     (* application_id INT UNIQUE *)
  row_affiliate : option string;     (* tapfiliate_affiliate_id VARCHAR(255) *)
}.

(** A row of [admin_logs], by the columns an INSERT gives. *)
Record log_row := {
  log_admin : string;                (* admin_identifier VARCHAR(255) *)
  log_action : string;               (* action VARCHAR(50) *)
  log_application_id : option Z;     (* application_id INT *)
  log_details : option string;       (* details TEXT *)
}.

(** The tables. [partner_applications] is taken to exist, with the rows
    [applications]. *)
Record crm := {
  applications : list application;
  partner_rows : list partner_row;
  (** the sequence behind [partners.id] *)
  partners_id_seq : Z;
  admin_logs : list log_row;
  earnings : list earning;
  earnings_id_seq : Z;
}.

(** The tables as the ledger functions see them. *)
Definition as_partner (r : partner_row) : partner :=
  {| partner_row_id := row_id r; tapfiliate_affiliate_id := row_affiliate r |}.

Definition job_view (c : crm) : database :=
  {| partners := as_partner <$> partner_rows c;
     partner_earnings := earnings c;
     partner_earnings_id_seq := earnings_id_seq c |}.

(** The three addresses the code posts to; the program id is
    percent-encoded into the path of the last one. *)
Inductive endpoint :=
| Landing (url : string)
| Affiliates
| Program_affiliates (program : string).

Record http_request := {
  http_to : endpoint;
  (** the Api-Key header *)
  http_api_key : option string;
  (** the value given to [JSON.stringify] for the body *)
  http_body : value;
}.

Inductive crm_statement :=
| ALTER_TABLE_add_tapfiliate_affiliate_id
| SELECT_application
| UPDATE_application_affiliate
| CREATE_TABLE_admin_logs
| INSERT_admin_logs
| INSERT_partners_affiliate
| ALTER_TABLE_add_approval_columns
| UPDATE_application_approved
| INSERT_partners_application
| SELECT_application_by_email
| CREATE_TABLE_partner_applications
| INSERT_partner_applications.

Inductive office_event :=
| Sql (s : crm_statement)
| Job (e : event)
| Http (r : http_request)
| Console (level message : string).

Record services := {
  (** the answer to a POST; [None] when the request itself fails *)
  http : http_request -> option response;
  (** NOW(), as a function of the number of effects so far *)
  now : nat -> Z;
}.

Record office := {
  tables : crm;
  journal : list office_event;
}.

Definition N (A : Type) : Type := office -> result A * office.

Definition nret {A} (a : A) : N A := fun o => (Ok a, o).
Definition nlift {A} (r : result A) : N A := fun o => (r, o).

Definition nbind {A B} (m : N A) (k : A -> N B) : N B :=
  fun o =>
    match m o with
    | (Ok a, o1) => k a o1
    | (Throw e, o1) => (Throw e, o1)
    end.

(** [try { m } catch (err) { handler err }] *)
Definition ntry {A} (m : N A) (handler : exn -> N A) : N A :=
  fun o =>
    match m o with
    | (Ok a, o1) => (Ok a, o1)
    | (Throw e, o1) => handler e o1
    end.

Definition jot (e : office_event) : N unit :=
  fun o => (Ok tt, {| tables := tables o; journal := journal o ++ [e] |}).

Definition console (level message : string) : N unit :=
  jot (Console level message).

Local Notation "x <~ m ;; k" := (nbind m (fun x => k))
  (at level 100, m at next level, right associativity).
Local Notation "m ;;; k" := (nbind m (fun _ => k))
  (at level 100, right associativity).

(** A ledger function run on the tables: it sees [job_view], and what
    it leaves in the ledger is written back. *)
Definition lift_job {A} (m : M A) : N A :=
  fun o =>
    let '(r, w) := m {| db := job_view (tables o); trace := [] |} in
    (r,
     {| tables :=
          {| applications := applications (tables o);
             partner_rows := partner_rows (tables o);
             partners_id_seq := partners_id_seq (tables o);
             admin_logs := admin_logs (tables o);
             earnings := partner_earnings (db w);
             earnings_id_seq := partner_earnings_id_seq (db w) |};
        journal := journal o ++ (Job <$> trace w) |}).

Variable srv : services.
Variable cfg : config.
(** [process.env.LANDING_WAITLIST_URL] *)
Variable LANDING_WAITLIST_URL : option string.

(** [await fetch(url, { method: 'POST', headers, body })] *)
Definition post (r : http_request) : N response :=
  fun o =>
    let o1 := {| tables := tables o; journal := journal o ++ [Http r] |} in
    match http srv r with
    | Some res => (Ok res, o1)
    | None => (Throw FetchRejected, o1)
    end.

(** [await pool.query(...)] for a statement that changes nothing on the
    modelled tables. *)
Definition query_ddl (s : crm_statement) : N unit := jot (Sql s).

(** server.js 131-155 *)
Definition forwardEmailToLanding (email : value) : N unit :=
  ntry
    (if negb (truthy email) then nret tt
     else if unset LANDING_WAITLIST_URL then
       console "warn"
         "LANDING_WAITLIST_URL is not configured. Skipping waitlist forwarding."
     else
       response <~ post {| http_to := Landing (default "" LANDING_WAITLIST_URL);
                           http_api_key := None;
                           http_body := VObj [("email", email)] |} ;;
       if negb (ok response) then
         console "error" "Landing waitlist endpoint responded with non-OK status:"
       else nret tt)
    (fun err =>
       console "error" "Error forwarding email to landing waitlist endpoint:").

(** [const [firstname, ...rest] = (name || '').trim().split(' ')] and
    [const lastname = rest.join(' ')]; only a string has [trim]. *)
Definition split_name (name : value) : result (string * string) :=
  match (if truthy name then name else VStr "") with
  | VStr s =>
      let pieces := split_space (String_trim s) in
      Ok (hd "" pieces, join_space (tl pieces))
  | _ => Throw TypeError
  end.

(** [s || undefined] *)
Definition or_undefined (s : string) : value :=
  if String.eqb s "" then VUndefined else VStr s.

(** The creation of the affiliate, server.js 171-201 and 269-299: the
    id Tapfiliate gave, or [None] when the function has logged why and
    returned. *)
Definition create_affiliate (email name : value) (failed missing : string)
  : N (option value) :=
  names <~ nlift (split_name name) ;;
  let createPayload :=
    VObj [ ("email", email);
           ("firstname", or_undefined names.1);
           ("lastname", or_undefined names.2) ] in
  createRes <~ post {| http_to := Affiliates;
                       http_api_key := TAPFILIATE_API_KEY cfg;
                       http_body := createPayload |} ;;
  if negb (ok createRes) then console "error" failed ;;; nret None
  else
    (* createRes.json().catch(() => null) *)
    let created := default VNull (json createRes) in
    if negb (truthy created) then console "error" missing ;;; nret None
    else
      created_id <~ nlift (get created "id") ;;
      if negb (truthy created_id) then console "error" missing ;;; nret None
      else nret (Some created_id).

(** Adding the affiliate to the program, server.js 203-218 and 310-325:
    whether the function goes on. *)
Definition add_to_program (affiliateId : value) (failed : string) : N bool :=
  progRes <~ post {| http_to :=
                       Program_affiliates (default "" (TAPFILIATE_PROGRAM_ID cfg));
                     http_api_key := TAPFILIATE_API_KEY cfg;
                     http_body :=
                       VObj [ ("affiliate", VObj [("id", affiliateId)]);
                              ("approved", VBool true) ] |} ;;
  if negb (ok progRes) then console "error" failed ;;; nret false
  else nret true.

(** [INSERT INTO partners (application_id, tapfiliate_affiliate_id)
    VALUES ($1, $2) ON CONFLICT (application_id) DO NOTHING] with
    [[null, affiliateId]]: a NULL [application_id] conflicts with no
    row. *)
Definition insert_partner_for_affiliate (affiliateId : value) : N unit :=
  fun o =>
    let c := tables o in
    let journal1 := journal o ++ [Sql INSERT_partners_affiliate] in
    match (if is_null affiliateId then Some None
           else Some <$> varchar_in 255 affiliateId) with
    | None => (Throw QueryError, {| tables := c; journal := journal1 |})
    | Some affiliate =>
        (Ok tt,
         {| tables :=
              {| applications := applications c;
                 partner_rows :=
                   partner_rows c
                   ++ [ {| row_id := partners_id_seq c;
                           row_application_id := None;
                           row_affiliate := affiliate |} ];
                 partners_id_seq := partners_id_seq c + 1;
                 admin_logs := admin_logs c;
                 earnings := earnings c;
                 earnings_id_seq := earnings_id_seq c |};
            journal := journal1 |})
    end.

(** server.js 157-229 *)
Definition createTapfiliateAffiliateForEmail (email name : value) : N unit :=
  ntry
    (if unset (TAPFILIATE_API_KEY cfg) || unset (TAPFILIATE_PROGRAM_ID cfg) then
       console "warn"
         "Tapfiliate not fully configured (missing API key or program id). Skipping automatic affiliate creation."
     else if negb (truthy email) then
       console "warn"
         "createTapfiliateAffiliateForEmail called without email, skipping"
     else
       lift_job ensureV2Tables ;;;
       created <~ create_affiliate email name
                    "Tapfiliate create affiliate from Stripe failed:"
                    "Tapfiliate create affiliate from Stripe: missing id in response" ;;
       match created with
       | None => nret tt
       | Some affiliateId =>
           added <~ add_to_program affiliateId
                      "Tapfiliate add affiliate from Stripe to program failed:" ;;
           if added then insert_partner_for_affiliate affiliateId else nret tt
       end)
    (fun err => console "error" "Error in createTapfiliateAffiliateForEmail:").

(** A column read from a row: a string or [null]. *)
Definition column (x : option string) : value :=
  match x with
  | Some s => VStr s
  | None => VNull
  end.

(** [SELECT id, name, email, tapfiliate_affiliate_id FROM
    partner_applications WHERE id = $1]; a NULL parameter matches no
    row. *)
Definition select_application (applicationId : value) : N (list application) :=
  fun o =>
    let o1 := {| tables := tables o;
                 journal := journal o ++ [Sql SELECT_application] |} in
    if is_null applicationId then (Ok [], o1)
    else
      match int4_in applicationId with
      | Some i =>
          (Ok (filter (fun a => app_id a = i) (applications (tables o))), o1)
      | None => (Throw QueryError, o1)
      end.

(** [UPDATE partner_applications SET tapfiliate_affiliate_id = $1 WHERE
    id = $2] *)
Definition update_application_affiliate (affiliateId applicationId : value)
  : N unit :=
  fun o =>
    let c := tables o in
    let journal1 := journal o ++ [Sql UPDATE_application_affiliate] in
    match (if is_null affiliateId then Some None
           else Some <$> varchar_in 255 affiliateId),
          (if is_null applicationId then Some None
           else Some <$> int4_in applicationId) with
    | Some affiliate, Some i =>
        (Ok tt,
         {| tables :=
              {| applications :=
                   (fun a =>
                      if bool_decide (Some (app_id a) = i) then
                        {| app_id := app_id a; app_name := app_name a;
                           app_email := app_email a; app_affiliate := affiliate;
                           app_status := app_status a;
                           app_approved_at := app_approved_at a;
                           app_approved_by := app_approved_by a |}
                      else a) <$> applications c;
                 partner_rows := partner_rows c;
                 partners_id_seq := partners_id_seq c;
                 admin_logs := admin_logs c;
                 earnings := earnings c;
                 earnings_id_seq := earnings_id_seq c |};
            journal := journal1 |})
    | _, _ => (Throw QueryError, {| tables := c; journal := journal1 |})
    end.

(** [INSERT INTO admin_logs (admin_identifier, action, application_id,
    details) VALUES ($1, $2, $3, $4)] with the admin identifier
    ['admin'] and an action written in the source. *)
Definition insert_admin_log (action : string) (applicationId details : value)
  : N unit :=
  fun o =>
    let c := tables o in
    let journal1 := journal o ++ [Sql INSERT_admin_logs] in
    match (if is_null applicationId then Some None
           else Some <$> int4_in applicationId),
          (if is_null details then Some None else Some <$> text_in details) with
    | Some i, Some text =>
        (Ok tt,
         {| tables :=
              {| applications := applications c;
                 partner_rows := partner_rows c;
                 partners_id_seq := partners_id_seq c;
                 admin_logs :=
                   admin_logs c
                   ++ [ {| log_admin := "admin"; log_action := action;
                           log_application_id := i; log_details := text |} ];
                 earnings := earnings c;
                 earnings_id_seq := earnings_id_seq c |};
            journal := journal1 |})
    | _, _ => (Throw QueryError, {| tables := c; journal := journal1 |})
    end.

(** server.js 231-347 *)
Definition syncTapfiliateAffiliate (applicationId : value) : N unit :=
  ntry
    (if unset (TAPFILIATE_API_KEY cfg) || unset (TAPFILIATE_PROGRAM_ID cfg) then
       console "warn"
         "Tapfiliate not fully configured (missing API key or program id). Skipping Tapfiliate sync."
     else
       query_ddl ALTER_TABLE_add_tapfiliate_affiliate_id ;;;
       rows <~ select_application applicationId ;;
       match rows with
       | [] => console "warn" "Tapfiliate sync: application not found for id"
       | appRow :: _ =>
           let email := column (app_email appRow) in
           let name := column (app_name appRow) in
           if negb (truthy email) then
             console "warn" "Tapfiliate sync: application has no email, skipping. id="
           else
             let stored := column (app_affiliate appRow) in
             known <~ (if negb (truthy stored) then
                         created <~ create_affiliate email name
                                      "Tapfiliate create affiliate failed:"
                                      "Tapfiliate create affiliate: missing id in response" ;;
                         match created with
                         | None => nret None
                         | Some affiliateId =>
                             update_application_affiliate affiliateId applicationId ;;;
                             nret (Some affiliateId)
                         end
                       else nret (Some stored)) ;;
             match known with
             | None => nret tt
             | Some affiliateId =>
                 added <~ add_to_program affiliateId
                            "Tapfiliate add affiliate to program failed:" ;;
                 if added then
                   query_ddl CREATE_TABLE_admin_logs ;;;
                   affiliateText <~ nlift (ToString affiliateId) ;;
                   insert_admin_log "tapfiliate_sync" applicationId
                     (VStr ("Affiliate " +:+ affiliateText +:+ " synced to program "
                            +:+ default "" (TAPFILIATE_PROGRAM_ID cfg)))
                 else nret tt
             end
       end)
    (fun err => console "error" "Error syncing Tapfiliate affiliate:").

(** [UPDATE partner_applications SET status = 'approved', approved_at =
    NOW(), approved_by = $1 WHERE id = $2] with [['admin', id]] *)
Definition update_application_approved (applicationId : value) : N unit :=
  fun o =>
    let c := tables o in
    let journal1 := journal o ++ [Sql UPDATE_application_approved] in
    match (if is_null applicationId then Some None
           else Some <$> int4_in applicationId) with
    | Some i =>
        (Ok tt,
         {| tables :=
              {| applications :=
                   (fun a =>
                      if bool_decide (Some (app_id a) = i) then
                        {| app_id := app_id a; app_name := app_name a;
                           app_email := app_email a;
                           app_affiliate := app_affiliate a;
                           app_status := Some "approved";
                           app_approved_at :=
                             Some (now srv (List.length (journal o)));
                           app_approved_by := Some "admin" |}
                      else a) <$> applications c;
                 partner_rows := partner_rows c;
                 partners_id_seq := partners_id_seq c;
                 admin_logs := admin_logs c;
                 earnings := earnings c;
                 earnings_id_seq := earnings_id_seq c |};
            journal := journal1 |})
    | None => (Throw QueryError, {| tables := c; journal := journal1 |})
    end.

(** [INSERT INTO partners (application_id) VALUES ($1) ON CONFLICT
    (application_id) DO NOTHING]. The sequence advances whenever the
    statement is executed. *)
Definition insert_partner_for_application (applicationId : value) : N unit :=
  fun o =>
    let c := tables o in
    let journal1 := journal o ++ [Sql INSERT_partners_application] in
    match (if is_null applicationId then Some None
           else Some <$> int4_in applicationId) with
    | Some i =>
        let taken :=
          match i with
          | Some _ => bool_decide (i ∈ row_application_id <$> partner_rows c)
          | None => false
          end in
        (Ok tt,
         {| tables :=
              {| applications := applications c;
                 partner_rows :=
                   if taken then partner_rows c
                   else partner_rows c
                        ++ [ {| row_id := partners_id_seq c;
                                row_application_id := i;
                                row_affiliate := None |} ];
                 partners_id_seq := partners_id_seq c + 1;
                 admin_logs := admin_logs c;
                 earnings := earnings c;
                 earnings_id_seq := earnings_id_seq c |};
            journal := journal1 |})
    | None => (Throw QueryError, {| tables := c; journal := journal1 |})
    end.

(** The handler of [POST /api/partner-applications/:id/approve],
    server.js 846-900, with [id] the string of the path. The sync is
    started last and not awaited: it runs after the awaited statements,
    and a failure of it would only be logged. *)
Definition post_approve (id : string) : N http_response :=
  response <~ ntry
    (query_ddl ALTER_TABLE_add_approval_columns ;;;
     update_application_approved (VStr id) ;;;
     query_ddl CREATE_TABLE_admin_logs ;;;
     insert_admin_log "approve" (VStr id) VNull ;;;
     lift_job ensureV2Tables ;;;
     insert_partner_for_application (VStr id) ;;;
     ntry (syncTapfiliateAffiliate (VStr id))
       (fun err => console "error" "Unhandled Tapfiliate sync error:") ;;;
     nret {| http_status := 200;
             http_payload := Message true "Partner application approved." |})
    (fun err =>
       console "error" "Error approving application:" ;;;
       nret {| http_status := 500;
               http_payload := Message false "Error approving application." |}) ;;
  nret response.

End Onboarding.

(** ** Applications, server.js 723-796

    The route reads [partner_applications] before the statement that
    creates it, so whether the table exists is part of the state here.
    Its rows are kept by the columns of [application]; the other columns
    are checked against their types and not kept, no function above
    reads them. *)

Section Applications.
Context `{PostgresText}.

Record front := {
  (** the sequence behind [partner_applications.id], created and dropped
      with the table: [None] when the table does not exist *)
  partner_applications_id_seq : option Z;
  (** the tables and the journal *)
  back : office;
}.

Definition F (A : Type) : Type := front -> result A * front.

Definition fret {A} (a : A) : F A := fun f => (Ok a, f).

Definition fbind {A B} (m : F A) (k : A -> F B) : F B :=
  fun f =>
    match m f with
    | (Ok a, f1) => k a f1
    | (Throw e, f1) => (Throw e, f1)
    end.

(** [try { m } catch (err) { handler err }] *)
Definition ftry {A} (m : F A) (handler : exn -> F A) : F A :=
  fun f =>
    match m f with
    | (Ok a, f1) => (Ok a, f1)
    | (Throw e, f1) => handler e f1
    end.

(** A function of the back office run from the route. *)
Definition on_back {A} (m : N A) : F A :=
  fun f =>
    let '(r, o) := m (back f) in
    (r, {| partner_applications_id_seq := partner_applications_id_seq f;
           back := o |}).

Definition journaled (f : front) (e : office_event) : front :=
  {| partner_applications_id_seq := partner_applications_id_seq f;
     back := {| tables := tables (back f);
                journal := journal (back f) ++ [e] |} |}.

Local Notation "x <~ m ;; k" := (fbind m (fun x => k))
  (at level 100, m at next level, right associativity).
Local Notation "m ;;; k" := (fbind m (fun _ => k))
  (at level 100, right associativity).

(** [SELECT id FROM partner_applications WHERE email = $1 LIMIT 1]: an
    error when the table does not exist; the parameter is compared as
    text, and a NULL parameter matches no row. *)
Definition select_application_by_email (email : value) : F (list Z) :=
  fun f =>
    let f1 := journaled f (Sql SELECT_application_by_email) in
    match partner_applications_id_seq f with
    | None => (Throw QueryError, f1)
    | Some _ =>
        if is_null email then (Ok [], f1)
        else
          match text_in email with
          | Some e =>
              (Ok (take 1 (app_id <$> filter (fun a => app_email a = Some e)
                                        (applications (tables (back f))))),
               f1)
          | None => (Throw QueryError, f1)
          end
    end.

(** [CREATE TABLE IF NOT EXISTS partner_applications (...)] *)
Definition create_table_partner_applications : F unit :=
  fun f =>
    let c := tables (back f) in
    let journal1 := journal (back f) ++ [Sql CREATE_TABLE_partner_applications] in
    match partner_applications_id_seq f with
    | Some _ =>
        (Ok tt,
         {| partner_applications_id_seq := partner_applications_id_seq f;
            back := {| tables := c; journal := journal1 |} |})
    | None =>
        (Ok tt,
         {| partner_applications_id_seq := Some 1%Z;
            back := {| tables :=
                         {| applications := [];
                            partner_rows := partner_rows c;
                            partners_id_seq := partners_id_seq c;
                            admin_logs := admin_logs c;
                            earnings := earnings c;
                            earnings_id_seq := earnings_id_seq c |};
                       journal := journal1 |} |})
    end.

(** A parameter against a column that is NOT NULL, and against one that
    takes NULL. *)
Definition required (read : value -> option string) (v : value) : option string :=
  if is_null v then None else read v.

Definition optional (read : value -> option string) (v : value)
  : option (option string) :=
  if is_null v then Some None else Some <$> read v.

(** [x || null] *)
Definition or_null (v : value) : value := if truthy v then v else VNull.

(** [INSERT INTO partner_applications (name, email, whatsapp, country,
    audience_size, platform, motivation, terms_accepted) VALUES ($1, ...,
    $8)], the last parameter being [true]; the status of the row is the
    default of the column. *)
Definition insert_partner_application
    (name email whatsapp country audience platform motivation : value) : F unit :=
  fun f =>
    let c := tables (back f) in
    let journal1 := journal (back f) ++ [Sql INSERT_partner_applications] in
    let refused :=
      (Throw QueryError,
       {| partner_applications_id_seq := partner_applications_id_seq f;
          back := {| tables := c; journal := journal1 |} |}) in
    match partner_applications_id_seq f,
          required (varchar_in 255) name, required (varchar_in 255) email,
          optional (varchar_in 50) whatsapp, required (varchar_in 100) country,
          optional (varchar_in 50) audience, optional (varchar_in 255) platform,
          required text_in motivation with
    | Some nextval, Some n, Some e, Some _, Some _, Some _, Some _, Some _ =>
        (Ok tt,
         {| partner_applications_id_seq := Some (nextval + 1)%Z;
            back :=
              {| tables :=
                   {| applications :=
                        applications c
                        ++ [ {| app_id := nextval; app_name := Some n;
                                app_email := Some e; app_affiliate := None;
                                app_status := Some "pending";
                                app_approved_at := None;
                                app_approved_by := None |} ];
                      partner_rows := partner_rows c;
                      partners_id_seq := partners_id_seq c;
                      admin_logs := admin_logs c;
                      earnings := earnings c;
                      earnings_id_seq := earnings_id_seq c |};
                 journal := journal1 |} |})
    | _, _, _, _, _, _, _, _ => refused
    end.

Variable srv : services.
(** [process.env.LANDING_WAITLIST_URL] *)
Variable LANDING_WAITLIST_URL : option string.

Definition MISSING_REQUIRED : http_response :=
  {| http_status := 400; http_payload := Message false "Missing required fields." |}.

Definition EMAIL_USED : http_response :=
  {| http_status := 400;
     http_payload :=
       Message false "This email has already been used for a partner application." |}.

Definition SUBMITTED : http_response :=
  {| http_status := 200;
     http_payload :=
       Message true
         "Application submitted successfully. We will review and get back to you." |}.

Definition SAVE_FAILED : http_response :=
  {| http_status := 500;
     http_payload :=
       Message false "Error saving application. Please try again later." |}.

(** The handler of [POST /api/partner-application]. The body is taken
    apart before the [try]: on a body that is [null] or [undefined] the
    handler throws. The names read (name, email, whatsapp, country,
    audience, platform, motivation, termsAccepted) are members of no
    prototype of a parsed body. The forwarding is started last and not
    awaited: it runs after the awaited statements, and a failure of it
    would only be logged. *)
Definition post_partner_application (body : value) : F http_response :=
  fun f =>
    match get body "name", get body "email", get body "whatsapp",
          get body "country", get body "audience", get body "platform",
          get body "motivation", get body "termsAccepted" with
    | Ok name, Ok email, Ok whatsapp, Ok country, Ok audience, Ok platform,
      Ok motivation, Ok termsAccepted =>
        if negb (truthy name) || negb (truthy email) || negb (truthy country)
           || negb (truthy motivation) || negb (truthy termsAccepted)
        then (Ok MISSING_REQUIRED, f)
        else
          ftry
            (existing <~ select_application_by_email email ;;
             if (0 <? List.length existing)%nat then fret EMAIL_USED
             else
               create_table_partner_applications ;;;
               insert_partner_application name email (or_null whatsapp) country
                 (or_null audience) (or_null platform) motivation ;;;
               on_back (console "log" "New partner application stored for:") ;;;
               on_back
                 (ntry (forwardEmailToLanding srv LANDING_WAITLIST_URL email)
                    (fun err =>
                       console "error" "Unhandled waitlist forwarding error:")) ;;;
               fret SUBMITTED)
            (fun err =>
               on_back (console "error" "Error saving partner application:") ;;;
               fret SAVE_FAILED)
            f
    | _, _, _, _, _, _, _, _ => (Throw TypeError, f)
    end.

End Applications.


(** ** Reference instances

    Two executable runtimes and a store, used to run the job on concrete
    inputs.

    [Reference.exact] computes with exact numbers: a rational, an
    infinity or NaN, with the IEEE rules for the special values and no
    rounding on the finite ones. [Binary64.binary64] computes with the
    kernel's binary64 floats, which is what a JavaScript Number is. The
    string conversions cover decimal notation (no hexadecimal, octal or
    binary literals).

    The store reads dates in the [YYYY-MM-DD] form the job writes, takes
    strings, numbers and booleans as text parameters (not arrays or
    objects), and rounds a NUMERIC half away from zero. *)

Module Reference.

Inductive xnum :=
| XNaN
| XInf (negative : bool)
| XFin (q : Q).

Definition fin (q : Q) : xnum := XFin (Qred q).

Definition xneg (a : xnum) : xnum :=
  match a with
  | XNaN => XNaN
  | XInf s => XInf (negb s)
  | XFin q => fin (- q)
  end.

Definition xadd (a b : xnum) : xnum :=
  match a, b with
  | XNaN, _ | _, XNaN => XNaN
  | XInf s, XInf s' => if Bool.eqb s s' then XInf s else XNaN
  | XInf s, XFin _ | XFin _, XInf s => XInf s
  | XFin p, XFin q => fin (p + q)
  end.

Definition xsub (a b : xnum) : xnum := xadd a (xneg b).

Definition Qnegative (q : Q) : bool := negb (Qle_bool 0 q).

Definition xmul (a b : xnum) : xnum :=
  match a, b with
  | XNaN, _ | _, XNaN => XNaN
  | XInf s, XInf s' => XInf (xorb s s')
  | XInf s, XFin q | XFin q, XInf s =>
      if Qeq_bool q 0 then XNaN else XInf (xorb s (Qnegative q))
  | XFin p, XFin q => fin (p * q)
  end.

Definition xle (a b : xnum) : bool :=
  match a, b with
  | XNaN, _ | _, XNaN => false
  | XInf true, _ => true
  | _, XInf false => true
  | XInf false, _ => false
  | _, XInf true => false
  | XFin p, XFin q => Qle_bool p q
  end.

Definition xmax (a b : xnum) : xnum :=
  match a, b with
  | XNaN, _ | _, XNaN => XNaN
  | _, _ => if xle a b then b else a
  end.

Definition xisNaN (a : xnum) : bool :=
  match a with XNaN => true | _ => false end.

Definition xtruthy (a : xnum) : bool :=
  match a with
  | XNaN => false
  | XInf _ => true
  | XFin q => negb (Qeq_bool q 0)
  end.

Definition string_of_Z (z : Z) : string := NilZero.string_of_int (Z.to_int z).

(** The fractional digits of [r / d], at most [fuel] of them. *)
Fixpoint fraction_digits (fuel : nat) (r d : Z) : string :=
  match fuel with
  | O => ""
  | S fuel' =>
      if (r =? 0)%Z then ""
      else string_of_Z (r * 10 / d) +:+ fraction_digits fuel' (r * 10 mod d) d
  end.

Definition xtoString (a : xnum) : string :=
  match a with
  | XNaN => "NaN"
  | XInf false => "Infinity"
  | XInf true => "-Infinity"
  | XFin q =>
      let n := Qnum q in
      let d := Z.pos (Qden q) in
      let whole := (Z.abs n / d)%Z in
      let r := (Z.abs n mod d)%Z in
      (if (n <? 0)%Z then "-" else "")
      +:+ string_of_Z whole
      +:+ (if (r =? 0)%Z then "" else "." +:+ fraction_digits 20 r d)
  end.

Definition digit_value (c : ascii) : option Z :=
  let n := nat_of_ascii c in
  if ((48 <=? n) && (n <=? 57))%nat then Some (Z.of_nat n - 48)%Z else None.

(** Reads a run of digits: the value read so far, the number of digits
    and what follows them. *)
Fixpoint read_digits (s : string) (acc : Z) (count : nat) : Z * nat * string :=
  match s with
  | String c rest =>
      match digit_value c with
      | Some v => read_digits rest (acc * 10 + v)%Z (S count)
      | None => (acc, count, s)
      end
  | EmptyString => (acc, count, s)
  end.

Definition read_sign (s : string) : bool * string :=
  match s with
  | String "-" rest => (true, rest)
  | String "+" rest => (false, rest)
  | _ => (false, s)
  end.

Definition is_space (c : ascii) : bool :=
  let n := nat_of_ascii c in
  ((n =? 32) || (n =? 9) || (n =? 10) || (n =? 13))%nat.

Fixpoint trim_left (s : string) : string :=
  match s with
  | String c rest => if is_space c then trim_left rest else s
  | EmptyString => s
  end.

Definition trim (s : string) : string :=
  let rev_string x := string_of_list_ascii (rev (list_ascii_of_string x)) in
  rev_string (trim_left (rev_string (trim_left s))).

Definition pow10 (e : Z) : Q :=
  if (0 <=? e)%Z then inject_Z (10 ^ e) else / inject_Z (10 ^ (- e)).

Definition read_exponent (s : string) : option Z :=
  match s with
  | EmptyString => Some 0%Z
  | String c rest =>
      if Ascii.eqb c "e" || Ascii.eqb c "E" then
        let '(negative, rest1) := read_sign rest in
        match read_digits rest1 0 0 with
        | (_, O, _) => None
        | (e, _, EmptyString) => Some (if negative then (- e)%Z else e)
        | _ => None
        end
      else None
  end.

Definition xStringToNumber (text : string) : xnum :=
  let s := trim text in
  if String.eqb s "" then fin 0 else
  let '(negative, body) := read_sign s in
  if String.eqb body "Infinity" then XInf negative else
  let '(whole, whole_digits, rest) := read_digits body 0 0 in
  let '(frac, frac_digits, rest1) :=
    match rest with
    | String "." after => read_digits after 0 0
    | _ => (0%Z, O, rest)
    end in
  if ((whole_digits + frac_digits =? 0)%nat) then XNaN else
  match read_exponent rest1 with
  | None => XNaN
  | Some e =>
      let mantissa :=
        (inject_Z whole + inject_Z frac * pow10 (- Z.of_nat frac_digits))%Q in
      let magnitude := (mantissa * pow10 e)%Q in
      fin (if negative then - magnitude else magnitude)
  end.

Definition lower_ascii (c : ascii) : ascii :=
  let n := nat_of_ascii c in
  if ((65 <=? n) && (n <=? 90))%nat then ascii_of_nat (n + 32) else c.

Fixpoint xtoLowerCase (s : string) : string :=
  match s with
  | EmptyString => EmptyString
  | String c rest => String (lower_ascii c) (xtoLowerCase rest)
  end.

Definition integer_of (a : xnum) : option Z :=
  match a with
  | XFin q => if (Z.pos (Qden (Qred q)) =? 1)%Z then Some (Qnum (Qred q)) else None
  | _ => None
  end.

Definition pad (width : nat) (z : Z) : string :=
  let s := string_of_Z z in
  string_of_list_ascii (repeat "0"%char (width - String.length s)) +:+ s.

(** [Date.UTC] maps the years 0 to 99 to 1900 to 1999 and carries a month
    index outside 0..11 into the year. *)
Definition x_utc_month_start_iso (year monthIndex : xnum) : string :=
  match integer_of year, integer_of monthIndex with
  | Some y, Some m =>
      let y1 := if ((0 <=? y) && (y <=? 99))%Z then (y + 1900)%Z else y in
      let y2 := (y1 + m / 12)%Z in
      let m2 := (m mod 12 + 1)%Z in
      (if ((0 <=? y2) && (y2 <=? 9999))%Z then pad 4 y2
       else (if (y2 <? 0)%Z then "-" else "+") +:+ pad 6 (Z.abs y2))
      +:+ "-" +:+ pad 2 m2 +:+ "-01T00:00:00.000Z"
  | _, _ => "Invalid Date"
  end.

Definition exact : Runtime := {|
  num := xnum;
  NaN := XNaN;
  of_Z := fun z => fin (inject_Z z);
  num_add := xadd;
  num_sub := xsub;
  num_mul := xmul;
  Math_max := xmax;
  num_le := xle;
  Number_isNaN := xisNaN;
  num_truthy := xtruthy;
  Number_toString := xtoString;
  StringToNumber := xStringToNumber;
  toLowerCase := xtoLowerCase;
  utc_month_start_iso := x_utc_month_start_iso;
|}.

(** The store. A DATE is year, month, day; a NUMERIC is an exact number.
    [sent n] is the number PostgreSQL reads in the text the driver sends
    for the Number [n]. *)

Section Store.
Context `{Runtime}.
Variable sent : num -> xnum.

Definition days_in_month (y m : Z) : Z :=
  if (m =? 2)%Z then
    if ((y mod 4 =? 0) && (negb (y mod 100 =? 0) || (y mod 400 =? 0)))%Z
    then 29 else 28
  else if ((m =? 4) || (m =? 6) || (m =? 9) || (m =? 11))%Z then 30 else 31.

Definition x_date_in (v : value) : option (Z * Z * Z) :=
  match v with
  | VStr s =>
      match list_ascii_of_string s with
      | [y1; y2; y3; y4; h1; m1; m2; h2; d1; d2] =>
          if Ascii.eqb h1 "-" && Ascii.eqb h2 "-" then
            match read_digits (string_of_list_ascii [y1; y2; y3; y4]) 0 0,
                  read_digits (string_of_list_ascii [m1; m2]) 0 0,
                  read_digits (string_of_list_ascii [d1; d2]) 0 0 with
            | (y, 4%nat, _), (m, 2%nat, _), (d, 2%nat, _) =>
                if ((1 <=? y) && (1 <=? m) && (m <=? 12) && (1 <=? d)
                    && (d <=? days_in_month y m))%Z
                then Some (y, m, d) else None
            | _, _, _ => None
            end
          else None
      | _ => None
      end
  | _ => None
  end.

(** The text the driver sends for a parameter. *)
Definition parameter_text (v : value) : option string :=
  match v with
  | VStr s => Some s
  | VNum n => Some (Number_toString n)
  | VBool true => Some "true"
  | VBool false => Some "false"
  | _ => None
  end.

Definition x_int4_in (v : value) : option Z :=
  text ← parameter_text v;
  let '(negative, body) := read_sign (trim text) in
  match read_digits body 0 0 with
  | (_, O, _) => None
  | (z, _, EmptyString) =>
      let i := if negative then (- z)%Z else z in
      if ((-2147483648 <=? i) && (i <=? 2147483647))%Z then Some i else None
  | _ => None
  end.

Fixpoint all_spaces (s : string) : bool :=
  match s with
  | EmptyString => true
  | String c rest => Ascii.eqb c " " && all_spaces rest
  end.

(** A longer string is an error unless the excess is spaces, which are
    cut off. *)
Definition x_varchar_in (n : nat) (v : value) : option string :=
  text ← parameter_text v;
  if (String.length text <=? n)%nat then Some text
  else if all_spaces (substring n (String.length text - n) text)
       then Some (substring 0 n text)
       else None.

(** NUMERIC(precision, scale): rounds half away from zero to [scale]
    decimals and refuses what does not fit [precision] digits. NaN is a
    NUMERIC value; the infinities do not fit a column with a
    precision. *)
Definition round_numeric (precision scale : nat) (a : xnum) : option xnum :=
  match a with
  | XNaN => Some XNaN
  | XInf _ => None
  | XFin q =>
      let unit := inject_Z (10 ^ Z.of_nat scale) in
      let scaled := (Qabs q * unit)%Q in
      let rounded := Qfloor (scaled + (1 # 2))%Q in
      if (rounded <? 10 ^ Z.of_nat precision)%Z then
        Some (fin ((if Qnegative q then - inject_Z rounded else inject_Z rounded)
                   / unit)%Q)
      else None
  end.

Definition x_numeric_in (precision scale : nat) (n : num) : option xnum :=
  round_numeric precision scale (sent n).

Definition reference_store : Postgres := {|
  date := Z * Z * Z;
  numeric := xnum;
  int4_in := x_int4_in;
  date_in := x_date_in;
  varchar_in := x_varchar_in;
  numeric_in := x_numeric_in;
|}.

End Store.

(** With exact numbers the store reads the number itself. *)
Definition store : @Postgres exact := @reference_store exact (fun a => a).

End Reference.

Module Binary64.
Import Reference.

Definition spec_of_Z (z : Z) : spec_float :=
  match z with
  | Z0 => S754_zero false
  | Zpos p => S754_finite false p 0
  | Zneg p => S754_finite true p 0
  end.

(** The double nearest to a rational, ties to even: the correctly
    rounded quotient of numerator and denominator. *)
Definition float_of_Q (q : Q) : float :=
  SF2Prim (SFdiv prec emax (spec_of_Z (Qnum q)) (S754_finite false (Qden q) 0)).

Definition pow2 (e : Z) : Q :=
  if (0 <=? e)%Z then inject_Z (2 ^ e) else / inject_Z (2 ^ (- e)).

(** The rational a finite double stands for. *)
Definition Q_of_float (x : float) : option Q :=
  match Prim2SF x with
  | S754_zero _ => Some 0%Q
  | S754_finite negative m e =>
      Some (Qred ((if negative then - inject_Z (Zpos m) else inject_Z (Zpos m))
                  * pow2 e))
  | _ => None
  end.

Definition float_of_xnum (a : xnum) : float :=
  match a with
  | XNaN => nan
  | XInf false => infinity
  | XInf true => neg_infinity
  | XFin q => float_of_Q q
  end.

(** [Math.max]: NaN if either argument is, and [+0] above [-0]. *)
Definition float_max (a b : float) : float :=
  if is_nan a || is_nan b then nan
  else if PrimFloat.ltb a b then b
  else if PrimFloat.ltb b a then a
  else if is_zero a then PrimFloat.add a b
  else a.

Fixpoint leading_zeros (fuel : nat) (q : Q) : Z :=
  match fuel with
  | O => 0
  | S fuel' => if Qle_bool 1 q then 0 else 1 + leading_zeros fuel' (q * 10)%Q
  end.

(** [n] with [10^(n-1) <= q < 10^n], for [q > 0]. *)
Definition decimal_exponent (q : Q) : Z :=
  if Qle_bool 1 q then Z.of_nat (String.length (string_of_Z (Qfloor q)))
  else - leading_zeros 400 (q * 10)%Q.

(** Number::toString picks the fewest digits [s] and the exponent [n]
    such that [s * 10^(n-k)] reads back as [x], and among those the
    closest to [x]. [q] is the value of [x], [k] the number of digits
    tried. *)
Fixpoint shortest (fuel : nat) (k : Z) (x : float) (q : Q) (n : Z) : Z * Z :=
  match fuel with
  | O => (0, n)
  | S fuel' =>
      let unit := pow10 (n - k) in
      let lo := Qfloor (q / unit) in
      let hi := (lo + 1)%Z in
      let reads s := PrimFloat.eqb (float_of_Q (inject_Z s * unit)) x in
      let below := (q - inject_Z lo * unit)%Q in
      let above := (inject_Z hi * unit - q)%Q in
      let pick s := if (s =? 10 ^ k)%Z then (10 ^ (k - 1), n + 1)%Z else (s, n) in
      match reads lo, reads hi with
      | true, true =>
          match Qcompare below above with
          | Lt => pick lo
          | Gt => pick hi
          | Eq => if Z.even lo then pick lo else pick hi
          end
      | true, false => pick lo
      | false, true => pick hi
      | false, false => shortest fuel' (k + 1) x q n
      end
  end.

Definition zeros (n : Z) : string :=
  string_of_list_ascii (repeat "0"%char (Z.to_nat n)).

(** The layout rules of Number::toString for the digits [s] and the
    exponent [n]. *)
Definition format_digits (s n : Z) : string :=
  let digits := string_of_Z s in
  let k := Z.of_nat (String.length digits) in
  if ((k <=? n) && (n <=? 21))%Z then digits +:+ zeros (n - k)
  else if ((0 <? n) && (n <=? 21))%Z then
    substring 0 (Z.to_nat n) digits +:+ "."
    +:+ substring (Z.to_nat n) (Z.to_nat (k - n)) digits
  else if ((-6 <? n) && (n <=? 0))%Z then "0." +:+ zeros (- n) +:+ digits
  else
    let e := (n - 1)%Z in
    let exponent := (if (e <? 0)%Z then "-" else "+") +:+ string_of_Z (Z.abs e) in
    if (k =? 1)%Z then digits +:+ "e" +:+ exponent
    else substring 0 1 digits +:+ "."
         +:+ substring 1 (Z.to_nat (k - 1)) digits +:+ "e" +:+ exponent.

Definition float_toString (x : float) : string :=
  if is_nan x then "NaN"
  else if is_zero x then "0"
  else if is_infinity x then
    (if PrimFloat.ltb x zero then "-Infinity" else "Infinity")
  else
    match Q_of_float (abs x) with
    | Some q =>
        let '(s, n) := shortest 17 1 (abs x) q (decimal_exponent q) in
        (if PrimFloat.ltb x zero then "-" else "") +:+ format_digits s n
    | None => "NaN"
    end.

Definition float_StringToNumber (text : string) : float :=
  float_of_xnum (xStringToNumber text).

Definition float_of_Z (z : Z) : float := float_of_Q (inject_Z z).

Definition xnum_of_float (x : float) : xnum :=
  if is_nan x then XNaN
  else match Q_of_float x with
       | Some q => XFin q
       | None => XInf (PrimFloat.ltb x zero)
       end.

Definition float_utc_month_start_iso (year monthIndex : float) : string :=
  x_utc_month_start_iso (xnum_of_float year) (xnum_of_float monthIndex).

Definition binary64 : Runtime := {|
  num := float;
  NaN := nan;
  of_Z := float_of_Z;
  num_add := PrimFloat.add;
  num_sub := PrimFloat.sub;
  num_mul := PrimFloat.mul;
  Math_max := float_max;
  num_le := PrimFloat.leb;
  Number_isNaN := is_nan;
  num_truthy := fun x => negb (is_zero x || is_nan x);
  Number_toString := float_toString;
  StringToNumber := float_StringToNumber;
  toLowerCase := xtoLowerCase;
  utc_month_start_iso := float_utc_month_start_iso;
|}.

(** Not NaN; neither NaN nor an infinity. *)
Definition anumber (s : spec_float) : bool :=
  match s with S754_nan => false | _ => true end.

Definition finite_number (s : spec_float) : bool :=
  match s with S754_zero _ | S754_finite _ _ _ => true | _ => false end.

(** The driver sends a Number as its string, and the store reads the
    decimal number written there. *)
Definition store : @Postgres binary64 :=
  @reference_store binary64 (fun x => xStringToNumber (float_toString x)).

End Binary64.

(** ** Properties *)

Section Properties.
Context `{Postgres}.

Implicit Types (w : world) (env : environment) (cfg : config).

(** *** Running the monad *)

Lemma bind_ok {A B} (m : M A) (k : A -> M B) w a w1 :
  m w = (Ok a, w1) -> bind m k w = k a w1.
Proof. unfold bind. by intros ->. Qed.

Lemma bind_throw {A B} (m : M A) (k : A -> M B) w e w1 :
  m w = (Throw e, w1) -> bind m k w = (Throw e, w1).
Proof. unfold bind. by intros ->. Qed.

Lemma bind_inv_ok {A B} (m : M A) (k : A -> M B) w b w2 :
  bind m k w = (Ok b, w2) ->
  exists a w1, m w = (Ok a, w1) /\ k a w1 = (Ok b, w2).
Proof.
  unfold bind. destruct (m w) as [[a|e] w1]; [eauto | discriminate].
Qed.

Lemma bind_inv_throw {A B} (m : M A) (k : A -> M B) w e w2 :
  bind m k w = (Throw e, w2) ->
  m w = (Throw e, w2) \/ exists a w1, m w = (Ok a, w1) /\ k a w1 = (Throw e, w2).
Proof.
  unfold bind. destruct (m w) as [[a|e'] w1]; [eauto | intros [= -> ->]; eauto].
Qed.

Definition logged (w : world) (events : list event) : world :=
  {| db := db w; trace := trace w ++ events |}.

Lemma logged_nil w : logged w [] = w.
Proof. destruct w. unfold logged. simpl. by rewrite app_nil_r. Qed.

Lemma logged_logged w a b : logged (logged w a) b = logged w (a ++ b).
Proof. unfold logged. simpl. by rewrite app_assoc. Qed.

Definition ddl_events : list event :=
  [ Query (CREATE_TABLE "partners");
    Query (CREATE_TABLE "partner_earnings");
    Query (CREATE_UNIQUE_INDEX "idx_partner_earnings_partner_period_currency");
    Query (CREATE_TABLE "partner_payouts") ].

Lemma ensureV2Tables_run w : ensureV2Tables w = (Ok tt, logged w ddl_events).
Proof.
  unfold ensureV2Tables, try_catch, bind, pool_query_ddl, emit, logged. simpl.
  by rewrite <- !app_assoc.
Qed.

Lemma select_partners_run w :
  pool_query_select_partners w
  = (Ok (linked_partners (db w)), logged w [Query SELECT_partners]).
Proof. reflexivity. Qed.

Definition is_fetch (e : event) : bool :=
  match e with Fetch _ => true | _ => false end.

(** *** Relations every step of the job preserves

    [R] relates the world before a computation to the world after it.
    When logging a query or a console line and executing the INSERT
    respect [R], so does every step that sends no request; when sending
    a request respects it too, so does the whole job. *)

Section Stable.
Variable R : world -> world -> Prop.
Hypothesis R_refl : forall w, R w w.
Hypothesis R_trans : forall w1 w2 w3, R w1 w2 -> R w2 w3 -> R w1 w3.
Hypothesis R_emit : forall w e, is_fetch e = false -> R w (logged w [e]).

Definition stable {A} (m : M A) : Prop := forall w, R w (snd (m w)).

Lemma stable_ret {A} (a : A) : stable (ret a).
Proof using R_refl. intros w. apply R_refl. Qed.

Lemma stable_throw {A} e : stable (@throw _ _ A e).
Proof using R_refl. intros w. apply R_refl. Qed.

Lemma stable_lift {A} (r : result A) : stable (lift r).
Proof using R_refl. intros w. apply R_refl. Qed.

Lemma stable_bind {A B} (m : M A) (k : A -> M B) :
  stable m -> (forall a, stable (k a)) -> stable (bind m k).
Proof using R_trans.
  intros Hm Hk w. unfold bind. specialize (Hm w).
  destruct (m w) as [[a|e] w1]; simpl in *; [|done].
  eapply R_trans; [exact Hm | apply Hk].
Qed.

Lemma stable_try_catch {A} (m : M A) (h : exn -> M A) :
  stable m -> (forall e, stable (h e)) -> stable (try_catch m h).
Proof using R_trans.
  intros Hm Hh w. unfold try_catch. specialize (Hm w).
  destruct (m w) as [[a|e] w1]; simpl in *; [done|].
  eapply R_trans; [exact Hm | apply Hh].
Qed.

Lemma stable_emit e : is_fetch e = false -> stable (emit e).
Proof using R_emit. intros He w. by apply R_emit. Qed.

Lemma stable_ensureV2Tables : stable ensureV2Tables.
Proof using R_refl R_trans R_emit.
  apply stable_try_catch; [|intros; by apply stable_emit].
  repeat (apply stable_bind; [by apply stable_emit | intros _]).
  by apply stable_emit.
Qed.

Lemma stable_select_partners : stable pool_query_select_partners.
Proof using R_emit. intros w. by apply R_emit. Qed.

Hypothesis R_insert : forall env a b c g n r x,
  stable (pool_query_insert env a b c g n r x "manual_test").

Lemma stable_upsertPartnerEarnings env a : stable (upsertPartnerEarnings env a).
Proof using R_refl R_trans R_emit R_insert.
  apply stable_try_catch.
  - apply stable_bind; [apply stable_ensureV2Tables | intros _].
    repeat (apply stable_bind; [apply stable_lift | intros ?]).
    apply R_insert.
  - intros e.
    apply stable_bind; [by apply stable_emit | intros; apply stable_throw].
Qed.

Lemma stable_upsert_buckets env cfg bucket periodDate keys :
  forall totals, stable (upsert_buckets env cfg bucket periodDate keys totals).
Proof using R_refl R_trans R_emit R_insert.
  induction keys as [|key keys IH]; intros totals; simpl.
  - apply stable_ret.
  - destruct (object_get bucket key); try apply stable_throw.
    apply stable_bind; [apply stable_upsertPartnerEarnings | intros row; apply IH].
Qed.

Lemma stable_settle_conversions env cfg periodYm a2p convs :
  stable (settle_conversions env cfg periodYm a2p convs).
Proof using R_refl R_trans R_emit R_insert.
  unfold settle_conversions. destruct (_ =? _)%nat; [apply stable_ret|].
  apply stable_bind; [apply stable_lift | intros bucket].
  apply stable_bind; [apply stable_upsert_buckets | intros; apply stable_ret].
Qed.

Hypothesis R_fetch : forall w r, R w (logged w [Fetch r]).

Lemma stable_do_fetch env r : stable (do_fetch env r).
Proof using R_fetch.
  intros w. unfold do_fetch. destruct (fetch env r); apply R_fetch.
Qed.

Lemma stable_fetch_pages env cfg fromIso toIso remaining :
  forall page acc, stable (fetch_pages env cfg fromIso toIso remaining page acc).
Proof using R_refl R_trans R_emit R_fetch.
  induction remaining as [|n IH]; intros page acc; simpl.
  - apply stable_ret.
  - apply stable_bind; [apply stable_do_fetch|]. intros res.
    destruct (negb (ok res)).
    + apply stable_bind; [by apply stable_emit | intros; apply stable_throw].
    + destruct (default (VArr []) (json res)) as [| | | | |items| |];
        try apply stable_ret.
      destruct items as [|x items]; [apply stable_ret|].
      destruct (_ <? _)%Z; [apply stable_ret | apply IH].
Qed.

Lemma stable_sync env cfg periodYm :
  stable (syncPartnerEarningsFromTapfiliate env cfg periodYm).
Proof using R_refl R_trans R_emit R_insert R_fetch.
  unfold syncPartnerEarningsFromTapfiliate.
  destruct (_ || _); [apply stable_throw|].
  destruct (negb _); [apply stable_throw|].
  apply stable_bind; [apply stable_ensureV2Tables | intros _].
  apply stable_bind; [apply stable_select_partners | intros rows].
  destruct (_ =? _)%nat; [apply stable_ret|].
  apply stable_bind; [apply stable_fetch_pages | intros convs].
  apply stable_settle_conversions.
Qed.

End Stable.

(** *** What one upsert does *)

(** The proposed row of a call, or the error raised before the statement
    is executed. *)
Definition upsert_parameters (a : upsert_args) : result proposed :=
  let! rate := Number_or_zero (commissionRate a) in
  let! net := Number_or_zero (netRevenue a) in
  let! gross := Number_or_zero (grossRevenue a) in
  match bind_parameters (partnerId a) (arg_period a) (arg_currency a)
          gross net rate (num_mul net rate) "manual_test" with
  | Some v => Ok v
  | None => Throw QueryError
  end.

Lemma insert_ok env a b c g n r x s w row w' :
  pool_query_insert env a b c g n r x s w = (Ok row, w') ->
  exists v,
    bind_parameters a b c g n r x s = Some v
    /\ references_partner v (db w) = true
    /\ insert_on_conflict v (partner_earnings_id_seq (db w))
         (clock env (List.length (trace w))) (partner_earnings (db w))
       = (row, partner_earnings (db w'))
    /\ partners (db w') = partners (db w)
    /\ trace w' = trace w ++ [Query INSERT_partner_earnings].
Proof.
  unfold pool_query_insert. destruct bind_parameters as [v|]; [|discriminate].
  destruct references_partner eqn:Hfk; [|discriminate].
  destruct insert_on_conflict as [row0 rows0] eqn:E.
  intros [= <- <-]. exists v. simpl. by rewrite E.
Qed.

Lemma insert_throw env a b c g n r x s w e w' :
  pool_query_insert env a b c g n r x s w = (Throw e, w') ->
  e = QueryError
  /\ partner_earnings (db w') = partner_earnings (db w)
  /\ partners (db w') = partners (db w)
  /\ trace w' = trace w ++ [Query INSERT_partner_earnings]
  /\ match bind_parameters a b c g n r x s with
     | Some v => references_partner v (db w) = false
     | None => True
     end.
Proof.
  unfold pool_query_insert. destruct bind_parameters as [v|].
  - destruct references_partner eqn:E.
    + destruct insert_on_conflict. discriminate.
    + by intros [= <- <-].
  - by intros [= <- <-].
Qed.

Lemma upsert_ok env a w row w' :
  upsertPartnerEarnings env a w = (Ok row, w') ->
  exists v now,
    upsert_parameters a = Ok v
    /\ references_partner v (db w) = true
    /\ insert_on_conflict v (partner_earnings_id_seq (db w)) now
         (partner_earnings (db w))
       = (row, partner_earnings (db w'))
    /\ partners (db w') = partners (db w)
    /\ trace w' = trace w ++ ddl_events ++ [Query INSERT_partner_earnings].
Proof.
  unfold upsertPartnerEarnings, try_catch, upsert_parameters.
  rewrite (bind_ok _ _ _ _ _ (ensureV2Tables_run w)).
  unfold bind at 1, lift at 1.
  destruct (Number_or_zero (commissionRate a)) as [rate|]; simpl;
    [|unfold bind, console_error, emit, throw; discriminate].
  unfold bind at 1, lift at 1.
  destruct (Number_or_zero (netRevenue a)) as [net|]; simpl;
    [|unfold bind, console_error, emit, throw; discriminate].
  unfold bind at 1, lift at 1.
  destruct (Number_or_zero (grossRevenue a)) as [gross|]; simpl;
    [|unfold bind, console_error, emit, throw; discriminate].
  destruct pool_query_insert as [[row0|e] w0] eqn:E;
    [|unfold bind, console_error, emit, throw; discriminate].
  intros [= <- <-]. apply insert_ok in E as (v & Hv & Hfk & Hins & Hp & Ht).
  exists v, (clock env (List.length (trace (logged w ddl_events)))).
  rewrite Hv. simpl in *. rewrite Ht, <- app_assoc. done.
Qed.

Lemma upsert_throw env a w e w' :
  upsertPartnerEarnings env a w = (Throw e, w') ->
  partner_earnings (db w') = partner_earnings (db w)
  /\ partners (db w') = partners (db w)
  /\ (upsert_parameters a = Throw e
      \/ exists v, upsert_parameters a = Ok v
                   /\ references_partner v (db w) = false /\ e = QueryError).
Proof.
  unfold upsertPartnerEarnings, try_catch, upsert_parameters.
  rewrite (bind_ok _ _ _ _ _ (ensureV2Tables_run w)).
  unfold bind at 1, lift at 1.
  destruct (Number_or_zero (commissionRate a)) as [rate|e1]; simpl.
  2:{ unfold bind, console_error, emit, throw. simpl. intros [= <- <-].
      simpl. auto. }
  unfold bind at 1, lift at 1.
  destruct (Number_or_zero (netRevenue a)) as [net|e1]; simpl.
  2:{ unfold bind, console_error, emit, throw. simpl. intros [= <- <-].
      simpl. auto. }
  unfold bind at 1, lift at 1.
  destruct (Number_or_zero (grossRevenue a)) as [gross|e1]; simpl.
  2:{ unfold bind, console_error, emit, throw. simpl. intros [= <- <-].
      simpl. auto. }
  destruct pool_query_insert as [[row0|e0] w0] eqn:E; [discriminate|].
  unfold bind, console_error, emit, throw. simpl. intros [= <- <-]. simpl.
  apply insert_throw in E as (-> & Hrows & Hp & Ht & Hv).
  simpl in *. split_and!; [done|done|].
  destruct bind_parameters as [v|]; [right; eauto | by left].
Qed.

Lemma bind_parameters_inv a b c g n r x s v :
  bind_parameters a b c g n r x s = Some v ->
  numeric_in 12 2 g = Some (new_gross_revenue v)
  /\ numeric_in 12 2 n = Some (new_net_revenue v)
  /\ numeric_in 5 4 r = Some (new_commission_rate v)
  /\ numeric_in 12 2 x = Some (new_commission_amount v)
  /\ new_source v = s.
Proof.
  unfold bind_parameters. intros Hv.
  repeat match type of Hv with
         | mbind _ ?o = Some _ =>
             let E := fresh "E" in destruct o eqn:E; simpl in Hv; [|discriminate]
         end.
  injection Hv as <-. done.
Qed.

Lemma bind_parameters_partner a b c g n r x s v :
  bind_parameters a b c g n r x s = Some v ->
  is_null a = false -> new_partner_id v <> None.
Proof.
  unfold bind_parameters. intros Hv Ha. rewrite Ha in Hv.
  destruct (int4_in a) as [p|]; simpl in Hv; [|discriminate].
  repeat match type of Hv with
         | mbind _ ?o = Some _ =>
             let E := fresh "E" in destruct o eqn:E; simpl in Hv; [|discriminate]
         end.
  injection Hv as <-. done.
Qed.

Lemma upsert_parameters_inv a v :
  upsert_parameters a = Ok v ->
  exists rate net gross,
    Number_or_zero (commissionRate a) = Ok rate
    /\ Number_or_zero (netRevenue a) = Ok net
    /\ Number_or_zero (grossRevenue a) = Ok gross
    /\ bind_parameters (partnerId a) (arg_period a) (arg_currency a)
         gross net rate (num_mul net rate) "manual_test" = Some v.
Proof.
  unfold upsert_parameters.
  destruct (Number_or_zero (commissionRate a)) as [rate|]; [|discriminate].
  destruct (Number_or_zero (netRevenue a)) as [net|]; [|discriminate].
  destruct (Number_or_zero (grossRevenue a)) as [gross|]; [|discriminate].
  simpl. destruct bind_parameters as [v'|] eqn:E; [|discriminate].
  intros [= <-]. eauto 10.
Qed.

(** The row the statement returns carries the proposed values. *)
Definition carries (v : proposed) (row : earning) : Prop :=
  gross_revenue row = new_gross_revenue v
  /\ net_revenue row = new_net_revenue v
  /\ commission_rate row = new_commission_rate v
  /\ commission_amount row = new_commission_amount v
  /\ source row = Some (new_source v).

Lemma do_update_carries v r : carries v (do_update v r).
Proof. by repeat split. Qed.

Lemma inserted_carries v nextval now : carries v (inserted v nextval now).
Proof. by repeat split. Qed.

Lemma find_conflict_elem v rows r :
  List.find (conflicts v) rows = Some r -> r ∈ rows /\ conflicts v r = true.
Proof.
  intros Hf. apply find_some in Hf as [Hin Hc]. by rewrite list_elem_of_In.
Qed.

Lemma insert_on_conflict_returned v nextval now rows row rows' :
  insert_on_conflict v nextval now rows = (row, rows') ->
  carries v row /\ row ∈ rows'.
Proof.
  unfold insert_on_conflict. destruct (List.find _ rows) as [r|] eqn:E.
  - intros [= <- <-]. split; [apply do_update_carries|].
    apply find_conflict_elem in E as [Hin Hc].
    apply list_elem_of_fmap. exists r. by rewrite Hc.
  - intros [= <- <-]. split; [apply inserted_carries|].
    apply elem_of_app. right. by apply list_elem_of_singleton.
Qed.

Lemma insert_on_conflict_rows v nextval now rows row rows' r :
  insert_on_conflict v nextval now rows = (row, rows') ->
  r ∈ rows' -> r ∈ rows \/ carries v r.
Proof.
  unfold insert_on_conflict. destruct (List.find _ rows) as [r0|] eqn:E.
  - intros [= <- <-] (x & -> & Hx)%list_elem_of_fmap.
    destruct (conflicts v x); [right; apply do_update_carries | by left].
  - intros [= <- <-] [Hr|Hr]%elem_of_app; [by left|].
    apply list_elem_of_singleton in Hr as ->. right. apply inserted_carries.
Qed.

(** *** The ledger after an upsert *)

Definition old_or_manual_test (w w' : world) : Prop :=
  forall r, r ∈ partner_earnings (db w') ->
    r ∈ partner_earnings (db w) \/ source r = Some "manual_test".

Lemma old_or_manual_test_insert env a b c g n r x :
  stable old_or_manual_test (pool_query_insert env a b c g n r x "manual_test").
Proof.
  intros w row Hrow.
  destruct (pool_query_insert env a b c g n r x "manual_test" w)
    as [[row0|e] w'] eqn:E; simpl in Hrow.
  - apply insert_ok in E as (v & Hv & _ & Hins & _).
    apply bind_parameters_inv in Hv as (_ & _ & _ & _ & Hs).
    eapply insert_on_conflict_rows in Hins as [Hold|Hc]; [by left| |done].
    right. destruct Hc as (_ & _ & _ & _ & ->). by rewrite Hs.
  - apply insert_throw in E as (_ & Hrows & _). left. by rewrite <- Hrows.
Qed.

Lemma old_or_manual_test_stable {A} (m : M A) :
  (forall R, (forall w, R w w) ->
             (forall w1 w2 w3, R w1 w2 -> R w2 w3 -> R w1 w3) ->
             (forall w e, is_fetch e = false -> R w (logged w [e])) ->
             (forall env a b c g n r x,
                stable R (pool_query_insert env a b c g n r x "manual_test")) ->
             (forall w r, R w (logged w [Fetch r])) ->
             stable R m) ->
  stable old_or_manual_test m.
Proof.
  intros Hm. apply Hm.
  - intros w r Hr. by left.
  - intros w1 w2 w3 H12 H23 r Hr.
    destruct (H23 r Hr) as [Hr2|Hs]; [|by right]. by apply H12.
  - intros w e _ r Hr. by left.
  - apply old_or_manual_test_insert.
  - intros w e r Hr. by left.
Qed.

(** C10. Every row [upsertPartnerEarnings] returns has the source tag
    [manual_test] and is in the ledger afterwards; whether the call
    returns or throws, and whatever the Tapfiliate sync does, a row of
    the ledger afterwards is a row that was there before or carries the
    source tag [manual_test]. *)
Theorem source_tag_is_manual_test env cfg :
  (forall a w,
      match upsertPartnerEarnings env a w with
      | (Ok row, w') =>
          source row = Some "manual_test" /\ row ∈ partner_earnings (db w')
      | (Throw _, w') => partner_earnings (db w') = partner_earnings (db w)
      end)
  /\ (forall a w, old_or_manual_test w (snd (upsertPartnerEarnings env a w)))
  /\ (forall periodYm w,
        old_or_manual_test w
          (snd (syncPartnerEarningsFromTapfiliate env cfg periodYm w))).
Proof.
  split_and!.
  - intros a w. destruct (upsertPartnerEarnings env a w) as [[row|e] w'] eqn:E.
    + apply upsert_ok in E as (v & now & Hv & _ & Hins & _).
      apply upsert_parameters_inv in Hv as (rate & net & gross & _ & _ & _ & Hv).
      apply bind_parameters_inv in Hv as (_ & _ & _ & _ & Hs).
      apply insert_on_conflict_returned in Hins as [(_ & _ & _ & _ & Hsrc) Hin].
      split; [by rewrite Hsrc, Hs | done].
    + by apply upsert_throw in E as (Hrows & _).
  - intros a. apply old_or_manual_test_stable. intros R ? ? ? ? ?.
    by apply stable_upsertPartnerEarnings.
  - intros periodYm. apply old_or_manual_test_stable. intros R ? ? ? ? ?.
    by apply stable_sync.
Qed.



(** C8. A period that does not match [YYYY-MM] makes the job throw and
    leaves the world as it was: nothing is added to the trace (no query,
    no request, no console output) and the database is untouched. The
    error is the invalid-period error when the Tapfiliate key and program
    id are set, and the not-configured error otherwise, since that check
    comes first. *)
Theorem invalid_period_rejected_before_io env cfg periodYm w :
  period_format_ok periodYm = false ->
  syncPartnerEarningsFromTapfiliate env cfg periodYm w
  = (Throw (if unset (TAPFILIATE_API_KEY cfg) || unset (TAPFILIATE_PROGRAM_ID cfg)
            then ERR_NOT_CONFIGURED else ERR_INVALID_PERIOD), w).
Proof.
  intros Hp. unfold syncPartnerEarningsFromTapfiliate.
  destruct (_ || _); [done|]. by rewrite Hp.
Qed.

(** *** The pagination loop *)

(** The requests of a trace, in the order they were sent. *)
Definition requests (events : list event) : list request :=
  omap (fun e => match e with Fetch r => Some r | _ => None end) events.

Lemma requests_fetch r events : requests (Fetch r :: events) = r :: requests events.
Proof. reflexivity. Qed.

Lemma requests_app a b : requests (a ++ b) = requests a ++ requests b.
Proof. apply omap_app. Qed.

(** What the trace gained between two worlds. *)
Definition events_since (w w' : world) : list event :=
  drop (List.length (trace w)) (trace w').

Lemma events_since_logged w events : events_since w (logged w events) = events.
Proof. unfold events_since, logged. simpl. by rewrite drop_app_length. Qed.

(** The loop without the world: its outcome and the events it logs. *)
Fixpoint fetch_script env cfg (fromIso toIso : string) (remaining : nat)
    (page : Z) (allConversions : list value)
  : result (list value) * list event :=
  match remaining with
  | O => (Ok allConversions, [])
  | S remaining' =>
      let r := mk_request cfg fromIso toIso page in
      match fetch env r with
      | None => (Throw FetchRejected, [Fetch r])
      | Some res =>
          if negb (ok res) then
            (Throw ERR_FETCH_FAILED,
             [Fetch r; Console_error "Tapfiliate conversions fetch failed:"])
          else
            match default (VArr []) (json res) with
            | VArr [] => (Ok allConversions, [Fetch r])
            | VArr items =>
                if (Z.of_nat (List.length items) <? 50)%Z
                then (Ok (allConversions ++ items), [Fetch r])
                else
                  let '(out, events) :=
                    fetch_script env cfg fromIso toIso remaining' (page + 1)
                      (allConversions ++ items) in
                  (out, Fetch r :: events)
            | _ => (Ok allConversions, [Fetch r])
            end
      end
  end.

Lemma fetch_pages_run env cfg fromIso toIso remaining :
  forall page acc w,
    fetch_pages env cfg fromIso toIso remaining page acc w
    = (fst (fetch_script env cfg fromIso toIso remaining page acc),
       logged w (snd (fetch_script env cfg fromIso toIso remaining page acc))).
Proof.
  induction remaining as [|n IH]; intros page acc w; simpl.
  - by rewrite logged_nil.
  - unfold bind at 1, do_fetch.
    destruct (fetch env (mk_request cfg fromIso toIso page)) as [res|]; [|done].
    destruct (negb (ok res)).
    { unfold bind, console_error, emit, throw, logged. simpl.
      by rewrite <- app_assoc. }
    destruct (default (VArr []) (json res)) as [| | | | |items| |]; try done.
    destruct items as [|x items]; [done|].
    destruct (_ <? _)%Z; [done|].
    rewrite IH.
    destruct (fetch_script env cfg fromIso toIso n (page + 1) (acc ++ x :: items))
      as [out events].
    simpl. unfold logged. simpl. by rewrite <- app_assoc.
Qed.

(** A page that lets the loop go on: a successful response whose body is
    an array of at least 50 records. *)
Definition full_page env (r : request) : Prop :=
  exists res items,
    fetch env r = Some res /\ ok res = true
    /\ json res = Some (VArr items) /\ (50 <= List.length items)%nat.

Lemma fetch_script_requests env cfg fromIso toIso remaining :
  forall first acc,
    let events := snd (fetch_script env cfg fromIso toIso remaining first acc) in
    (List.length (requests events) <= remaining)%nat
    /\ page <$> requests events
       = seqZ first (Z.of_nat (List.length (requests events)))
    /\ (forall i r, requests events !! i = Some r ->
         (S i < List.length (requests events))%nat -> full_page env r)
    /\ (Query INSERT_partner_earnings ∉ events)
    /\ (forall r res, r ∈ requests events -> fetch env r = Some res ->
         ok res = false ->
         fst (fetch_script env cfg fromIso toIso remaining first acc)
         = Throw ERR_FETCH_FAILED).
Proof.
  induction remaining as [|n IH]; intros first acc; simpl.
  { split_and!; [lia|done| |by intros ?%elem_of_nil|by intros ? ? ?%elem_of_nil].
    by intros i r ?. }
  set (r0 := mk_request cfg fromIso toIso first).
  assert (Hone : forall more (out : result (list value)),
            Query INSERT_partner_earnings ∉ more -> requests more = [] ->
            (forall res, fetch env r0 = Some res -> ok res = false ->
                         out = Throw ERR_FETCH_FAILED) ->
            (List.length (requests (Fetch r0 :: more)) <= S n)%nat
            /\ page <$> requests (Fetch r0 :: more)
               = seqZ first (Z.of_nat (List.length (requests (Fetch r0 :: more))))
            /\ (forall i r, requests (Fetch r0 :: more) !! i = Some r ->
                 (S i < List.length (requests (Fetch r0 :: more)))%nat ->
                 full_page env r)
            /\ (Query INSERT_partner_earnings ∉ Fetch r0 :: more)
            /\ (forall r res, r ∈ requests (Fetch r0 :: more) ->
                 fetch env r = Some res -> ok res = false ->
                 out = Throw ERR_FETCH_FAILED)).
  { intros more out Hq Hreq Hout. rewrite requests_fetch, Hreq. simpl.
    split_and!; [lia|done| | |].
    - intros i r _ Hi. lia.
    - intros [?|?]%elem_of_cons; [discriminate|done].
    - intros r res ->%list_elem_of_singleton. apply Hout. }
  destruct (fetch env r0) as [res|] eqn:Hres.
  2:{ refine (Hone [] _ _ _ _); [by intros ?%elem_of_nil|done|done]. }
  destruct (negb (ok res)) eqn:Hok.
  { refine (Hone [_] _ _ _ _); [|done|done].
    intros [?|?%elem_of_nil]%elem_of_cons; [discriminate|done]. }
  apply negb_false_iff in Hok.
  assert (Hlast : forall out : result (list value),
            forall res', Some res = Some res' -> ok res' = false ->
                         out = Throw ERR_FETCH_FAILED).
  { intros out res' [= <-] Hno. congruence. }
  destruct (default (VArr []) (json res)) as [| | | | |items| |] eqn:Hjson;
    try (refine (Hone [] _ _ _ _); [by intros ?%elem_of_nil|done|apply Hlast]).
  destruct items as [|x items];
    try (refine (Hone [] _ _ _ _); [by intros ?%elem_of_nil|done|apply Hlast]).
  destruct (_ <? _)%Z eqn:Hlen;
    try (refine (Hone [] _ _ _ _); [by intros ?%elem_of_nil|done|apply Hlast]).
  specialize (IH (first + 1)%Z (acc ++ x :: items)).
  destruct (fetch_script env cfg fromIso toIso n (first + 1) (acc ++ x :: items))
    as [out events].
  simpl in *. destruct IH as (Hn & Hpages & Hfull & Hq & Hfail).
  clear Hone. split_and!.
  - lia.
  - change (first :: (page <$> requests events)
            = seqZ first (Z.of_nat (S (List.length (requests events))))).
    rewrite Hpages.
    rewrite (seqZ_cons first); [|lia].
    f_equal. f_equal; lia.
  - intros [|i] r Hr Hi; simpl in *.
    + injection Hr as <-. exists res, (x :: items).
      split_and!; [done|done| |].
      * destruct (json res) as [v|]; simpl in Hjson; [by subst|discriminate].
      * apply Z.ltb_ge in Hlen. simpl in *. lia.
    + apply (Hfull i r Hr). lia.
  - intros [?|?]%elem_of_cons; [discriminate|done].
  - intros r res' [->|Hin]%elem_of_cons Hr Hno.
    + rewrite Hres in Hr. injection Hr as <-. congruence.
    + by eapply Hfail.
Qed.

(** *** The job in phases *)

(** The [from] and [to] parameters of the requests of a period. *)
Definition fromIso_of (periodYm : string) : string :=
  utc_month_start_iso
    (StringToNumber (nth 0 (split_hyphen periodYm) ""))
    (num_sub (StringToNumber (nth 1 (split_hyphen periodYm) "")) (of_Z 1)).

Definition toIso_of (periodYm : string) : string :=
  utc_month_start_iso
    (StringToNumber (nth 0 (split_hyphen periodYm) ""))
    (StringToNumber (nth 1 (split_hyphen periodYm) "")).

Definition configured cfg : bool :=
  negb (unset (TAPFILIATE_API_KEY cfg) || unset (TAPFILIATE_PROGRAM_ID cfg)).

Definition prelude_events : list event := ddl_events ++ [Query SELECT_partners].

Lemma sync_run env cfg periodYm w :
  configured cfg = true -> period_format_ok periodYm = true ->
  syncPartnerEarningsFromTapfiliate env cfg periodYm w
  = let w1 := logged w prelude_events in
    let affiliateToPartner := affiliate_map (linked_partners (db w)) in
    if (List.length affiliateToPartner =? 0)%nat then
      (Ok {| summary_period := periodYm; totals := [];
             note := Some "No partners with tapfiliate_affiliate_id found." |},
       w1)
    else
      match fetch_script env cfg (fromIso_of periodYm) (toIso_of periodYm) 5 1 [] with
      | (Ok allConversions, events) =>
          settle_conversions env cfg periodYm affiliateToPartner allConversions
            (logged w1 events)
      | (Throw e, events) => (Throw e, logged w1 events)
      end.
Proof.
  unfold configured, syncPartnerEarningsFromTapfiliate.
  intros ->%negb_true_iff ->. cbn [negb].
  rewrite (bind_ok _ _ _ _ _ (ensureV2Tables_run w)).
  rewrite (bind_ok _ _ _ _ _ (select_partners_run _)).
  rewrite logged_logged. cbn [db logged].
  fold prelude_events (fromIso_of periodYm) (toIso_of periodYm).
  cbv zeta.
  destruct (_ =? _)%nat; [done|].
  unfold bind. rewrite fetch_pages_run.
  fold (logged w prelude_events).
  by destruct fetch_script as [[convs|e] events].
Qed.

(** A computation that sends no request and leaves [partners] alone. *)
Definition no_request (w w' : world) : Prop :=
  partners (db w') = partners (db w)
  /\ exists new, trace w' = trace w ++ new /\ requests new = [].

Lemma no_request_refl w : no_request w w.
Proof. split; [done|]. exists []. by rewrite app_nil_r. Qed.

Lemma no_request_trans w1 w2 w3 :
  no_request w1 w2 -> no_request w2 w3 -> no_request w1 w3.
Proof.
  intros [Hp1 (a & Ha & Hra)] [Hp2 (b & Hb & Hrb)]. split; [congruence|].
  exists (a ++ b). rewrite Hb, Ha, <- app_assoc, requests_app, Hra, Hrb. done.
Qed.

Lemma no_request_emit w e : is_fetch e = false -> no_request w (logged w [e]).
Proof. intros He. split; [done|]. exists [e]. by destruct e. Qed.

Lemma no_request_insert env a b c g n r x :
  stable no_request (pool_query_insert env a b c g n r x "manual_test").
Proof.
  intros w.
  destruct (pool_query_insert env a b c g n r x "manual_test" w)
    as [[row|e] w'] eqn:E; simpl.
  - apply insert_ok in E as (v & _ & _ & _ & Hp & Ht). split; [done|].
    by exists [Query INSERT_partner_earnings].
  - apply insert_throw in E as (_ & _ & Hp & Ht & _). split; [done|].
    by exists [Query INSERT_partner_earnings].
Qed.

Lemma settle_no_request env cfg periodYm a2p convs w :
  no_request w (snd (settle_conversions env cfg periodYm a2p convs w)).
Proof.
  apply (stable_settle_conversions no_request no_request_refl
           no_request_trans no_request_emit no_request_insert).
Qed.

Lemma events_since_app w w' new :
  trace w' = trace w ++ new -> events_since w w' = new.
Proof. unfold events_since. intros ->. by rewrite drop_app_length. Qed.

(** The four ways a run can go: rejected at once; no linked partner;
    the fetch loop throws; the fetched conversions are settled. *)
Lemma sync_cases env cfg periodYm w :
  let run := syncPartnerEarningsFromTapfiliate env cfg periodYm w in
  let script :=
    fetch_script env cfg (fromIso_of periodYm) (toIso_of periodYm) 5 1 [] in
  (snd run = w /\ exists e, fst run = Throw e)
  \/ (snd run = logged w prelude_events /\ exists s, fst run = Ok s)
  \/ (snd run = logged w (prelude_events ++ snd script)
      /\ exists e, fst script = Throw e /\ fst run = Throw e)
  \/ (exists allConversions new,
        fst script = Ok allConversions
        /\ run = settle_conversions env cfg periodYm
                   (affiliate_map (linked_partners (db w))) allConversions
                   (logged w (prelude_events ++ snd script))
        /\ trace (snd run) = trace w ++ prelude_events ++ snd script ++ new
        /\ requests new = []).
Proof.
  intros run script. subst run.
  destruct (configured cfg) eqn:Hc.
  2:{ left. unfold syncPartnerEarningsFromTapfiliate, configured in *.
      apply negb_false_iff in Hc. rewrite Hc. simpl. eauto. }
  destruct (period_format_ok periodYm) eqn:Hp.
  2:{ left. unfold syncPartnerEarningsFromTapfiliate, configured in *.
      apply negb_true_iff in Hc. rewrite Hc, Hp. simpl. eauto. }
  right. rewrite sync_run by done. cbv zeta.
  destruct (_ =? _)%nat; [left; simpl; eauto|]. right.
  fold script. destruct script as [[convs|e] events] eqn:Hs.
  - right. exists convs.
    destruct (settle_no_request env cfg periodYm
                (affiliate_map (linked_partners (db w))) convs
                (logged (logged w prelude_events) events))
      as [_ (new & Hnew & Hreq)].
    exists new. rewrite logged_logged in *. simpl in *.
    split_and!; [done|done| |done].
    rewrite Hnew. by rewrite <- !app_assoc.
  - left. simpl. rewrite logged_logged. eauto.
Qed.

Lemma requests_prelude : requests prelude_events = [].
Proof. reflexivity. Qed.

Lemma events_since_self w : events_since w w = [].
Proof. unfold events_since. by rewrite drop_all. Qed.

(** C7. Whatever the external service answers, a run of the job sends at
    most 5 page requests, for the pages 1, 2, 3, ... in this order, and
    every request but the last one sent was answered by a successful
    response carrying an array of at least 50 records: the loop stops at
    the first page with fewer records, and after page 5 in any case. The
    job is a total function of the service's answers, so the run ends. *)
Theorem pagination_bounded env cfg periodYm w :
  let sent :=
    requests (events_since w
                (snd (syncPartnerEarningsFromTapfiliate env cfg periodYm w))) in
  (List.length sent <= 5)%nat
  /\ page <$> sent = seqZ 1 (Z.of_nat (List.length sent))
  /\ (forall i r, sent !! i = Some r -> (S i < List.length sent)%nat ->
       full_page env r).
Proof.
  pose proof (fetch_script_requests env cfg (fromIso_of periodYm)
                (toIso_of periodYm) 5 1 []) as (Hn & Hpages & Hfull & _).
  cbv zeta in *.
  destruct (sync_cases env cfg periodYm w)
    as [[-> _]|[[-> _]|[[-> _]|(convs & new & _ & _ & Ht & Hnew)]]]; cbv zeta.
  - rewrite events_since_self. simpl. split_and!; [lia|done|]. by intros i r ?.
  - rewrite events_since_logged, requests_prelude. simpl.
    split_and!; [lia|done|]. by intros i r ?.
  - by rewrite events_since_logged, requests_app, requests_prelude.
  - rewrite (events_since_app _ _ _ Ht), !requests_app, requests_prelude, Hnew.
    by rewrite app_nil_r.
Qed.

(** C2. If a page request sent during a run was answered by a response
    that is not successful, the run throws the fetch error, the ledger
    is what it was before the run, and no INSERT was issued. *)
Theorem failed_page_aborts env cfg periodYm w r res :
  let run := syncPartnerEarningsFromTapfiliate env cfg periodYm w in
  Fetch r ∈ events_since w (snd run) ->
  fetch env r = Some res ->
  ok res = false ->
  fst run = Throw ERR_FETCH_FAILED
  /\ partner_earnings (db (snd run)) = partner_earnings (db w)
  /\ (Query INSERT_partner_earnings ∉ events_since w (snd run)).
Proof.
  pose proof (fetch_script_requests env cfg (fromIso_of periodYm)
                (toIso_of periodYm) 5 1 []) as (_ & _ & _ & Hq & Hfail).
  cbv zeta in *. intros Hin Hres Hok.
  assert (Hsent : forall events, Fetch r ∈ events -> r ∈ requests events).
  { intros events He. apply list_elem_of_omap. by exists (Fetch r). }
  destruct (sync_cases env cfg periodYm w)
    as [[Hw _]|[[Hw _]|[[Hw (e & He & Hout)]|(convs & new & Hs & _ & Ht & Hnew)]]];
    cbv zeta in *.
  - rewrite Hw, events_since_self in Hin. by apply elem_of_nil in Hin.
  - rewrite Hw, events_since_logged in Hin. apply Hsent in Hin.
    rewrite requests_prelude in Hin. by apply elem_of_nil in Hin.
  - rewrite Hw, events_since_logged in *.
    apply Hsent in Hin. rewrite requests_app, requests_prelude in Hin.
    simpl in Hin. rewrite (Hfail r res Hin Hres Hok) in He.
    injection He as <-. split_and!; [done|done|].
    intros [Hpre|Hscript]%elem_of_app; [|done].
    unfold prelude_events, ddl_events in Hpre. simpl in Hpre.
    repeat (apply elem_of_cons in Hpre as [?|Hpre]; [discriminate|]).
    by apply elem_of_nil in Hpre.
  - rewrite (events_since_app _ _ _ Ht) in Hin.
    apply Hsent in Hin.
    rewrite !requests_app, requests_prelude, Hnew, app_nil_r in Hin.
    simpl in Hin. rewrite (Hfail r res Hin Hres Hok) in Hs. discriminate.
Qed.

(** [reaches ... page acc]: the loop gets to [page] with [acc] in
    [allConversions], every earlier page having been a full one. *)
Inductive reaches env cfg (fromIso toIso : string) : Z -> list value -> Prop :=
| reaches_first : reaches env cfg fromIso toIso 1 []
| reaches_next current acc res items :
    reaches env cfg fromIso toIso current acc ->
    fetch env (mk_request cfg fromIso toIso current) = Some res ->
    ok res = true ->
    json res = Some (VArr items) ->
    (50 <= List.length items)%nat ->
    reaches env cfg fromIso toIso (current + 1) (acc ++ items).

Lemma reaches_script env cfg fromIso toIso current acc :
  reaches env cfg fromIso toIso current acc ->
  exists (k : nat) (sent : list event),
    Z.of_nat k = (current - 1)%Z
    /\ List.length (requests sent) = k
    /\ forall n,
        fetch_script env cfg fromIso toIso (k + n) 1 []
        = (fst (fetch_script env cfg fromIso toIso n current acc),
           sent ++ snd (fetch_script env cfg fromIso toIso n current acc)).
Proof.
  induction 1 as [|current acc res items _ (k & sent & Hk & Hsent & IH) Hres Hok Hjson Hlen].
  - exists 0%nat, []. split_and!; [done|done|]. intros n. simpl.
    by destruct fetch_script.
  - exists (S k), (sent ++ [Fetch (mk_request cfg fromIso toIso current)]).
    split_and!; [lia| |].
    { rewrite requests_app, length_app, Hsent. simpl. lia. }
    intros n. replace (S k + n)%nat with (k + S n)%nat by lia.
    rewrite IH. simpl. rewrite Hres, Hok, Hjson. simpl.
    destruct items as [|x items]; [simpl in Hlen; lia|].
    assert ((Z.of_nat (List.length (x :: items)) <? 50)%Z = false) as ->.
    { apply Z.ltb_ge. lia. }
    destruct fetch_script as [out events]. simpl. by rewrite <- app_assoc.
Qed.

Definition not_an_array (body : option value) : Prop :=
  match body with
  | Some (VArr _) => False
  | _ => True
  end.

(** C9. When the loop gets to a page (within the first 5) whose response
    is successful but whose body does not parse as JSON or is not an
    array, it stops there without an error, with the conversions of the
    earlier pages, and the job goes on to settle exactly those. *)
Theorem unreadable_page_ends_pagination env cfg periodYm w current acc res :
  let fromIso := fromIso_of periodYm in
  let toIso := toIso_of periodYm in
  let affiliateToPartner := affiliate_map (linked_partners (db w)) in
  configured cfg = true ->
  period_format_ok periodYm = true ->
  affiliateToPartner <> [] ->
  reaches env cfg fromIso toIso current acc ->
  (current <= 5)%Z ->
  fetch env (mk_request cfg fromIso toIso current) = Some res ->
  ok res = true ->
  not_an_array (json res) ->
  exists w1,
    fetch_pages env cfg fromIso toIso 5 1 [] (logged w prelude_events)
    = (Ok acc, w1)
    /\ db w1 = db w
    /\ Z.of_nat (List.length (requests (events_since w w1))) = current
    /\ syncPartnerEarningsFromTapfiliate env cfg periodYm w
       = settle_conversions env cfg periodYm affiliateToPartner acc w1.
Proof.
  intros fromIso toIso a2p Hc Hp Ha2p Hreach Hle Hres Hok Hbody.
  destruct (reaches_script _ _ _ _ _ _ Hreach) as (k & sent & Hk & Hsent & Hrun).
  assert (exists n, (5 = k + S n)%nat) as [n Hn] by (exists (5 - k - 1)%nat; lia).
  assert (Hlast : fetch_script env cfg fromIso toIso (S n) current acc
                  = (Ok acc, [Fetch (mk_request cfg fromIso toIso current)])).
  { simpl. rewrite Hres, Hok. simpl.
    destruct (json res) as [[]|]; simpl in *; done. }
  assert (Hscript : fetch_script env cfg fromIso toIso 5 1 []
                    = (Ok acc, sent ++ [Fetch (mk_request cfg fromIso toIso current)])).
  { rewrite Hn, Hrun, Hlast. done. }
  eexists. split_and!.
  - rewrite fetch_pages_run, Hscript. simpl. reflexivity.
  - done.
  - rewrite logged_logged, events_since_logged, !requests_app, requests_prelude.
    rewrite !length_app, Hsent. simpl. lia.
  - rewrite sync_run by done. cbv zeta. fold a2p fromIso toIso.
    destruct (List.length a2p =? 0)%nat eqn:Hlen.
    { apply Nat.eqb_eq in Hlen. by destruct a2p. }
    by rewrite Hscript.
Qed.

(** *** Upserting the same rows again *)

(** What [DO UPDATE] does to one row of the table. *)
Definition overwrite (v : proposed) (x : earning) : earning :=
  if conflicts v x then do_update v x else x.

Lemma insert_on_conflict_cases v nextval now rows row rows' :
  insert_on_conflict v nextval now rows = (row, rows') ->
  (exists r0, r0 ∈ rows /\ conflicts v r0 = true /\ rows' = overwrite v <$> rows)
  \/ ((forall r, r ∈ rows -> conflicts v r = false)
      /\ rows' = rows ++ [inserted v nextval now]).
Proof.
  unfold insert_on_conflict. destruct (List.find _ rows) as [r0|] eqn:E.
  - intros [= <- <-]. left. apply find_conflict_elem in E as [Hin Hc]. eauto.
  - intros [= <- <-]. right. split; [|done].
    intros r Hr%list_elem_of_In. by apply (find_none _ _ E).
Qed.

Lemma conflicts_do_update v v' r : conflicts v (do_update v' r) = conflicts v r.
Proof. reflexivity. Qed.

Lemma conflicts_overwrite v v' r : conflicts v (overwrite v' r) = conflicts v r.
Proof. unfold overwrite. by destruct (conflicts v' r). Qed.

Lemma conflicts_inserted v nextval now :
  new_partner_id v <> None -> conflicts v (inserted v nextval now) = true.
Proof.
  unfold conflicts, index_key. simpl. destruct (new_partner_id v); [|done].
  intros _. by apply bool_decide_eq_true.
Qed.

(** A chain of executed statements, each proposing a row with a partner,
    from one table to another. The sequence value and the time of each
    statement are whatever they were. *)
Inductive upserted : list proposed -> list earning -> list earning -> Prop :=
| upserted_nil rows : upserted [] rows rows
| upserted_cons v vs nextval now rows row rows1 rows2 :
    new_partner_id v <> None ->
    insert_on_conflict v nextval now rows = (row, rows1) ->
    upserted vs rows1 rows2 ->
    upserted (v :: vs) rows rows2.

Definition present (v : proposed) (rows : list earning) : Prop :=
  exists r, r ∈ rows /\ conflicts v r = true.

Lemma present_step v v' nextval now rows row rows' :
  insert_on_conflict v' nextval now rows = (row, rows') ->
  present v rows -> present v rows'.
Proof.
  intros [(_ & _ & _ & ->)|(_ & ->)]%insert_on_conflict_cases (r & Hr & Hc).
  - exists (overwrite v' r). split; [by apply list_elem_of_fmap_2|].
    by rewrite conflicts_overwrite.
  - exists r. split; [|done]. apply elem_of_app. by left.
Qed.

Lemma present_after v nextval now rows row rows' :
  new_partner_id v <> None ->
  insert_on_conflict v nextval now rows = (row, rows') -> present v rows'.
Proof.
  intros Hp [(r0 & Hr0 & Hc & ->)|(_ & ->)]%insert_on_conflict_cases.
  - exists (overwrite v r0). split; [by apply list_elem_of_fmap_2|].
    by rewrite conflicts_overwrite.
  - exists (inserted v nextval now). split; [|by apply conflicts_inserted].
    apply elem_of_app. right. by apply list_elem_of_singleton.
Qed.

Lemma upserted_present_mono vs a b v :
  upserted vs a b -> present v a -> present v b.
Proof. induction 1; eauto using present_step. Qed.

Lemma upserted_present vs a b :
  upserted vs a b -> forall v, v ∈ vs -> present v b.
Proof.
  induction 1 as [|v vs nextval now rows row rows1 rows2 Hp Hins Hrest IH];
    intros v0 Hv0.
  - by apply elem_of_nil in Hv0.
  - apply elem_of_cons in Hv0 as [->|Hv0]; [|by apply IH].
    eapply upserted_present_mono; [done|]. by eapply present_after.
Qed.

(** A row after all the updates of a chain have been applied to it. *)
Definition final (vs : list proposed) (r : earning) : earning :=
  foldl (fun x v => overwrite v x) r vs.

Lemma conflicts_final v vs r : conflicts v (final vs r) = conflicts v r.
Proof.
  revert r. induction vs as [|v' vs IH]; intros r; simpl; [done|].
  unfold final in *. by rewrite IH, conflicts_overwrite.
Qed.

Lemma upserted_all_present vs a b :
  upserted vs a b -> (forall v, v ∈ vs -> present v a) -> b = final vs <$> a.
Proof.
  induction 1 as [rows|v vs nextval now rows row rows1 rows2 Hp Hins Hrest IH];
    intros Hall.
  - unfold final. simpl. by rewrite list_fmap_id.
  - assert (Hv : present v rows) by (apply Hall; by left).
    destruct (insert_on_conflict_cases _ _ _ _ _ _ Hins)
      as [(_ & _ & _ & ->)|(Hnone & _)].
    2:{ destruct Hv as (r & Hr & Hc). by rewrite (Hnone r Hr) in Hc. }
    rewrite IH.
    + rewrite <- list_fmap_compose. done.
    + intros v0 Hv0. eapply present_step; [done|]. apply Hall. by right.
Qed.

Lemma upserted_untouched vs a b r :
  upserted vs a b -> r ∈ b ->
  (forall v, v ∈ vs -> conflicts v r = false) -> r ∈ a.
Proof.
  induction 1 as [rows|v vs nextval now rows row rows1 rows2 Hp Hins Hrest IH];
    intros Hr Hno; [done|].
  assert (Hr1 : r ∈ rows1) by (apply IH; [done|]; intros; apply Hno; by right).
  assert (Hv : conflicts v r = false) by (apply Hno; by left).
  destruct (insert_on_conflict_cases _ _ _ _ _ _ Hins)
    as [(_ & _ & _ & ->)|(_ & ->)].
  - apply list_elem_of_fmap in Hr1 as (x & -> & Hx).
    rewrite conflicts_overwrite in Hv. unfold overwrite. by rewrite Hv.
  - apply elem_of_app in Hr1 as [?|Hr1]; [done|].
    apply list_elem_of_singleton in Hr1 as ->.
    by rewrite conflicts_inserted in Hv.
Qed.

Lemma step_carries v nextval now rows row rows' r :
  insert_on_conflict v nextval now rows = (row, rows') ->
  r ∈ rows' -> conflicts v r = true -> carries v r.
Proof.
  intros [(_ & _ & _ & ->)|(Hnone & ->)]%insert_on_conflict_cases Hr Hc.
  - apply list_elem_of_fmap in Hr as (x & -> & Hx).
    rewrite conflicts_overwrite in Hc. unfold overwrite. rewrite Hc.
    apply do_update_carries.
  - apply elem_of_app in Hr as [Hr|Hr].
    + by rewrite (Hnone r Hr) in Hc.
    + apply list_elem_of_singleton in Hr as ->. apply inserted_carries.
Qed.

Lemma carries_do_update v r : carries v r -> do_update v r = r.
Proof.
  intros (Hg & Hn & Hr & Ha & Hs). destruct r. simpl in *.
  unfold do_update. simpl. congruence.
Qed.

(** Two rows that differ at most in the columns of the SET list. *)
Definition same_identity (x y : earning) : Prop :=
  id x = id y /\ partner_id x = partner_id y /\ period x = period y
  /\ currency x = currency y /\ created_at x = created_at y.

Lemma same_identity_conflicts v x y :
  same_identity x y -> conflicts v x = conflicts v y.
Proof.
  intros (_ & Hp & Hd & Hc & _). unfold conflicts, index_key.
  by rewrite Hp, Hd, Hc.
Qed.

Lemma same_identity_do_update v x y :
  same_identity x y -> do_update v x = do_update v y.
Proof.
  intros (Hi & Hp & Hd & Hc & Ht). unfold do_update. congruence.
Qed.

Lemma final_same_identity vs x y :
  same_identity x y ->
  (exists v, v ∈ vs /\ conflicts v x = true) ->
  final vs x = final vs y.
Proof.
  revert x y. induction vs as [|v vs IH]; intros x y Hxy (v0 & Hv0 & Hc).
  { by apply elem_of_nil in Hv0. }
  unfold final in *. simpl. unfold overwrite at 2 4.
  rewrite <- (same_identity_conflicts v x y Hxy).
  destruct (conflicts v x) eqn:Hvx.
  - by rewrite (same_identity_do_update v x y Hxy).
  - apply IH; [done|].
    apply elem_of_cons in Hv0 as [->|Hv0]; [congruence|eauto].
Qed.

Lemma final_no_conflict vs x :
  (forall v, v ∈ vs -> conflicts v x = false) -> final vs x = x.
Proof.
  induction vs as [|v vs IH]; intros Hno; [done|].
  unfold final in *. simpl. unfold overwrite at 2.
  rewrite (Hno v) by (by left). apply IH. intros v0 Hv0. apply Hno. by right.
Qed.

Lemma upserted_fixed vs a b :
  upserted vs a b -> forall r, r ∈ b -> final vs r = r.
Proof.
  induction 1 as [rows|v vs nextval now rows row rows1 rows2 Hp Hins Hrest IH];
    intros r Hr; [done|].
  change (final (v :: vs) r) with (final vs (overwrite v r)).
  unfold overwrite. destruct (conflicts v r) eqn:Hvr; [|by apply IH].
  destruct (existsb (fun v0 => conflicts v0 r) vs) eqn:Hlater.
  - apply existsb_exists in Hlater as (v0 & Hv0%list_elem_of_In & Hc).
    rewrite (final_same_identity vs (do_update v r) r); [by apply IH|done|].
    exists v0. by rewrite conflicts_do_update.
  - assert (Hno : forall v0, v0 ∈ vs -> conflicts v0 r = false).
    { intros v0 Hv0%list_elem_of_In.
      destruct (conflicts v0 r) eqn:Hc; [|done].
      assert (existsb (fun v1 => conflicts v1 r) vs = true); [|congruence].
      apply existsb_exists. eauto. }
    rewrite carries_do_update; [by apply IH|].
    eapply step_carries; [done| |done].
    by eapply upserted_untouched.
Qed.

(** Executing the same chain of statements a second time leaves the
    table as the first execution left it. *)
Lemma upserted_again vs a b c : upserted vs a b -> upserted vs b c -> c = b.
Proof.
  intros Hab Hbc.
  rewrite (upserted_all_present vs b c Hbc (upserted_present vs a b Hab)).
  rewrite <- (list_fmap_id b) at 2. apply list_fmap_ext.
  intros i r Hr. simpl. apply (upserted_fixed vs a b Hab).
  by eapply list_elem_of_lookup_2.
Qed.

(** *** What one conversion does *)

(** The three things the loop body reads from a conversion, and what it
    does to the bucket once all the guards have passed. *)
Definition affiliate_id_of (conv : value) : result value :=
  let! affiliate :=
    (let! a := get conv "affiliate" in
     js_or a (let! b := get conv "affiliate_program" in
     js_or b (let! c := get conv "affiliate_program_affiliate" in
     js_or c (Ok VNull)))) in
  js_and affiliate
    (let! a := get affiliate "id" in
     js_or a (let! b := get affiliate "affiliate" in
     js_or b (get affiliate "affiliate_id"))).

Definition gross_of (conv : value) : result num :=
  let! amount :=
    (let! a := get conv "amount" in
     js_or a (let! b := get conv "commission_amount" in
     js_or b (Ok (VNum (of_Z 0))))) in
  ToNumber amount.

Definition currency_of (conv : value) : result string :=
  let! currencyValue :=
    (let! a := get conv "currency" in
     js_or a (let! b := (let! c := get conv "commission" in
                         js_and c (get c "currency")) in
     js_or b (Ok (VStr "usd")))) in
  call_toLowerCase currencyValue.

Definition credit (bucket : list (string * bucket_entry)) (key : string)
    (partnerId : value) (currency : string) (gross net : num)
  : list (string * bucket_entry) :=
  let bucket1 :=
    match object_get bucket key with
    | Missing =>
        own_set bucket key
          {| bucket_partnerId := partnerId; bucket_currency := currency;
             bucket_gross := of_Z 0; bucket_net := of_Z 0 |}
    | _ => bucket
    end in
  match object_get bucket1 key with
  | Own e =>
      own_set bucket1 key
        {| bucket_partnerId := bucket_partnerId e;
           bucket_currency := bucket_currency e;
           bucket_gross := num_add (bucket_gross e) gross;
           bucket_net := num_add (bucket_net e) net |}
  | _ => bucket1
  end.

Lemma rbind_assoc {A B C} (r : result A) (f : A -> result B) (g : B -> result C) :
  rbind (rbind r f) g = rbind r (fun a => rbind (f a) g).
Proof. by destruct r. Qed.

Lemma aggregate_conversion_eq cfg a2p bucket conv :
  aggregate_conversion cfg a2p bucket conv
  = let! affiliateId := affiliate_id_of conv in
    if negb (truthy affiliateId) then Ok bucket else
    let! affiliateKey := ToString affiliateId in
    let partnerId := lookup_value (object_get a2p affiliateKey) in
    if negb (truthy partnerId) then Ok bucket else
    let! gross := gross_of conv in
    if negb (num_truthy gross) || Number_isNaN gross || num_le gross (of_Z 0)
    then Ok bucket else
    let! currency := currency_of conv in
    let! partnerKey := ToString partnerId in
    Ok (credit bucket (partnerKey +:+ ":" +:+ currency) partnerId currency
          gross (estimated_net cfg gross)).
Proof.
  unfold aggregate_conversion, affiliate_id_of, gross_of, currency_of, credit.
  rewrite !rbind_assoc.
  repeat match goal with
         | |- rbind ?r _ = rbind ?r _ =>
             destruct r; cbn [rbind]; [|reflexivity]
         | |- (if ?c then _ else _) = (if ?c then _ else _) =>
             destruct c; [reflexivity|]
         | |- context [rbind (rbind _ _) _] => rewrite !rbind_assoc
         end.
  cbv zeta. by destruct (object_get _ _).
Qed.

(** What the job skips. A conversion is left out of every bucket (the
    bucket comes back as it was, and the loop goes on) when the affiliate
    identifier read from it is falsy; when its string form is neither a
    key of the affiliate map nor the name of a member of
    [Object.prototype]; and when the amount read from it converts to
    zero, to NaN or to a number [<= 0]. *)
Lemma malformed_conversion_skipped cfg a2p bucket conv affiliateId :
  affiliate_id_of conv = Ok affiliateId ->
  truthy affiliateId = false
  \/ (exists key, ToString affiliateId = Ok key /\ object_get a2p key = Missing)
  \/ (exists key gross,
        ToString affiliateId = Ok key
        /\ gross_of conv = Ok gross
        /\ (num_truthy gross = false \/ Number_isNaN gross = true
            \/ num_le gross (of_Z 0) = true)) ->
  aggregate_conversion cfg a2p bucket conv = Ok bucket.
Proof.
  intros Hid Hwhy. rewrite aggregate_conversion_eq, Hid. cbn [rbind].
  destruct (truthy affiliateId) eqn:Ht; cbn [negb]; [|done].
  destruct Hwhy as [?|[(key & Hkey & Hmiss)|(key & gross & Hkey & Hg & Hbad)]];
    [done| |]; rewrite Hkey; cbn [rbind]; cbv zeta.
  - by rewrite Hmiss.
  - destruct (negb (truthy _)); [done|]. rewrite Hg. cbn [rbind].
    destruct Hbad as [Hbad|[Hbad|Hbad]]; rewrite Hbad; cbn [negb orb]; [done| |].
    + by destruct (negb (num_truthy gross)).
    + by destruct (negb (num_truthy gross)), (Number_isNaN gross).
Qed.

(** A key of the affiliate map is the affiliate id of a linked partner. *)
Lemma own_property_own_set {A} (props : list (string * A)) key a name :
  own_property (own_set props key a) name
  = if String.eqb key name then Some a else own_property props name.
Proof.
  induction props as [|[k x] props IH]; simpl.
  - by destruct (String.eqb key name).
  - destruct (String.eqb k key) eqn:E; simpl.
    + apply String.eqb_eq in E as ->. by destruct (String.eqb key name).
    + rewrite IH. destruct (String.eqb k name) eqn:E1; [|done].
      apply String.eqb_eq in E1 as ->.
      destruct (String.eqb key name) eqn:E2; [|done].
      apply String.eqb_eq in E2 as ->. by rewrite String.eqb_refl in E.
Qed.

Lemma affiliate_map_key rows key row_id :
  own_property (affiliate_map rows) key = Some row_id -> (row_id, key) ∈ rows.
Proof.
  unfold affiliate_map.
  assert (Hgen : forall acc,
            own_property
              (fold_left
                 (fun affiliateToPartner row =>
                    let '(row_id, affiliate) := row in
                    if String.eqb affiliate "" then affiliateToPartner
                    else if String.eqb affiliate "__proto__" then affiliateToPartner
                    else own_set affiliateToPartner affiliate row_id)
                 rows acc) key = Some row_id ->
            own_property acc key = Some row_id \/ (row_id, key) ∈ rows).
  { induction rows as [|[i a] rows IH]; intros acc; simpl; [by left|].
    intros [Hacc|Hin]%IH; [|right; by right].
    destruct (String.eqb a ""); [by left|].
    destruct (String.eqb a "__proto__"); [by left|].
    rewrite own_property_own_set in Hacc.
    destruct (String.eqb a key) eqn:E; [|by left].
    apply String.eqb_eq in E as ->. injection Hacc as ->. right. by left. }
  intros [?|?]%Hgen; done.
Qed.

(** *** The entries of [bucket] *)

Lemma own_property_elem {A} (props : list (string * A)) key a :
  own_property props key = Some a -> (key, a) ∈ props.
Proof.
  induction props as [|[k x] props IH]; simpl; [done|].
  destruct (String.eqb k key) eqn:E.
  - apply String.eqb_eq in E as ->. intros [= ->]. by left.
  - intros Hrest. right. by apply IH.
Qed.

Lemma Forall_own_set {A} (P : string * A -> Prop) props key a :
  Forall P props -> (forall k, P (k, a)) -> Forall P (own_set props key a).
Proof.
  intros Hall Ha. induction Hall as [|[k x] props Hx Hall IH]; simpl.
  - by constructor.
  - destruct (String.eqb k key); constructor; auto.
Qed.

(** The partner of an entry passed the [!partnerId] test. *)
Definition entry_has_partner (entry : string * bucket_entry) : Prop :=
  truthy (bucket_partnerId entry.2) = true.

Lemma aggregate_conversion_partner cfg a2p bucket conv bucket' :
  Forall entry_has_partner bucket ->
  aggregate_conversion cfg a2p bucket conv = Ok bucket' ->
  Forall entry_has_partner bucket'.
Proof.
  intros Hall. unfold aggregate_conversion.
  repeat match goal with
         | |- rbind ?r _ = _ -> _ =>
             destruct r; cbn [rbind]; [|discriminate]
         | |- (if ?c then _ else _) = _ -> _ =>
             let E := fresh "E" in destruct c eqn:E; [by intros [= <-]|]
         end.
  apply negb_false_iff in E0.
  set (key := (_ +:+ ":" +:+ _)).
  set (fresh := {| bucket_partnerId := _ |}).
  assert (Hall1 : Forall entry_has_partner
                    (match object_get bucket key with
                     | Missing => own_set bucket key fresh
                     | _ => bucket
                     end)).
  { destruct (object_get bucket key); try done.
    apply Forall_own_set; [done|]. intros k. exact E0. }
  revert Hall1. generalize (match object_get bucket key with
                            | Missing => own_set bucket key fresh
                            | _ => bucket
                            end).
  intros bucket1 Hall1. unfold object_get.
  destruct (own_property bucket1 key) as [e|] eqn:Hown.
  - intros [= <-]. apply Forall_own_set; [done|]. intros k.
    apply own_property_elem in Hown.
    rewrite Forall_forall in Hall1. apply (Hall1 _ Hown).
  - destruct (inherited key); by intros [= <-].
Qed.

Lemma aggregate_partner cfg a2p convs :
  forall bucket bucket',
    Forall entry_has_partner bucket ->
    aggregate cfg a2p bucket convs = Ok bucket' ->
    Forall entry_has_partner bucket'.
Proof.
  induction convs as [|conv convs IH]; intros bucket bucket' Hall; simpl.
  - by intros [= <-].
  - destruct (aggregate_conversion cfg a2p bucket conv) as [bucket1|] eqn:E;
      [|discriminate].
    simpl. apply IH. by eapply aggregate_conversion_partner.
Qed.

(** *** What a run will write

    The statements a run executes and its outcome are a function of the
    configuration, the service and the [partners] table; the ledger only
    receives them. *)

Definition entry_args cfg (periodDate : string) (e : bucket_entry) : upsert_args :=
  {| partnerId := bucket_partnerId e;
     arg_period := VStr periodDate;
     arg_currency := VStr (bucket_currency e);
     grossRevenue := VNum (bucket_gross e);
     netRevenue := VNum (bucket_net e);
     commissionRate := VNum (GLOBAL_COMMISSION_RATE cfg) |}.

Definition entry_total cfg (done : bucket_entry * proposed) : total :=
  {| total_partner_id := bucket_partnerId done.1;
     total_currency := bucket_currency done.1;
     total_gross := bucket_gross done.1;
     total_net := bucket_net done.1;
     total_commission_rate := GLOBAL_COMMISSION_RATE cfg;
     total_commission_amount := new_commission_amount done.2 |}.

Fixpoint upsert_plan (d : database) cfg (bucket : list (string * bucket_entry))
    (periodDate : string) (keys : list string)
  : list (bucket_entry * proposed) * option exn :=
  match keys with
  | [] => ([], None)
  | key :: keys' =>
      match object_get bucket key with
      | Own e =>
          match upsert_parameters (entry_args cfg periodDate e) with
          | Ok v =>
              if references_partner v d then
                let '(rest, err) := upsert_plan d cfg bucket periodDate keys' in
                ((e, v) :: rest, err)
              else ([], Some QueryError)
          | Throw err => ([], Some err)
          end
      | _ => ([], Some TypeError)
      end
  end.

Lemma references_partner_partners v d d' :
  partners d = partners d' -> references_partner v d = references_partner v d'.
Proof. unfold references_partner. by intros ->. Qed.

Lemma upsert_plan_partners d d' cfg bucket periodDate keys :
  partners d = partners d' ->
  upsert_plan d cfg bucket periodDate keys
  = upsert_plan d' cfg bucket periodDate keys.
Proof.
  intros Hp. induction keys as [|key keys IH]; simpl; [done|].
  destruct (object_get bucket key); try done.
  destruct upsert_parameters as [v|]; [|done].
  by rewrite (references_partner_partners v d d' Hp), IH.
Qed.

Lemma truthy_not_null v : truthy v = true -> is_null v = false.
Proof. by destruct v. Qed.

Lemma upsert_buckets_plan env cfg bucket periodDate keys :
  Forall entry_has_partner bucket ->
  forall totals w,
    let run := upsert_buckets env cfg bucket periodDate keys totals w in
    let plan := upsert_plan (db w) cfg bucket periodDate keys in
    upserted (snd <$> fst plan)
      (partner_earnings (db w)) (partner_earnings (db (snd run)))
    /\ partners (db (snd run)) = partners (db w)
    /\ fst run = match snd plan with
                 | None => Ok (totals ++ (entry_total cfg <$> fst plan))
                 | Some e => Throw e
                 end.
Proof.
  intros Hall. induction keys as [|key keys IH]; intros totals w; simpl.
  { split_and!; [constructor|done|by rewrite app_nil_r]. }
  unfold object_get.
  destruct (own_property bucket key) as [e|] eqn:Hown.
  2:{ destruct (inherited key); simpl; split_and!; by try constructor. }
  assert (Hnull : is_null (bucket_partnerId e) = false).
  { apply truthy_not_null. apply own_property_elem in Hown.
    rewrite Forall_forall in Hall. apply (Hall _ Hown). }
  fold (entry_args cfg periodDate e).
  destruct (upsertPartnerEarnings env (entry_args cfg periodDate e) w)
    as [[row|err] w1] eqn:E.
  - rewrite !(bind_ok _ _ _ _ _ E).
    apply upsert_ok in E as (v & now & Hv & Hfk & Hins & Hp & _).
    rewrite Hv, Hfk.
    specialize (IH (totals ++ [ {|
        total_partner_id := bucket_partnerId e;
        total_currency := bucket_currency e;
        total_gross := bucket_gross e;
        total_net := bucket_net e;
        total_commission_rate := GLOBAL_COMMISSION_RATE cfg;
        total_commission_amount := commission_amount row |} ]) w1).
    cbv zeta in IH.
    rewrite (upsert_plan_partners (db w1) (db w)) in IH by done.
    destruct (upsert_plan (db w) cfg bucket periodDate keys) as [rest err].
    simpl in *. destruct IH as (Hrest & Hp1 & Hout).
    split_and!.
    + apply upsert_parameters_inv in Hv as (rate & net & gross & _ & _ & _ & Hv).
      econstructor; [|exact Hins|exact Hrest].
      by eapply bind_parameters_partner.
    + congruence.
    + rewrite Hout. destruct err; [done|].
      apply insert_on_conflict_returned in Hins as [(_ & _ & _ & Ha & _) _].
      unfold entry_total at 2. simpl. by rewrite <- app_assoc, Ha.
  - rewrite !(bind_throw _ _ _ _ _ E).
    apply upsert_throw in E as (Hrows & Hp & [Hv|(v & Hv & Hfk & ->)]).
    + rewrite Hv. simpl. rewrite Hrows. split_and!; by try constructor.
    + rewrite Hv, Hfk. simpl. rewrite Hrows. split_and!; by try constructor.
Qed.

Definition settle_plan cfg (periodYm : string) (d : database)
    (affiliateToPartner : list (string * Z)) (allConversions : list value)
  : list proposed * result summary :=
  if (List.length allConversions =? 0)%nat then
    ([], Ok {| summary_period := periodYm; totals := [];
               note := Some "No conversions found for this period." |})
  else
    match aggregate cfg affiliateToPartner [] allConversions with
    | Ok bucket =>
        let plan := upsert_plan d cfg bucket (periodYm +:+ "-01") (map fst bucket) in
        (snd <$> fst plan,
         match snd plan with
         | None => Ok {| summary_period := periodYm;
                         totals := entry_total cfg <$> fst plan;
                         note := None |}
         | Some e => Throw e
         end)
    | Throw e => ([], Throw e)
    end.

Lemma settle_plan_run env cfg periodYm a2p convs w :
  let run := settle_conversions env cfg periodYm a2p convs w in
  let plan := settle_plan cfg periodYm (db w) a2p convs in
  upserted (fst plan) (partner_earnings (db w)) (partner_earnings (db (snd run)))
  /\ partners (db (snd run)) = partners (db w)
  /\ fst run = snd plan.
Proof.
  unfold settle_conversions, settle_plan.
  destruct (_ =? _)%nat; [simpl; split_and!; by try constructor|].
  unfold bind, lift, ret.
  destruct (aggregate cfg a2p [] convs) as [bucket|e] eqn:Hagg;
    [|simpl; split_and!; by try constructor].
  apply aggregate_partner in Hagg; [|by constructor].
  pose proof (upsert_buckets_plan env cfg bucket (periodYm +:+ "-01")
                (map fst bucket) Hagg [] w) as (Hups & Hp & Hout).
  cbv zeta in *. cbv beta iota.
  destruct (upsert_buckets env cfg bucket (periodYm +:+ "-01") (map fst bucket) [] w)
    as [[totals|e] w1]; simpl in *.
  - split_and!; [done|done|].
    destruct (snd (upsert_plan _ _ _ _ _)); [discriminate|]. by injection Hout as ->.
  - split_and!; [done|done|].
    destruct (snd (upsert_plan _ _ _ _ _)); [by injection Hout as ->|discriminate].
Qed.

Definition sync_plan env cfg (periodYm : string) (d : database)
  : list proposed * result summary :=
  if negb (configured cfg) then ([], Throw ERR_NOT_CONFIGURED) else
  if negb (period_format_ok periodYm) then ([], Throw ERR_INVALID_PERIOD) else
  let affiliateToPartner := affiliate_map (linked_partners d) in
  if (List.length affiliateToPartner =? 0)%nat then
    ([], Ok {| summary_period := periodYm; totals := [];
               note := Some "No partners with tapfiliate_affiliate_id found." |})
  else
    match fetch_script env cfg (fromIso_of periodYm) (toIso_of periodYm) 5 1 [] with
    | (Ok allConversions, _) =>
        settle_plan cfg periodYm d affiliateToPartner allConversions
    | (Throw e, _) => ([], Throw e)
    end.

Lemma sync_plan_run env cfg periodYm w :
  let run := syncPartnerEarningsFromTapfiliate env cfg periodYm w in
  let plan := sync_plan env cfg periodYm (db w) in
  upserted (fst plan) (partner_earnings (db w)) (partner_earnings (db (snd run)))
  /\ partners (db (snd run)) = partners (db w)
  /\ fst run = snd plan.
Proof.
  unfold sync_plan. cbv zeta.
  destruct (configured cfg) eqn:Hc.
  2:{ unfold syncPartnerEarningsFromTapfiliate, configured in *.
      apply negb_false_iff in Hc. rewrite Hc. simpl.
      split_and!; by try constructor. }
  destruct (period_format_ok periodYm) eqn:Hp.
  2:{ unfold syncPartnerEarningsFromTapfiliate, configured in *.
      apply negb_true_iff in Hc. rewrite Hc, Hp. simpl.
      split_and!; by try constructor. }
  rewrite sync_run by done. cbv zeta. cbn [negb].
  destruct (_ =? _)%nat; [simpl; split_and!; by try constructor|].
  destruct fetch_script as [[convs|e] events];
    [|simpl; split_and!; by try constructor].
  apply (settle_plan_run env cfg periodYm _ convs
           (logged (logged w prelude_events) events)).
Qed.

Lemma sync_plan_partners env cfg periodYm d d' :
  partners d = partners d' ->
  sync_plan env cfg periodYm d = sync_plan env cfg periodYm d'.
Proof.
  intros Hp. unfold sync_plan, settle_plan, linked_partners. rewrite Hp.
  destruct (negb (configured cfg)); [done|].
  destruct (negb (period_format_ok periodYm)); [done|]. cbv zeta.
  destruct (_ =? _)%nat; [done|].
  destruct fetch_script as [[convs|e] events]; [|done].
  destruct (_ =? _)%nat; [done|].
  destruct aggregate as [bucket|]; [|done].
  by rewrite (upsert_plan_partners d d' cfg bucket _ _ Hp).
Qed.

(** *** The unique index *)

Lemma index_key_overwrite v : forall rows : list earning,
  omap index_key (overwrite v <$> rows) = omap index_key rows.
Proof.
  induction rows as [|r rows IH]; [done|].
  rewrite fmap_cons.
  change (omap index_key (overwrite v r :: (overwrite v <$> rows)))
    with (match index_key (overwrite v r) with
          | Some k => k :: omap index_key (overwrite v <$> rows)
          | None => omap index_key (overwrite v <$> rows)
          end).
  rewrite IH. unfold overwrite. by destruct (conflicts v r).
Qed.

Lemma insert_on_conflict_unique v nextval now rows row rows' :
  insert_on_conflict v nextval now rows = (row, rows') ->
  unique_index rows -> unique_index rows'.
Proof.
  unfold unique_index.
  intros [(_ & _ & _ & ->)|(Hnone & ->)]%insert_on_conflict_cases Hu.
  - by rewrite index_key_overwrite.
  - rewrite omap_app. simpl. unfold index_key at 2. simpl.
    destruct (new_partner_id v) as [p|] eqn:Hp; simpl; [|by rewrite app_nil_r].
    apply NoDup_app. split_and!; [done| |apply NoDup_singleton].
    intros k Hk ->%list_elem_of_singleton.
    apply list_elem_of_omap in Hk as (r & Hr & Hkey).
    specialize (Hnone r Hr). unfold conflicts in Hnone. rewrite Hp in Hnone.
    by apply bool_decide_eq_false in Hnone.
Qed.

Definition keeps_unique_index (w w' : world) : Prop :=
  unique_index (partner_earnings (db w)) ->
  unique_index (partner_earnings (db w')).

Lemma sync_keeps_unique_index env cfg periodYm w :
  keeps_unique_index w
    (snd (syncPartnerEarningsFromTapfiliate env cfg periodYm w)).
Proof.
  apply (stable_sync keeps_unique_index).
  - by intros ? ?.
  - intros w1 w2 w3 H12 H23 Hu. auto.
  - by intros ? ? _ ?.
  - intros env0 a b c g n r x w0 Hu.
    destruct (pool_query_insert env0 a b c g n r x "manual_test" w0)
      as [[row|e] w'] eqn:E; simpl.
    + apply insert_ok in E as (v & _ & _ & Hins & _).
      by eapply insert_on_conflict_unique.
    + apply insert_throw in E as (_ & -> & _). done.
  - by intros ? ? ?.
Qed.

(** *** The rows a run leaves *)

(** After a chain of statements, a row of the table is a row of before
    that no statement proposed a value for, or it carries the values of
    a statement that proposed its key. *)
Lemma upserted_carries vs a b :
  upserted vs a b ->
  forall r, r ∈ b ->
    (r ∈ a /\ forall v, v ∈ vs -> conflicts v r = false)
    \/ exists v, v ∈ vs /\ conflicts v r = true /\ carries v r.
Proof.
  induction 1 as [rows|v vs nextval now rows row rows1 rows2 Hp Hins Hrest IH];
    intros r Hr.
  { left. split; [done|]. intros v Hv. by apply elem_of_nil in Hv. }
  destruct (IH r Hr) as [[Hr1 Hno]|(v0 & Hv0 & Hc & Hcar)].
  2:{ right. exists v0. split_and!; [by right|done|done]. }
  destruct (conflicts v r) eqn:Hvr.
  - right. exists v. split_and!; [by left|done|]. by eapply step_carries.
  - left. split.
    + apply (upserted_untouched [v] rows rows1 r); [|done|].
      * econstructor; [done|exact Hins|constructor].
      * by intros v' ->%list_elem_of_singleton.
    + intros v' [->|Hv']%elem_of_cons; [done|by apply Hno].
Qed.

(** The call the job makes for an element of [totals], server.js
    587-594. *)
Definition total_args (periodYm : string) (t : total) : upsert_args :=
  {| partnerId := total_partner_id t;
     arg_period := VStr (periodYm +:+ "-01");
     arg_currency := VStr (total_currency t);
     grossRevenue := VNum (total_gross t);
     netRevenue := VNum (total_net t);
     commissionRate := VNum (total_commission_rate t) |}.

(** The row has the key of the total: its partner, the first day of the
    period and its currency, each as the column reads it. *)
Definition keyed_by_total (periodYm : string) (t : total) (r : earning) : Prop :=
  is_null (total_partner_id t) = false
  /\ exists p d c,
       int4_in (total_partner_id t) = Some p
       /\ date_in (VStr (periodYm +:+ "-01")) = Some d
       /\ varchar_in 10 (VStr (total_currency t)) = Some c
       /\ index_key r = Some (p, d, c).

(** The row carries the numbers of the total: gross, net and rate as
    their columns read them, the commission amount the column makes of
    [net * rate], and the source tag. *)
Definition holds_total (t : total) (r : earning) : Prop :=
  exists gross net rate,
    Number_or_zero (VNum (total_gross t)) = Ok gross
    /\ Number_or_zero (VNum (total_net t)) = Ok net
    /\ Number_or_zero (VNum (total_commission_rate t)) = Ok rate
    /\ numeric_in 12 2 gross = Some (gross_revenue r)
    /\ numeric_in 12 2 net = Some (net_revenue r)
    /\ numeric_in 5 4 rate = Some (commission_rate r)
    /\ numeric_in 12 2 (num_mul net rate) = Some (commission_amount r)
    /\ source r = Some "manual_test".

Lemma bind_parameters_key a b c g n r x s v :
  bind_parameters a b c g n r x s = Some v ->
  is_null a = false ->
  exists p,
    int4_in a = Some p
    /\ new_partner_id v = Some p
    /\ date_in b = Some (new_period v)
    /\ varchar_in 10 c = Some (new_currency v).
Proof.
  unfold bind_parameters. intros Hv Ha. rewrite Ha in Hv.
  destruct (int4_in a) as [p|]; simpl in Hv; [|discriminate].
  destruct (is_null b); [discriminate|].
  destruct (date_in b) as [d|]; simpl in Hv; [|discriminate].
  destruct (is_null c); [discriminate|].
  destruct (varchar_in 10 c) as [c'|]; simpl in Hv; [|discriminate].
  repeat match type of Hv with
         | mbind _ ?o = Some _ =>
             let E := fresh "E" in destruct o eqn:E; simpl in Hv; [|discriminate]
         end.
  injection Hv as <-. by exists p.
Qed.

Lemma total_row periodYm t v r :
  upsert_parameters (total_args periodYm t) = Ok v ->
  is_null (total_partner_id t) = false ->
  (conflicts v r = true <-> keyed_by_total periodYm t r)
  /\ (carries v r -> holds_total t r).
Proof.
  intros Hv Hnull.
  apply upsert_parameters_inv in Hv as (rate & net & gross & Hr & Hn & Hg & Hv).
  cbn [total_args partnerId arg_period arg_currency grossRevenue netRevenue
       commissionRate] in *.
  destruct (bind_parameters_key _ _ _ _ _ _ _ _ _ Hv Hnull)
    as (p & Hp & Hvp & Hd & Hc).
  apply bind_parameters_inv in Hv as (Hgross & Hnet & Hrate & Hamount & Hs).
  split; [split|].
  - unfold conflicts. rewrite Hvp. intros Hk%bool_decide_eq_true.
    split; [done|]. by exists p, (new_period v), (new_currency v).
  - intros (_ & p' & d' & c' & Hp' & Hd' & Hc' & Hk).
    unfold conflicts. rewrite Hvp. apply bool_decide_eq_true. congruence.
  - intros (Cg & Cn & Cr & Ca & Cs). exists gross, net, rate.
    rewrite Cg, Cn, Cr, Ca, Cs, Hs. done.
Qed.

Lemma upsert_plan_done d cfg bucket periodDate keys :
  Forall entry_has_partner bucket ->
  Forall (fun ev : bucket_entry * proposed =>
            upsert_parameters (entry_args cfg periodDate ev.1) = Ok ev.2
            /\ is_null (bucket_partnerId ev.1) = false)
    (fst (upsert_plan d cfg bucket periodDate keys)).
Proof.
  intros Hall. induction keys as [|key keys IH]; simpl; [constructor|].
  unfold object_get.
  destruct (own_property bucket key) as [e|] eqn:Hown.
  2:{ destruct (inherited key); constructor. }
  destruct (upsert_parameters (entry_args cfg periodDate e)) as [v|] eqn:Hv;
    [|constructor].
  destruct (references_partner v d); [|constructor].
  destruct (upsert_plan d cfg bucket periodDate keys) as [rest err].
  simpl in *. constructor; [|done]. split; [done|].
  apply truthy_not_null. apply own_property_elem in Hown.
  rewrite Forall_forall in Hall. apply (Hall _ Hown).
Qed.

(** The totals of a run that returns are those of the statements it
    executed, one for one. *)
Lemma sync_plan_totals env cfg periodYm d s :
  snd (sync_plan env cfg periodYm d) = Ok s ->
  exists done : list (bucket_entry * proposed),
    fst (sync_plan env cfg periodYm d) = snd <$> done
    /\ totals s = entry_total cfg <$> done
    /\ Forall (fun ev : bucket_entry * proposed =>
                 upsert_parameters (entry_args cfg (periodYm +:+ "-01") ev.1)
                 = Ok ev.2
                 /\ is_null (bucket_partnerId ev.1) = false) done.
Proof.
  unfold sync_plan, settle_plan.
  destruct (negb (configured cfg)); [discriminate|].
  destruct (negb (period_format_ok periodYm)); [discriminate|]. cbv zeta.
  destruct (_ =? _)%nat.
  { intros [= <-]. exists []. by split_and!. }
  destruct fetch_script as [[convs|e] events]; [|discriminate].
  destruct (_ =? _)%nat.
  { intros [= <-]. exists []. by split_and!. }
  destruct aggregate as [bucket|] eqn:Hagg; [|discriminate].
  apply aggregate_partner in Hagg; [|by constructor].
  pose proof (upsert_plan_done d cfg bucket (periodYm +:+ "-01") (map fst bucket)
                Hagg) as Hdone.
  destruct (upsert_plan d cfg bucket (periodYm +:+ "-01") (map fst bucket))
    as [done err].
  simpl in *. destruct err; [discriminate|]. intros [= <-]. by exists done.
Qed.

(** C1. Run the job, then run it again for the same period against the
    same service answers and partners: the ledger after the second run
    is, row for row and column for column, the ledger after the first
    (nothing added, ids and creation times included), the second run
    ends as the first did, and the ledger still holds at most one row
    per (partner, period, currency), as it did before. This holds when
    the runs throw part-way as well. When the second run returns its
    summary, every total of the summary has its row in the ledger, under
    its partner, the first day of the period and its currency; and every
    row of the ledger either was there before the runs, under a key no
    total has, or is the row of a total and carries the values computed
    for it: gross, net and rate as their columns read them, the
    commission amount the column makes of [net * rate], and the source
    tag. A row that was there under the key of a total has been
    overwritten with these values. *)
Theorem rerun_leaves_ledger_unchanged env cfg periodYm w :
  unique_index (partner_earnings (db w)) ->
  let first := syncPartnerEarningsFromTapfiliate env cfg periodYm w in
  let second := syncPartnerEarningsFromTapfiliate env cfg periodYm (snd first) in
  partner_earnings (db (snd second)) = partner_earnings (db (snd first))
  /\ fst second = fst first
  /\ unique_index (partner_earnings (db (snd first)))
  /\ unique_index (partner_earnings (db (snd second)))
  /\ forall s, fst second = Ok s ->
       (forall t, t ∈ totals s ->
          exists r, r ∈ partner_earnings (db (snd second))
                    /\ keyed_by_total periodYm t r)
       /\ (forall r, r ∈ partner_earnings (db (snd second)) ->
             (r ∈ partner_earnings (db w)
              /\ forall t, t ∈ totals s -> ~ keyed_by_total periodYm t r)
             \/ exists t, t ∈ totals s
                          /\ keyed_by_total periodYm t r
                          /\ holds_total t r).
Proof.
  intros Hu first second.
  destruct (sync_plan_run env cfg periodYm w) as (H1 & Hp1 & Hout1).
  destruct (sync_plan_run env cfg periodYm (snd first)) as (H2 & Hp2 & Hout2).
  fold first in H1, Hp1, Hout1. fold second in H2, Hp2, Hout2.
  rewrite (sync_plan_partners env cfg periodYm _ (db w) Hp1) in H2, Hout2.
  assert (Hu1 : unique_index (partner_earnings (db (snd first)))).
  { by apply sync_keeps_unique_index. }
  assert (Hsame : partner_earnings (db (snd second))
                  = partner_earnings (db (snd first))).
  { by eapply upserted_again. }
  split_and!; [done|congruence|done|by apply sync_keeps_unique_index|].
  intros s Hs. rewrite Hsame. rewrite Hout2 in Hs.
  destruct (sync_plan_totals env cfg periodYm (db w) s Hs)
    as (done & Hvs & Htotals & Hdone).
  rewrite Hvs in H1. rewrite Htotals. rewrite Forall_forall in Hdone.
  assert (Hrow : forall ev r, ev ∈ done ->
            (conflicts ev.2 r = true <-> keyed_by_total periodYm (entry_total cfg ev) r)
            /\ (carries ev.2 r -> holds_total (entry_total cfg ev) r)).
  { intros ev r Hev. destruct (Hdone ev Hev) as [Hv Hnull].
    by apply total_row. }
  split.
  - intros t (ev & -> & Hev)%list_elem_of_fmap.
    destruct (upserted_present _ _ _ H1 ev.2) as (r & Hr & Hc).
    { by apply list_elem_of_fmap_2. }
    exists r. split; [done|]. by apply (Hrow ev r Hev).
  - intros r Hr.
    destruct (upserted_carries _ _ _ H1 r Hr)
      as [[Hold Hno]|(v & (ev & -> & Hev)%list_elem_of_fmap & Hc & Hcar)].
    + left. split; [done|].
      intros t (ev & -> & Hev)%list_elem_of_fmap Hk.
      apply (Hrow ev r Hev) in Hk.
      rewrite (Hno ev.2) in Hk; [discriminate|]. by apply list_elem_of_fmap_2.
    + right. exists (entry_total cfg ev). split_and!.
      * by apply list_elem_of_fmap_2.
      * by apply (Hrow ev r Hev).
      * by apply (Hrow ev r Hev).
Qed.

End Properties.

(** ** Further properties of the job and of the upsert *)

Section Ledger.
Context `{Postgres}.

(** *** The early returns of the job *)

Lemma own_set_not_nil {A} (props : list (string * A)) key a :
  own_set props key a <> [].
Proof. destruct props as [|[k v] rest]; simpl; [done|]. by destruct (String.eqb k key). Qed.

Definition add_affiliate (affiliateToPartner : list (string * Z))
    (row : Z * string) : list (string * Z) :=
  let '(row_id, affiliate) := row in
  if String.eqb affiliate "" then affiliateToPartner
  else if String.eqb affiliate "__proto__" then affiliateToPartner
  else own_set affiliateToPartner affiliate row_id.

Lemma affiliate_map_fold rows : affiliate_map rows = fold_left add_affiliate rows [].
Proof. reflexivity. Qed.

Lemma fold_add_affiliate_not_nil rows : forall acc,
  acc <> [] -> fold_left add_affiliate rows acc <> [].
Proof.
  induction rows as [|[row_id a] rows IH]; intros acc Hacc; simpl; [done|].
  apply IH. destruct (String.eqb a ""); [done|].
  destruct (String.eqb a "__proto__"); [done|]. apply own_set_not_nil.
Qed.

Lemma fold_add_affiliate_linked rows row_id a : forall acc,
  (row_id, a) ∈ rows -> a <> "" -> a <> "__proto__" ->
  fold_left add_affiliate rows acc <> [].
Proof.
  induction rows as [|[i b] rows IH]; intros acc Hin Ha Hp; [by apply elem_of_nil in Hin|].
  apply elem_of_cons in Hin as [[= <- <-]|Hin]; simpl.
  - apply fold_add_affiliate_not_nil.
    destruct (String.eqb_spec a ""); [done|].
    destruct (String.eqb_spec a "__proto__"); [done|]. apply own_set_not_nil.
  - by apply IH.
Qed.

Lemma fold_add_affiliate_unlinked rows : forall acc,
  Forall (fun row => row.2 = "") rows -> fold_left add_affiliate rows acc = acc.
Proof.
  induction rows as [|[i a] rows IH]; intros acc Hall; [done|].
  apply Forall_cons in Hall as [Ha Hall]. simpl in *. subst a. simpl. by apply IH.
Qed.

Lemma linked_partners_elem d p a :
  p ∈ partners d -> tapfiliate_affiliate_id p = Some a ->
  (partner_row_id p, a) ∈ linked_partners d.
Proof.
  intros Hp Ha. apply list_elem_of_omap. exists p. by rewrite Ha.
Qed.

(** X1. With the Tapfiliate variables set and a well-formed period, when no
    partner has a non-empty [tapfiliate_affiliate_id] the job returns the
    period with no totals and the note that no partner is linked. It has
    created the tables and read the partners; it has sent no request and
    written no row. *)
Theorem no_linked_partner_returns_note env cfg periodYm w :
  configured cfg = true ->
  period_format_ok periodYm = true ->
  Forall (fun p => tapfiliate_affiliate_id p = None
                   \/ tapfiliate_affiliate_id p = Some "") (partners (db w)) ->
  syncPartnerEarningsFromTapfiliate env cfg periodYm w
  = (Ok {| summary_period := periodYm; totals := [];
           note := Some "No partners with tapfiliate_affiliate_id found." |},
     logged w prelude_events).
Proof.
  intros Hc Hp Hall. rewrite sync_run by done. cbv zeta.
  rewrite affiliate_map_fold, fold_add_affiliate_unlinked; [done|].
  unfold linked_partners. induction Hall as [|p ps [Hp0|Hp0] _ IH]; simpl.
  - constructor.
  - by rewrite Hp0.
  - rewrite Hp0. by constructor.
Qed.

(** X2. With a linked partner, when the first page is answered
    successfully with an empty array, or with a body that is not an
    array, the job returns the period with no totals and the note that no
    conversion was found. It has sent this one request and written no
    row. *)
Theorem empty_first_page_returns_note env cfg periodYm w p a res :
  configured cfg = true ->
  period_format_ok periodYm = true ->
  p ∈ partners (db w) ->
  tapfiliate_affiliate_id p = Some a -> a <> "" -> a <> "__proto__" ->
  let first := mk_request cfg (fromIso_of periodYm) (toIso_of periodYm) 1 in
  fetch env first = Some res ->
  ok res = true ->
  json res = Some (VArr []) \/ not_an_array (json res) ->
  syncPartnerEarningsFromTapfiliate env cfg periodYm w
  = (Ok {| summary_period := periodYm; totals := [];
           note := Some "No conversions found for this period." |},
     logged w (prelude_events ++ [Fetch first])).
Proof.
  intros Hc Hp Hin Ha Hne Hproto first Hres Hok Hbody.
  rewrite sync_run by done. cbv zeta.
  destruct (List.length _ =? 0)%nat eqn:Hlen.
  { apply Nat.eqb_eq, nil_length_inv in Hlen. exfalso. revert Hlen.
    rewrite affiliate_map_fold.
    apply (fold_add_affiliate_linked _ (partner_row_id p) a); [|done|done].
    by apply linked_partners_elem. }
  assert (Hscript : fetch_script env cfg (fromIso_of periodYm) (toIso_of periodYm) 5 1 []
                    = (Ok [], [Fetch first])).
  { cbn [fetch_script]. fold first. rewrite Hres, Hok. cbn [negb].
    destruct Hbody as [->|Hbody]; [done|].
    destruct (json res) as [[]|]; simpl in *; done. }
  rewrite Hscript. unfold settle_conversions. simpl.
  unfold ret. by rewrite logged_logged.
Qed.

(** *** The pagination loop, continued *)

Lemma fetch_script_sent env cfg fromIso toIso remaining :
  forall first acc,
    let script := fetch_script env cfg fromIso toIso remaining first acc in
    (exists k, (k <= remaining)%nat
               /\ requests (snd script)
                  = mk_request cfg fromIso toIso <$> seqZ first (Z.of_nat k))
    /\ (forall r, r ∈ requests (snd script) -> fetch env r = None ->
          fst script = Throw FetchRejected
          /\ forall message, Console_error message ∉ snd script).
Proof.
  induction remaining as [|n IH]; intros first acc; simpl.
  { split; [exists 0%nat; by split|]. by intros r ?%elem_of_nil. }
  set (r0 := mk_request cfg fromIso toIso first).
  assert (Hone : exists k, (k <= S n)%nat
                       /\ requests [Fetch r0]
                          = mk_request cfg fromIso toIso <$> seqZ first (Z.of_nat k)).
  { exists 1%nat. split; [lia|done]. }
  destruct (fetch env r0) as [res|] eqn:Hres.
  2:{ split; [exact Hone|]. simpl.
      intros r ->%list_elem_of_singleton _. split; [done|].
      intros message [?|?%elem_of_nil]%elem_of_cons; [discriminate|done]. }
  assert (Hsome : forall (out : result (list value)) (more : list event) r,
            r ∈ requests [Fetch r0] -> fetch env r = None ->
            out = Throw FetchRejected
            /\ forall message, Console_error message ∉ more).
  { intros out more r ->%list_elem_of_singleton Hnone. congruence. }
  destruct (negb (ok res)).
  { split; [exact Hone|]. simpl. apply (Hsome _ _). }
  destruct (default (VArr []) (json res)) as [| | | | |items| |];
    try (split; [exact Hone|apply Hsome]).
  destruct items as [|x items];
    try (split; [exact Hone|apply Hsome]).
  destruct (_ <? _)%Z;
    try (split; [exact Hone|apply Hsome]).
  specialize (IH (first + 1)%Z (acc ++ x :: items)).
  destruct (fetch_script env cfg fromIso toIso n (first + 1) (acc ++ x :: items))
    as [out events].
  simpl in *. destruct IH as [(k & Hk & Hreq) Hrej]. split.
  - exists (S k). split; [lia|]. rewrite Hreq.
    rewrite (seqZ_cons first); [|lia]. rewrite fmap_cons.
    do 3 f_equal; lia.
  - intros r [->|Hin]%elem_of_cons Hnone; [congruence|].
    destruct (Hrej r Hin Hnone) as [-> Hno]. split; [done|].
    intros message [?|?]%elem_of_cons; [discriminate|by eapply Hno].
Qed.

Lemma fetch_script_full_pages env cfg fromIso toIso (pages : Z -> list value)
    remaining :
  forall first acc,
    (forall n, (first <= n < first + Z.of_nat remaining)%Z ->
       exists res,
         fetch env (mk_request cfg fromIso toIso n) = Some res
         /\ ok res = true
         /\ json res = Some (VArr (pages n))
         /\ (50 <= List.length (pages n))%nat) ->
    fetch_script env cfg fromIso toIso remaining first acc
    = (Ok (acc ++ concat (pages <$> seqZ first (Z.of_nat remaining))),
       (fun n => Fetch (mk_request cfg fromIso toIso n))
         <$> seqZ first (Z.of_nat remaining)).
Proof.
  induction remaining as [|k IH]; intros first acc Hfull.
  { simpl. by rewrite app_nil_r. }
  destruct (Hfull first) as (res & Hres & Hok & Hjson & Hlen); [lia|].
  cbn [fetch_script]. rewrite Hres, Hok, Hjson.
  cbv beta iota delta [from_option Datatypes.id negb].
  destruct (pages first) as [|x items] eqn:Hp; [simpl in Hlen; lia|].
  match goal with
  | |- context [(?n <? 50)%Z] =>
      destruct (n <? 50)%Z eqn:Hlt; [apply Z.ltb_lt in Hlt; simpl in *; lia|]
  end.
  rewrite IH by (intros n Hn; apply Hfull; lia).
  rewrite (seqZ_cons first (Z.of_nat (S k))) by lia.
  rewrite !fmap_cons. cbn [concat]. rewrite Hp.
  replace (Z.pred (Z.of_nat (S k))) with (Z.of_nat k) by lia.
  replace (Z.succ first) with (first + 1)%Z by lia.
  f_equal. f_equal. symmetry. apply (app_assoc acc (x :: items)).
Qed.

(** X3. When each of the pages 1 to 5 is answered successfully with an
    array of at least 50 records, the job asks for these five pages and
    for no other, and settles the records of these five pages: what the
    service holds beyond page 5 never reaches the ledger. *)
Theorem only_five_pages_are_read env cfg periodYm w p a (pages : Z -> list value) :
  configured cfg = true ->
  period_format_ok periodYm = true ->
  p ∈ partners (db w) ->
  tapfiliate_affiliate_id p = Some a -> a <> "" -> a <> "__proto__" ->
  let ask := mk_request cfg (fromIso_of periodYm) (toIso_of periodYm) in
  (forall n, (1 <= n <= 5)%Z ->
     exists res,
       fetch env (ask n) = Some res
       /\ ok res = true
       /\ json res = Some (VArr (pages n))
       /\ (50 <= List.length (pages n))%nat) ->
  let run := syncPartnerEarningsFromTapfiliate env cfg periodYm w in
  run = settle_conversions env cfg periodYm
          (affiliate_map (linked_partners (db w)))
          (pages 1 ++ pages 2 ++ pages 3 ++ pages 4 ++ pages 5)
          (logged w (prelude_events
                     ++ [Fetch (ask 1); Fetch (ask 2); Fetch (ask 3);
                         Fetch (ask 4); Fetch (ask 5)]))
  /\ requests (events_since w (snd run)) = [ask 1; ask 2; ask 3; ask 4; ask 5].
Proof.
  intros Hc Hp Hin Ha Hne Hproto ask Hfull run.
  assert (Hscript : fetch_script env cfg (fromIso_of periodYm) (toIso_of periodYm) 5 1 []
                    = (Ok (pages 1 ++ pages 2 ++ pages 3 ++ pages 4 ++ pages 5),
                       [Fetch (ask 1); Fetch (ask 2); Fetch (ask 3);
                        Fetch (ask 4); Fetch (ask 5)])).
  { rewrite (fetch_script_full_pages env cfg _ _ pages 5 1 []).
    - simpl. by rewrite app_nil_r.
    - intros n Hn. apply Hfull. lia. }
  assert (Hrun : run = settle_conversions env cfg periodYm
                         (affiliate_map (linked_partners (db w)))
                         (pages 1 ++ pages 2 ++ pages 3 ++ pages 4 ++ pages 5)
                         (logged w (prelude_events
                                    ++ [Fetch (ask 1); Fetch (ask 2); Fetch (ask 3);
                                        Fetch (ask 4); Fetch (ask 5)]))).
  { unfold run. rewrite sync_run by done. cbv zeta.
    destruct (List.length _ =? 0)%nat eqn:Hlen.
    { apply Nat.eqb_eq, nil_length_inv in Hlen. exfalso. revert Hlen.
      rewrite affiliate_map_fold.
      apply (fold_add_affiliate_linked _ (partner_row_id p) a); [|done|done].
      by apply linked_partners_elem. }
    by rewrite Hscript, logged_logged. }
  split; [exact Hrun|].
  rewrite Hrun.
  destruct (settle_no_request env cfg periodYm
              (affiliate_map (linked_partners (db w)))
              (pages 1 ++ pages 2 ++ pages 3 ++ pages 4 ++ pages 5)
              (logged w (prelude_events
                         ++ [Fetch (ask 1); Fetch (ask 2); Fetch (ask 3);
                             Fetch (ask 4); Fetch (ask 5)])))
    as (_ & new & Ht & Hnew).
  rewrite (events_since_app w _ ((prelude_events
                         ++ [Fetch (ask 1); Fetch (ask 2); Fetch (ask 3);
                             Fetch (ask 4); Fetch (ask 5)]) ++ new)).
  - rewrite !requests_app, requests_prelude, Hnew. done.
  - rewrite Ht. unfold logged. cbn [trace]. by rewrite <- !app_assoc.
Qed.

(** X4. The requests of a run are the page requests 1, ..., k of the
    configured program, for some k up to 5, each with the configured key
    and with the range computed from the period; the job sends no other
    request. *)
Theorem requests_follow_configuration env cfg periodYm w :
  let sent :=
    requests (events_since w
                (snd (syncPartnerEarningsFromTapfiliate env cfg periodYm w))) in
  exists k,
    (k <= 5)%nat
    /\ sent = mk_request cfg (fromIso_of periodYm) (toIso_of periodYm)
                <$> seqZ 1 (Z.of_nat k).
Proof.
  destruct (fetch_script_sent env cfg (fromIso_of periodYm) (toIso_of periodYm)
              5 1 []) as [(k & Hk & Hsent) _].
  cbv zeta in *.
  destruct (sync_cases env cfg periodYm w)
    as [[-> _]|[[-> _]|[[-> _]|(convs & new & _ & _ & Ht & Hnew)]]]; cbv zeta.
  - exists 0%nat. split; [lia|]. by rewrite events_since_self.
  - exists 0%nat. split; [lia|]. by rewrite events_since_logged, requests_prelude.
  - exists k. split; [lia|].
    by rewrite events_since_logged, requests_app, requests_prelude.
  - exists k. split; [lia|].
    rewrite (events_since_app _ _ _ Ht), !requests_app, requests_prelude, Hnew.
    by rewrite app_nil_r.
Qed.

(** X5. If a page request sent during a run is rejected (the fetch
    itself fails: no response), the run throws that failure, the ledger
    is what it was before the run, no INSERT was issued and
    [console.error] was not called. *)
Theorem rejected_request_aborts env cfg periodYm w r :
  let run := syncPartnerEarningsFromTapfiliate env cfg periodYm w in
  Fetch r ∈ events_since w (snd run) ->
  fetch env r = None ->
  fst run = Throw FetchRejected
  /\ partner_earnings (db (snd run)) = partner_earnings (db w)
  /\ (Query INSERT_partner_earnings ∉ events_since w (snd run))
  /\ (forall message, Console_error message ∉ events_since w (snd run)).
Proof.
  destruct (fetch_script_sent env cfg (fromIso_of periodYm) (toIso_of periodYm)
              5 1 []) as [_ Hrej].
  pose proof (fetch_script_requests env cfg (fromIso_of periodYm)
                (toIso_of periodYm) 5 1 []) as (_ & _ & _ & Hq & _).
  cbv zeta in *. intros Hin Hnone.
  assert (Hsent : forall events, Fetch r ∈ events -> r ∈ requests events).
  { intros events He. apply list_elem_of_omap. by exists (Fetch r). }
  assert (Hpre : forall e, e ∈ prelude_events -> exists s, e = Query s).
  { intros e He. unfold prelude_events, ddl_events in He. simpl in He.
    repeat (apply elem_of_cons in He as [->|He]; [eauto|]).
    by apply elem_of_nil in He. }
  destruct (sync_cases env cfg periodYm w)
    as [[Hw _]|[[Hw _]|[[Hw (e & He & Hout)]|(convs & new & Hs & _ & Ht & Hnew)]]];
    cbv zeta in *.
  - rewrite Hw, events_since_self in Hin. by apply elem_of_nil in Hin.
  - rewrite Hw, events_since_logged in Hin. apply Hsent in Hin.
    rewrite requests_prelude in Hin. by apply elem_of_nil in Hin.
  - rewrite Hw, events_since_logged in *.
    apply Hsent in Hin. rewrite requests_app, requests_prelude in Hin.
    simpl in Hin. destruct (Hrej r Hin Hnone) as [Hthrow Hno].
    rewrite Hthrow in He. injection He as <-. split_and!; [done|done| |].
    + intros [Hp|Hscript]%elem_of_app; [|done].
      unfold prelude_events, ddl_events in Hp. simpl in Hp.
      repeat (apply elem_of_cons in Hp as [?|Hp]; [discriminate|]).
      by apply elem_of_nil in Hp.
    + intros message [Hp|Hscript]%elem_of_app; [|by eapply Hno].
      by apply Hpre in Hp as [s ?].
  - rewrite (events_since_app _ _ _ Ht) in Hin.
    apply Hsent in Hin.
    rewrite !requests_app, requests_prelude, Hnew, app_nil_r in Hin.
    simpl in Hin. destruct (Hrej r Hin Hnone) as [Hthrow _].
    rewrite Hthrow in Hs. discriminate.
Qed.

(** *** One upsert, continued *)

Lemma bind_parameters_partner_id a b c g n r x s v :
  bind_parameters a b c g n r x s = Some v ->
  is_null a = false -> int4_in a = new_partner_id v.
Proof.
  unfold bind_parameters. intros Hv Ha. rewrite Ha in Hv.
  destruct (int4_in a) as [p|]; simpl in Hv; [|discriminate].
  repeat match type of Hv with
         | mbind _ ?o = Some _ =>
             let E := fresh "E" in destruct o eqn:E; simpl in Hv; [|discriminate]
         end.
  injection Hv as <-. done.
Qed.

Lemma upsert_throw_logged env a w e w' :
  upsertPartnerEarnings env a w = (Throw e, w') ->
  exists events,
    trace w' = trace w ++ events ++ [Console_error "Error upserting partner earnings:"].
Proof.
  unfold upsertPartnerEarnings, try_catch.
  rewrite (bind_ok _ _ _ _ _ (ensureV2Tables_run w)).
  unfold bind at 1, lift at 1.
  destruct (Number_or_zero (commissionRate a)) as [rate|e1]; simpl.
  2:{ unfold bind, console_error, emit, throw. simpl. intros [= <- <-].
      simpl. exists ddl_events. by rewrite <- !app_assoc. }
  unfold bind at 1, lift at 1.
  destruct (Number_or_zero (netRevenue a)) as [net|e1]; simpl.
  2:{ unfold bind, console_error, emit, throw. simpl. intros [= <- <-].
      simpl. exists ddl_events. by rewrite <- !app_assoc. }
  unfold bind at 1, lift at 1.
  destruct (Number_or_zero (grossRevenue a)) as [gross|e1]; simpl.
  2:{ unfold bind, console_error, emit, throw. simpl. intros [= <- <-].
      simpl. exists ddl_events. by rewrite <- !app_assoc. }
  destruct pool_query_insert as [[row0|e0] w0] eqn:E; [discriminate|].
  unfold bind, console_error, emit, throw. simpl. intros [= <- <-]. simpl.
  apply insert_throw in E as (_ & _ & _ & Ht & _). simpl in Ht. rewrite Ht.
  exists (ddl_events ++ [Query INSERT_partner_earnings]).
  by rewrite <- !app_assoc.
Qed.

(** X6. A call of [upsertPartnerEarnings] with a partner id that is not
    null and does not read as the id of a row of [partners] (the foreign
    key of [partner_earnings]) throws, after logging "Error upserting
    partner earnings:", and leaves the ledger as it was. *)
Theorem upsert_refused_for_unknown_partner env a w :
  is_null (partnerId a) = false ->
  (forall p, int4_in (partnerId a) = Some p ->
             p ∉ partner_row_id <$> partners (db w)) ->
  exists e w',
    upsertPartnerEarnings env a w = (Throw e, w')
    /\ partner_earnings (db w') = partner_earnings (db w)
    /\ Console_error "Error upserting partner earnings:" ∈ events_since w w'.
Proof.
  intros Hnull Hunknown.
  destruct (upsertPartnerEarnings env a w) as [[row|e] w'] eqn:E.
  - exfalso. apply upsert_ok in E as (v & now & Hv & Hfk & _).
    apply upsert_parameters_inv in Hv as (rate & net & gross & _ & _ & _ & Hv).
    pose proof (bind_parameters_partner _ _ _ _ _ _ _ _ _ Hv Hnull) as Hsome.
    apply bind_parameters_partner_id in Hv; [|done].
    unfold references_partner in Hfk.
    destruct (new_partner_id v) as [p|]; [|done].
    apply bool_decide_eq_true in Hfk. by apply (Hunknown p).
  - exists e, w'. split; [done|].
    pose proof (upsert_throw_logged _ _ _ _ _ E) as (events & Ht).
    apply upsert_throw in E as (Hrows & _). split; [done|].
    rewrite (events_since_app _ _ _ Ht).
    apply elem_of_app. right. by apply list_elem_of_singleton.
Qed.

Lemma upsert_ok_seq env a w row w' :
  upsertPartnerEarnings env a w = (Ok row, w') ->
  partner_earnings_id_seq (db w') = (partner_earnings_id_seq (db w) + 1)%Z.
Proof.
  unfold upsertPartnerEarnings, try_catch.
  rewrite (bind_ok _ _ _ _ _ (ensureV2Tables_run w)).
  unfold bind at 1, lift at 1.
  destruct (Number_or_zero (commissionRate a)) as [rate|]; simpl;
    [|unfold bind, console_error, emit, throw; discriminate].
  unfold bind at 1, lift at 1.
  destruct (Number_or_zero (netRevenue a)) as [net|]; simpl;
    [|unfold bind, console_error, emit, throw; discriminate].
  unfold bind at 1, lift at 1.
  destruct (Number_or_zero (grossRevenue a)) as [gross|]; simpl;
    [|unfold bind, console_error, emit, throw; discriminate].
  destruct pool_query_insert as [[row0|e] w0] eqn:E;
    [|unfold bind, console_error, emit, throw; discriminate].
  intros [= <- <-]. revert E. unfold pool_query_insert.
  destruct bind_parameters as [v|]; [|discriminate].
  destruct references_partner; [|discriminate].
  destruct insert_on_conflict. by intros [= <- <-].
Qed.

(** X7. When [upsertPartnerEarnings] returns a row, the row is in the
    ledger and the id sequence has advanced by one. Either a row with the
    same (partner, period, currency) was there and has been overwritten
    in place (same id, key and creation time; as many rows as before;
    every row with another key still there), or no row had that key and
    the row has been appended with the next id of the sequence. *)
Theorem upsert_overwrites_or_appends env a w row w' :
  upsertPartnerEarnings env a w = (Ok row, w') ->
  let before := partner_earnings (db w) in
  let after := partner_earnings (db w') in
  row ∈ after
  /\ partner_earnings_id_seq (db w') = (partner_earnings_id_seq (db w) + 1)%Z
  /\ ((exists old,
         old ∈ before
         /\ index_key row <> None
         /\ same_identity old row
         /\ List.length after = List.length before
         /\ forall r, r ∈ before -> index_key r <> index_key row -> r ∈ after)
      \/ ((forall r, r ∈ before ->
             index_key r = None \/ index_key r <> index_key row)
          /\ after = before ++ [row]
          /\ id row = partner_earnings_id_seq (db w))).
Proof.
  intros E before after.
  pose proof (upsert_ok_seq _ _ _ _ _ E) as Hseq.
  apply upsert_ok in E as (v & now & _ & _ & Hins & _).
  fold before after in Hins.
  pose proof (insert_on_conflict_returned _ _ _ _ _ _ Hins) as [_ Hin].
  split; [done|]. split; [done|].
  revert Hins. unfold insert_on_conflict.
  destruct (List.find (conflicts v) before) as [r0|] eqn:Hfind.
  - intros [= <- <-]. left.
    apply find_conflict_elem in Hfind as [Hr0 Hc].
    assert (Hkey : exists p, new_partner_id v = Some p
                             /\ index_key r0 = Some (p, new_period v, new_currency v)).
    { unfold conflicts in Hc. destruct (new_partner_id v) as [p|]; [|done].
      apply bool_decide_eq_true in Hc. eauto. }
    destruct Hkey as (p & Hp & Hkey).
    exists r0. split_and!; [done| |done| |].
    + change (index_key (do_update v r0)) with (index_key r0). by rewrite Hkey.
    + by rewrite length_map.
    + intros r Hr Hne. apply list_elem_of_fmap. exists r. split; [|done].
      destruct (conflicts v r) eqn:Hcr; [|done]. exfalso. apply Hne.
      unfold conflicts in Hcr. rewrite Hp in Hcr.
      apply bool_decide_eq_true in Hcr.
      change (index_key (do_update v r0)) with (index_key r0). congruence.
  - intros [= <- <-]. right. split_and!; [|done|done].
    intros r Hr.
    assert (Hc : conflicts v r = false).
    { apply list_elem_of_In in Hr. by apply (find_none _ _ Hfind). }
    unfold conflicts in Hc. unfold index_key at 3. simpl.
    destruct (new_partner_id v) as [p|]; [|destruct (index_key r); eauto].
    apply bool_decide_eq_false in Hc. by right.
Qed.

(** *** Invariants of the ledger *)

(** Every row stays, with its id, its key and its creation time. *)
Definition rows_survive (w w' : world) : Prop :=
  partners (db w') = partners (db w)
  /\ (List.length (partner_earnings (db w))
      <= List.length (partner_earnings (db w')))%nat
  /\ forall r, r ∈ partner_earnings (db w) ->
       exists r', r' ∈ partner_earnings (db w') /\ same_identity r r'.

Lemma same_identity_refl r : same_identity r r.
Proof. by repeat split. Qed.

Lemma same_identity_trans a b c :
  same_identity a b -> same_identity b c -> same_identity a c.
Proof.
  intros (? & ? & ? & ? & ?) (? & ? & ? & ? & ?). repeat split; congruence.
Qed.

Lemma rows_survive_refl w : rows_survive w w.
Proof.
  split_and!; [done|lia|]. intros r Hr. exists r. split; [done|apply same_identity_refl].
Qed.

Lemma rows_survive_trans w1 w2 w3 :
  rows_survive w1 w2 -> rows_survive w2 w3 -> rows_survive w1 w3.
Proof.
  intros (Hp1 & Hl1 & H1) (Hp2 & Hl2 & H2). split_and!; [congruence|lia|].
  intros r Hr. destruct (H1 r Hr) as (r1 & Hr1 & Hs1).
  destruct (H2 r1 Hr1) as (r2 & Hr2 & Hs2).
  exists r2. split; [done|]. by eapply same_identity_trans.
Qed.

Lemma rows_survive_insert env a b c g n r x :
  stable rows_survive (pool_query_insert env a b c g n r x "manual_test").
Proof.
  intros w.
  destruct (pool_query_insert env a b c g n r x "manual_test" w)
    as [[row|e] w'] eqn:E; simpl.
  - apply insert_ok in E as (v & _ & _ & Hins & Hp & _).
    split; [done|].
    apply insert_on_conflict_cases in Hins as [(_ & _ & _ & ->)|(_ & ->)].
    + split; [by rewrite length_fmap|].
      intros y Hy. exists (overwrite v y). split; [by apply list_elem_of_fmap_2|].
      unfold overwrite. destruct (conflicts v y); by repeat split.
    + split; [rewrite length_app; lia|].
      intros y Hy. exists y. split; [|apply same_identity_refl].
      apply elem_of_app. by left.
  - apply insert_throw in E as (_ & Hrows & Hp & _).
    unfold rows_survive. rewrite Hrows. split_and!; [done|lia|].
    intros y Hy. exists y. split; [done|apply same_identity_refl].
Qed.

(** X8. Neither [upsertPartnerEarnings] nor the job deletes anything:
    after a call, whatever its outcome, the partners are the same, the
    ledger has at least as many rows, and every row of before is still
    there with its id, partner, period, currency and creation time. *)
Theorem ledger_rows_survive env cfg :
  (forall a w, rows_survive w (snd (upsertPartnerEarnings env a w)))
  /\ (forall periodYm w,
        rows_survive w (snd (syncPartnerEarningsFromTapfiliate env cfg periodYm w))).
Proof.
  assert (Hemit : forall w e, is_fetch e = false -> rows_survive w (logged w [e])).
  { intros w e _. exact (rows_survive_refl w). }
  split.
  - intros a. apply (stable_upsertPartnerEarnings rows_survive).
    + apply rows_survive_refl.
    + apply rows_survive_trans.
    + exact Hemit.
    + apply rows_survive_insert.
  - intros periodYm. apply (stable_sync rows_survive).
    + apply rows_survive_refl.
    + apply rows_survive_trans.
    + exact Hemit.
    + apply rows_survive_insert.
    + intros w r. exact (rows_survive_refl w).
Qed.

(** *** The rows the job writes *)

Lemma bind_parameters_period a b c g n r x s v :
  bind_parameters a b c g n r x s = Some v ->
  is_null b = false -> date_in b = Some (new_period v).
Proof.
  unfold bind_parameters. intros Hv Hb. rewrite Hb in Hv.
  destruct (if is_null a then _ else _) as [p|]; simpl in Hv; [|discriminate].
  destruct (date_in b) as [d|]; simpl in Hv; [|discriminate].
  repeat match type of Hv with
         | mbind _ ?o = Some _ =>
             let E := fresh "E" in destruct o eqn:E; simpl in Hv; [|discriminate]
         end.
  injection Hv as <-. done.
Qed.

Lemma upsert_plan_period d cfg bucket periodDate keys done :
  done ∈ fst (upsert_plan d cfg bucket periodDate keys) ->
  date_in (VStr periodDate) = Some (new_period done.2).
Proof.
  revert done. induction keys as [|key keys IH]; intros done; simpl.
  { by intros ?%elem_of_nil. }
  destruct (object_get bucket key) as [e| |]; try by intros ?%elem_of_nil.
  destruct (upsert_parameters (entry_args cfg periodDate e)) as [v|] eqn:Hv;
    [|by intros ?%elem_of_nil].
  destruct (references_partner v d); [|by intros ?%elem_of_nil].
  destruct (upsert_plan d cfg bucket periodDate keys) as [rest err]. simpl in *.
  intros [->|Hin]%elem_of_cons; [|by apply IH].
  apply upsert_parameters_inv in Hv as (? & ? & ? & _ & _ & _ & Hb).
  by apply bind_parameters_period in Hb.
Qed.

Lemma sync_plan_period env cfg periodYm d v :
  v ∈ fst (sync_plan env cfg periodYm d) ->
  date_in (VStr (periodYm +:+ "-01")) = Some (new_period v).
Proof.
  unfold sync_plan, settle_plan.
  destruct (negb (configured cfg)); [by intros ?%elem_of_nil|].
  destruct (negb (period_format_ok periodYm)); [by intros ?%elem_of_nil|].
  cbv zeta. destruct (_ =? _)%nat; [by intros ?%elem_of_nil|].
  destruct fetch_script as [[convs|e] events]; [|by intros ?%elem_of_nil].
  destruct (_ =? _)%nat; [by intros ?%elem_of_nil|].
  destruct aggregate as [bucket|]; [|by intros ?%elem_of_nil].
  simpl. intros (done & -> & Hin)%list_elem_of_fmap.
  by eapply upsert_plan_period.
Qed.

Lemma upserted_keeps vs a b r :
  upserted vs a b -> r ∈ a ->
  (forall v, v ∈ vs -> conflicts v r = false) -> r ∈ b.
Proof.
  induction 1 as [rows|v vs nextval now rows row rows1 rows2 Hp Hins _ IH];
    intros Hr Hnone; [done|].
  apply IH; [|intros v' Hv'; apply Hnone; by apply elem_of_cons; right].
  apply insert_on_conflict_cases in Hins as [(_ & _ & _ & ->)|(_ & ->)].
  - apply list_elem_of_fmap. exists r. split; [|done].
    unfold overwrite. rewrite Hnone; [done|]. by apply elem_of_cons; left.
  - apply elem_of_app. by left.
Qed.

(** X9. A run of the job for a period leaves the rows of every other
    period as they are: a row whose period is not the first day of the
    requested month is in the ledger after the run if and only if it was
    there before. *)
Theorem other_periods_are_untouched env cfg periodYm w r :
  date_in (VStr (periodYm +:+ "-01")) <> Some (period r) ->
  r ∈ partner_earnings (db w)
  <-> r ∈ partner_earnings
           (db (snd (syncPartnerEarningsFromTapfiliate env cfg periodYm w))).
Proof.
  intros Hother.
  destruct (sync_plan_run env cfg periodYm w) as (Hups & _ & _).
  assert (Hnone : forall v, v ∈ fst (sync_plan env cfg periodYm (db w)) ->
                            conflicts v r = false).
  { intros v Hv. apply sync_plan_period in Hv.
    unfold conflicts. destruct (new_partner_id v) as [p|]; [|done].
    apply bool_decide_eq_false. unfold index_key.
    destruct (partner_id r); [|done]. intros [= _ Hperiod _].
    apply Hother. by rewrite Hv, Hperiod. }
  split; intros Hr.
  - by eapply upserted_keeps.
  - by eapply upserted_untouched.
Qed.

(** *** The buckets *)

Lemma own_set_keys {A} (props : list (string * A)) key a :
  map fst (own_set props key a)
  = if has_own props key then map fst props else map fst props ++ [key].
Proof.
  unfold has_own. induction props as [|[k v] rest IH]; simpl; [done|].
  destruct (String.eqb_spec k key) as [->|Hne]; simpl; [done|].
  rewrite IH. by destruct (own_property rest key).
Qed.

Lemma own_property_keys {A} (props : list (string * A)) key :
  own_property props key = None -> key ∉ map fst props.
Proof.
  induction props as [|[k v] rest IH]; simpl; [by intros _ ?%elem_of_nil|].
  destruct (String.eqb_spec k key) as [->|Hne]; [done|].
  intros Hrest [?|?]%elem_of_cons; [congruence|by apply IH].
Qed.

Lemma own_set_NoDup {A} (props : list (string * A)) key a :
  NoDup (map fst props) -> NoDup (map fst (own_set props key a)).
Proof.
  intros Hnd. rewrite own_set_keys. unfold has_own.
  destruct (own_property props key) eqn:E; [done|].
  apply NoDup_app. split_and!; [done| |apply NoDup_singleton].
  intros k Hk ->%list_elem_of_singleton. by apply own_property_keys in E.
Qed.

Lemma Forall_own_set_entry {A} (P : string * A -> Prop) props key a :
  Forall P props -> P (key, a) -> Forall P (own_set props key a).
Proof.
  intros Hall Ha. induction Hall as [|[k v] rest Hkv Hrest IH]; simpl.
  { by constructor. }
  destruct (String.eqb_spec k key) as [->|Hne]; by constructor.
Qed.

(** A bucket is filed under its partner and its currency. *)
Definition filed (entry : string * bucket_entry) : Prop :=
  exists partnerKey,
    ToString (bucket_partnerId entry.2) = Ok partnerKey
    /\ entry.1 = partnerKey +:+ ":" +:+ bucket_currency entry.2.

Definition well_keyed (bucket : list (string * bucket_entry)) : Prop :=
  NoDup (map fst bucket) /\ Forall filed bucket.

Lemma credit_well_keyed bucket partnerId partnerKey currency gross net :
  ToString partnerId = Ok partnerKey ->
  well_keyed bucket ->
  well_keyed (credit bucket (partnerKey +:+ ":" +:+ currency) partnerId currency
                gross net).
Proof.
  intros Hkey [Hnd Hall]. unfold credit.
  set (key := partnerKey +:+ ":" +:+ currency).
  assert (Hfiled : forall g n,
            filed (key, {| bucket_partnerId := partnerId; bucket_currency := currency;
                           bucket_gross := g; bucket_net := n |})).
  { intros g n. by exists partnerKey. }
  assert (Hstep : forall b, well_keyed b ->
            well_keyed match object_get b key with
                       | Own e =>
                           own_set b key
                             {| bucket_partnerId := bucket_partnerId e;
                                bucket_currency := bucket_currency e;
                                bucket_gross := num_add (bucket_gross e) gross;
                                bucket_net := num_add (bucket_net e) net |}
                       | _ => b
                       end).
  { intros b [Hb1 Hb2]. unfold object_get.
    destruct (own_property b key) as [e|] eqn:He; [|by destruct (inherited key)].
    split; [by apply own_set_NoDup|].
    apply Forall_own_set_entry; [done|].
    apply own_property_elem in He. rewrite Forall_forall in Hb2.
    destruct (Hb2 _ He) as (pk & Hpk & Hk). by exists pk. }
  apply Hstep. destruct (object_get bucket key); try done.
  split; [by apply own_set_NoDup|by apply Forall_own_set_entry].
Qed.

Lemma aggregate_well_keyed cfg a2p convs : forall bucket bucket',
  well_keyed bucket ->
  aggregate cfg a2p bucket convs = Ok bucket' ->
  well_keyed bucket'.
Proof.
  induction convs as [|conv convs IH]; intros bucket bucket' Hwk; simpl.
  { by intros [= <-]. }
  destruct (aggregate_conversion cfg a2p bucket conv) as [bucket1|] eqn:E;
    [|discriminate].
  simpl. apply IH. revert E. rewrite aggregate_conversion_eq.
  destruct (affiliate_id_of conv) as [affiliateId|]; [|discriminate]. simpl.
  destruct (negb (truthy affiliateId)); [by intros [= <-]|].
  destruct (ToString affiliateId) as [affiliateKey|]; [|discriminate]. simpl.
  destruct (negb (truthy _)); [by intros [= <-]|].
  destruct (gross_of conv) as [gross|]; [|discriminate]. simpl.
  destruct (_ || _); [by intros [= <-]|].
  destruct (currency_of conv) as [currency|]; [|discriminate]. simpl.
  destruct (ToString (lookup_value _)) as [partnerKey|] eqn:Hpk; [|discriminate].
  simpl. intros [= <-]. by apply credit_well_keyed.
Qed.

Lemma NoDup_keys_functional {A} (props : list (string * A)) key a b :
  NoDup (map fst props) -> (key, a) ∈ props -> (key, b) ∈ props -> a = b.
Proof.
  induction props as [|[k v] rest IH]; [by intros _ ?%elem_of_nil|].
  simpl. intros [Hk Hnd]%NoDup_cons Ha Hb.
  assert (Hin : forall x, (key, x) ∈ rest -> key ∈ map fst rest).
  { intros x Hx. apply list_elem_of_In, in_map_iff. exists (key, x).
    split; [done|]. by apply list_elem_of_In. }
  apply elem_of_cons in Ha as [Ha|Ha]; apply elem_of_cons in Hb as [Hb|Hb].
  - congruence.
  - destruct Hk. injection Ha as <- _. by eapply Hin.
  - destruct Hk. injection Hb as <- _. by eapply Hin.
  - by apply IH.
Qed.

(** X10. The aggregation keeps one bucket per partner and currency: the
    keys of the buckets are distinct, each bucket is filed under
    [String(partnerId) + ":" + currency], and two buckets whose partner
    ids have the same string and whose currencies are equal are one and
    the same bucket. *)
Theorem buckets_are_filed_once cfg affiliateToPartner allConversions bucket :
  aggregate cfg affiliateToPartner [] allConversions = Ok bucket ->
  NoDup (map fst bucket)
  /\ Forall filed bucket
  /\ forall key1 e1 key2 e2 partnerKey,
       (key1, e1) ∈ bucket -> (key2, e2) ∈ bucket ->
       ToString (bucket_partnerId e1) = Ok partnerKey ->
       ToString (bucket_partnerId e2) = Ok partnerKey ->
       bucket_currency e1 = bucket_currency e2 ->
       key1 = key2 /\ e1 = e2.
Proof.
  intros Hagg.
  assert (Hwk : well_keyed bucket).
  { eapply aggregate_well_keyed; [|exact Hagg]. split; [constructor|constructor]. }
  destruct Hwk as [Hnd Hall]. split_and!; [done|done|].
  intros key1 e1 key2 e2 pk H1 H2 Hp1 Hp2 Hcur.
  rewrite Forall_forall in Hall.
  destruct (Hall _ H1) as (pk1 & Hpk1 & Hk1), (Hall _ H2) as (pk2 & Hpk2 & Hk2).
  simpl in *.
  assert (Hkey : key1 = key2) by congruence.
  split; [done|]. rewrite <- Hkey in H2.
  by eapply NoDup_keys_functional.
Qed.

End Ledger.

(** ** The admin guard *)

Section Guard.

Lemma strip_prefix_app pattern rest :
  strip_prefix pattern (pattern +:+ rest) = Some rest.
Proof.
  induction pattern as [|c pattern IH]; simpl; [by destruct rest|].
  by rewrite Ascii.eqb_refl.
Qed.

Lemma strip_prefix_inv pattern : forall s rest,
  strip_prefix pattern s = Some rest -> s = pattern +:+ rest.
Proof.
  induction pattern as [|c pattern IH]; intros s rest; simpl.
  - by intros [= ->].
  - destruct s as [|b s]; [done|].
    destruct (Ascii.eqb_spec c b) as [->|]; [|done].
    intros Hs. by rewrite (IH _ _ Hs).
Qed.

Lemma replace_first_prefix pattern rest :
  replace_first pattern (pattern +:+ rest) = rest.
Proof.
  destruct (pattern +:+ rest) eqn:E; simpl;
    rewrite <- E, strip_prefix_app; done.
Qed.

Fixpoint has_space (s : string) : bool :=
  match s with
  | EmptyString => false
  | String c rest => Ascii.eqb c " " || has_space rest
  end.

Lemma has_space_app a b : has_space (a +:+ b) = has_space a || has_space b.
Proof.
  induction a as [|c a IH]; simpl; [done|]. by rewrite IH, orb_assoc.
Qed.

Lemma replace_first_no_space s :
  has_space s = false -> replace_first "Bearer " s = s.
Proof.
  induction s as [|c s IH]; intros Hs; [done|].
  cbn [replace_first].
  destruct (strip_prefix "Bearer " (String c s)) as [rest|] eqn:E.
  - apply strip_prefix_inv in E. rewrite E, has_space_app in Hs. done.
  - simpl in Hs. apply orb_false_iff in Hs as [_ Hs]. by rewrite IH.
Qed.

Definition fresh_record : attempts := {| count := 0; lockedUntil := 0 |}.

(** What a request does to the record of its client. *)
Definition judge (ADMIN_API_TOKEN : option string) (now : Z)
    (req : admin_request) (record : attempts) : guard_outcome * attempts :=
  if negb (lockedUntil record =? 0)%Z && (now <? lockedUntil record)%Z then
    (Refused 429 MSG_LOCKED, record)
  else if token_refused ADMIN_API_TOKEN (bearer_token req) then
    (Refused 401 MSG_UNAUTHORIZED,
     {| count := count record + 1;
        lockedUntil := if (3 <=? count record + 1)%Z then now + 7200000
                       else lockedUntil record |})
  else (Next, fresh_record).

Lemma own_property_own_set_same {A} (props : list (string * A)) key a :
  own_property (own_set props key a) key = Some a.
Proof. by rewrite own_property_own_set, String.eqb_refl. Qed.

Lemma own_property_own_set_other {A} (props : list (string * A)) key a name :
  name <> key -> own_property (own_set props key a) name = own_property props name.
Proof.
  intros Hne. rewrite own_property_own_set.
  destruct (String.eqb_spec key name); [by subst|done].
Qed.

Lemma own_set_same {A} (props : list (string * A)) key a :
  own_property props key = Some a -> own_set props key a = props.
Proof.
  induction props as [|[k v] rest IH]; simpl; [done|].
  destruct (String.eqb k key) eqn:E; [by intros [= ->]|].
  intros Hrest. by rewrite IH.
Qed.

Lemma check_attempt_judge ADMIN_API_TOKEN now req key record store :
  own_property store key = Some record ->
  let '(outcome, store1) :=
    check_attempt ADMIN_API_TOKEN now req key record store in
  outcome = (judge ADMIN_API_TOKEN now req record).1
  /\ own_property store1 key = Some (judge ADMIN_API_TOKEN now req record).2
  /\ (forall name, name <> key -> own_property store1 name = own_property store name)
  /\ (outcome = Refused 429 MSG_LOCKED -> store1 = store).
Proof.
  intros Hown. unfold check_attempt, judge.
  destruct (negb _ && _); [by split_and!|].
  destruct (token_refused _ _); simpl.
  - split_and!; [done|apply own_property_own_set_same| |done].
    intros name Hne. by apply own_property_own_set_other.
  - split_and!; [done|apply own_property_own_set_same| |done].
    intros name Hne. by apply own_property_own_set_other.
Qed.

(** The record the guard works on. *)
Definition record_of (store : list (string * attempts)) (key : string) : attempts :=
  match own_property store key with
  | Some record => record
  | None => fresh_record
  end.

Lemma requireAdmin_judge ADMIN_API_TOKEN now req store :
  inherited (client_key req) = false ->
  let key := client_key req in
  let verdict := judge ADMIN_API_TOKEN now req (record_of store key) in
  exists store1,
    requireAdmin ADMIN_API_TOKEN now req store = Some (verdict.1, store1)
    /\ own_property store1 key = Some verdict.2
    /\ (forall name, name <> key -> own_property store1 name = own_property store name)
    /\ (verdict.1 = Refused 429 MSG_LOCKED -> store1 = store).
Proof.
  intros Hkey key verdict. unfold requireAdmin, object_get. fold key.
  unfold verdict, record_of.
  destruct (own_property store key) as [record|] eqn:Hown.
  - pose proof (check_attempt_judge ADMIN_API_TOKEN now req key record store Hown)
      as Hc.
    destruct check_attempt as [outcome store1].
    destruct Hc as (-> & Hrec & Hframe & Hsame). by exists store1.
  - unfold key in *. rewrite Hkey. fold key.
    pose proof (check_attempt_judge ADMIN_API_TOKEN now req key fresh_record
                  (own_set store key fresh_record)
                  (own_property_own_set_same _ _ _)) as Hc.
    fold fresh_record.
    destruct check_attempt as [outcome store1].
    destruct Hc as (-> & Hrec & Hframe & Hsame). exists store1.
    split_and!; [done|done| |].
    + intros name Hne. rewrite Hframe by done.
      by apply own_property_own_set_other.
    + intros Hlocked. exfalso. revert Hlocked. unfold judge. simpl.
      by destruct (token_refused _ _).
Qed.

(** Requests served one after the other. *)
Fixpoint serve (ADMIN_API_TOKEN : option string)
    (arrivals : list (Z * admin_request)) (store : list (string * attempts))
  : option (list guard_outcome * list (string * attempts)) :=
  match arrivals with
  | [] => Some ([], store)
  | (now, req) :: later =>
      match requireAdmin ADMIN_API_TOKEN now req store with
      | Some (outcome, store1) =>
          match serve ADMIN_API_TOKEN later store1 with
          | Some (outcomes, store2) => Some (outcome :: outcomes, store2)
          | None => None
          end
      | None => None
      end
  end.

Definition wrong_token (ADMIN_API_TOKEN : option string) (req : admin_request) : Prop :=
  token_refused ADMIN_API_TOKEN (bearer_token req) = true.

(** X11. For a client with no failed attempt on record, three requests
    with a wrong or missing token are answered 401 each, and the third
    one locks the client: a request of this client less than two hours
    (7,200,000 ms) after the third one is answered 429 whatever its
    token, and the record then reads 3 attempts, locked until the time of
    the third request plus two hours. *)
Theorem third_failure_locks_for_two_hours ADMIN_API_TOKEN key store
    t1 t2 t3 t4 req1 req2 req3 req4 :
  inherited key = false ->
  record_of store key = fresh_record ->
  client_key req1 = key -> client_key req2 = key ->
  client_key req3 = key -> client_key req4 = key ->
  wrong_token ADMIN_API_TOKEN req1 ->
  wrong_token ADMIN_API_TOKEN req2 ->
  wrong_token ADMIN_API_TOKEN req3 ->
  (0 <= t3)%Z ->
  (t4 < t3 + 7200000)%Z ->
  exists store1,
    serve ADMIN_API_TOKEN [(t1, req1); (t2, req2); (t3, req3); (t4, req4)] store
    = Some ([Refused 401 MSG_UNAUTHORIZED; Refused 401 MSG_UNAUTHORIZED;
             Refused 401 MSG_UNAUTHORIZED; Refused 429 MSG_LOCKED], store1)
    /\ own_property store1 key
       = Some {| count := 3; lockedUntil := t3 + 7200000 |}.
Proof.
  intros Hkey Hfresh K1 K2 K3 K4 W1 W2 W3 Ht3 Ht4.
  unfold wrong_token in *.
  destruct (requireAdmin_judge ADMIN_API_TOKEN t1 req1 store)
    as (s1 & E1 & R1 & _); [by rewrite K1|].
  rewrite K1, Hfresh in *. unfold judge in E1, R1. rewrite W1 in E1, R1.
  simpl in E1, R1.
  destruct (requireAdmin_judge ADMIN_API_TOKEN t2 req2 s1)
    as (s2 & E2 & R2 & _); [by rewrite K2|].
  rewrite K2 in *. unfold record_of in E2, R2. rewrite R1 in E2, R2.
  unfold judge in E2, R2. rewrite W2 in E2, R2. simpl in E2, R2.
  destruct (requireAdmin_judge ADMIN_API_TOKEN t3 req3 s2)
    as (s3 & E3 & R3 & _); [by rewrite K3|].
  rewrite K3 in *. unfold record_of in E3, R3. rewrite R2 in E3, R3.
  unfold judge in E3, R3. rewrite W3 in E3, R3. simpl in E3, R3.
  destruct (requireAdmin_judge ADMIN_API_TOKEN t4 req4 s3)
    as (s4 & E4 & R4 & _ & Hsame); [by rewrite K4|].
  rewrite K4 in *. unfold record_of in E4, R4, Hsame. rewrite R3 in E4, R4, Hsame.
  unfold judge in E4, R4, Hsame. simpl in E4, R4, Hsame.
  assert (Hlock : (negb (t3 + 7200000 =? 0)%Z && (t4 <? t3 + 7200000)%Z) = true).
  { apply andb_true_iff. split; [apply negb_true_iff, Z.eqb_neq|apply Z.ltb_lt]; lia. }
  rewrite Hlock in E4, R4, Hsame. simpl in E4, R4, Hsame.
  exists s4. simpl. rewrite E1, E2, E3, E4. done.
Qed.

(** X12. The counter is not reset when a lock runs out: for a client with
    three or more failures on record whose lock has run out, one request
    with a wrong token is answered 401 and locks the client again, for
    two hours from that request; a request that follows within these two
    hours is answered 429. *)
Theorem expired_lock_returns_after_one_failure ADMIN_API_TOKEN key record store
    t1 t2 req1 req2 :
  own_property store key = Some record ->
  (3 <= count record)%Z ->
  (lockedUntil record <= t1)%Z ->
  (0 <= t1)%Z ->
  client_key req1 = key -> client_key req2 = key ->
  wrong_token ADMIN_API_TOKEN req1 ->
  (t2 < t1 + 7200000)%Z ->
  exists store1,
    serve ADMIN_API_TOKEN [(t1, req1); (t2, req2)] store
    = Some ([Refused 401 MSG_UNAUTHORIZED; Refused 429 MSG_LOCKED], store1)
    /\ own_property store1 key
       = Some {| count := count record + 1; lockedUntil := t1 + 7200000 |}.
Proof.
  intros Hown Hcount Hexpired Ht1 K1 K2 W1 Ht2. unfold wrong_token in *.
  simpl. unfold requireAdmin at 1, object_get. rewrite K1, Hown.
  pose proof (check_attempt_judge ADMIN_API_TOKEN t1 req1 key record store Hown)
    as Hc.
  destruct check_attempt as [o1 s1]. destruct Hc as (-> & R1 & _).
  unfold judge in *.
  assert (Hopen : (negb (lockedUntil record =? 0)%Z && (t1 <? lockedUntil record)%Z)
                  = false).
  { apply andb_false_iff. right. apply Z.ltb_ge. lia. }
  rewrite Hopen, W1 in *. simpl in *.
  assert (Hthree : (3 <=? count record + 1)%Z = true) by (apply Z.leb_le; lia).
  rewrite Hthree in R1.
  unfold requireAdmin, object_get. rewrite K2, R1.
  pose proof (check_attempt_judge ADMIN_API_TOKEN t2 req2 key _ s1 R1) as Hc.
  destruct check_attempt as [o2 s2]. destruct Hc as (-> & R2 & _ & Hsame).
  unfold judge in *. simpl in *.
  assert (Hlock : (negb (t1 + 7200000 =? 0)%Z && (t2 <? t1 + 7200000)%Z) = true).
  { apply andb_true_iff. split; [apply negb_true_iff, Z.eqb_neq|apply Z.ltb_lt]; lia. }
  rewrite Hlock in *. simpl in *. exists s2. done.
Qed.

(** X13. The guard calls [next()] only if ADMIN_API_TOKEN is set and is
    the token of the request, which is not empty, and the client was not
    locked at that time; the record of the client is then reset to no
    failure and no lock. *)
Theorem guard_passes_only_with_the_token ADMIN_API_TOKEN now req store store1 :
  requireAdmin ADMIN_API_TOKEN now req store = Some (Next, store1) ->
  ADMIN_API_TOKEN = Some (bearer_token req)
  /\ bearer_token req <> ""
  /\ own_property store1 (client_key req) = Some {| count := 0; lockedUntil := 0 |}
  /\ let record := record_of store (client_key req) in
     (lockedUntil record = 0 \/ lockedUntil record <= now)%Z.
Proof.
  unfold requireAdmin, object_get, record_of.
  assert (Hcheck : forall record s0,
            check_attempt ADMIN_API_TOKEN now req (client_key req) record s0
            = (Next, store1) ->
            ADMIN_API_TOKEN = Some (bearer_token req)
            /\ bearer_token req <> ""
            /\ own_property store1 (client_key req)
               = Some {| count := 0; lockedUntil := 0 |}
            /\ (lockedUntil record = 0 \/ lockedUntil record <= now)%Z).
  { intros record s0. unfold check_attempt.
    destruct (negb _ && _) eqn:Hlock; [discriminate|].
    destruct (token_refused _ _) eqn:Htok; [discriminate|].
    intros [= <-]. unfold token_refused in Htok.
    apply orb_false_iff in Htok as [Hne Heq].
    apply negb_false_iff in Heq.
    destruct ADMIN_API_TOKEN as [expected|]; [|done].
    apply String.eqb_eq in Heq as <-.
    split_and!; [done| |apply own_property_own_set_same|].
    - intros Hempty. by rewrite Hempty in Hne.
    - apply andb_false_iff in Hlock as [Hz|Hlt].
      + left. apply negb_false_iff in Hz. by apply Z.eqb_eq.
      + right. by apply Z.ltb_ge. }
  destruct (own_property store (client_key req)) as [record|].
  - intros [= E]. by apply (Hcheck record store).
  - destruct (inherited (client_key req)); [discriminate|].
    intros [= E]. by apply (Hcheck _ _ E).
Qed.

(** X14. A request changes no record but the one of its own client
    ([req.ip], or "global"): the record of every other key is what it
    was. *)
Theorem other_clients_are_untouched ADMIN_API_TOKEN now req store outcome store1 :
  requireAdmin ADMIN_API_TOKEN now req store = Some (outcome, store1) ->
  forall key, key <> client_key req ->
    own_property store1 key = own_property store key.
Proof.
  unfold requireAdmin, object_get. intros Hrun key Hne.
  destruct (own_property store (client_key req)) as [record|] eqn:Hown.
  - injection Hrun as Hrun.
    pose proof (check_attempt_judge ADMIN_API_TOKEN now req _ record store Hown) as Hc.
    rewrite Hrun in Hc. destruct Hc as (_ & _ & Hframe & _). by apply Hframe.
  - destruct (inherited (client_key req)); [discriminate|].
    injection Hrun as Hrun.
    pose proof (check_attempt_judge ADMIN_API_TOKEN now req (client_key req)
                  {| count := 0; lockedUntil := 0 |}
                  (own_set store (client_key req) {| count := 0; lockedUntil := 0 |})
                  (own_property_own_set_same _ _ _)) as Hc.
    rewrite Hrun in Hc. destruct Hc as (_ & _ & Hframe & _).
    rewrite Hframe by done. by apply own_property_own_set_other.
Qed.

(** X15. While a client is locked its requests are answered 429 whatever
    their token, and they change nothing: the attempts are not counted
    and the lock is not extended. *)
Theorem lock_is_not_extended ADMIN_API_TOKEN key record store arrivals :
  own_property store key = Some record ->
  lockedUntil record <> 0%Z ->
  Forall (fun arrival => client_key arrival.2 = key
                         /\ (arrival.1 < lockedUntil record)%Z) arrivals ->
  serve ADMIN_API_TOKEN arrivals store
  = Some (repeat (Refused 429 MSG_LOCKED) (List.length arrivals), store).
Proof.
  intros Hown Hlocked Hall.
  induction Hall as [|[now req] arrivals [Hkey Hnow] _ IH]; [done|].
  simpl in *. unfold requireAdmin, object_get. rewrite Hkey, Hown.
  unfold check_attempt.
  assert (Hlock : (negb (lockedUntil record =? 0)%Z && (now <? lockedUntil record)%Z)
                  = true).
  { apply andb_true_iff. split; [by apply negb_true_iff, Z.eqb_neq|by apply Z.ltb_lt]. }
  by rewrite Hlock, IH.
Qed.

(** X16. The prefix "Bearer " is not required: a request whose
    Authorization header is the bare token (a token with no space in it)
    is treated exactly as the request with "Bearer " before the
    token. *)
Theorem bearer_prefix_is_optional ADMIN_API_TOKEN now ip token store :
  has_space token = false ->
  requireAdmin ADMIN_API_TOKEN now
    {| req_ip := ip; req_authorization := Some token |} store
  = requireAdmin ADMIN_API_TOKEN now
      {| req_ip := ip; req_authorization := Some ("Bearer " +:+ token) |} store.
Proof.
  intros Hs. unfold requireAdmin, check_attempt, client_key, bearer_token.
  cbn [req_ip req_authorization].
  by rewrite (replace_first_prefix "Bearer " token), (replace_first_no_space token Hs).
Qed.

End Guard.

(** ** The routes of the ledger *)

Section RouteProperties.
Context `{Postgres}.

Definition BAD_PERIOD : http_response :=
  {| http_status := 400;
     http_payload := Message false "period (YYYY-MM) is required." |}.

Definition SYNC_FAILED : http_response :=
  {| http_status := 500;
     http_payload := Message false "Error syncing partner earnings." |}.

Lemma post_partner_earnings_sync_run env cfg body w :
  post_partner_earnings_sync env cfg body w
  = match body_field body "period" with
    | VStr periodYm =>
        if String.eqb periodYm "" then (Ok BAD_PERIOD, w)
        else
          match syncPartnerEarningsFromTapfiliate env cfg periodYm w with
          | (Ok summary, w1) =>
              (Ok {| http_status := 200; http_payload := Summary summary |}, w1)
          | (Throw _, w1) =>
              (Ok SYNC_FAILED,
               logged w1 [Console_error "Error syncing partner earnings from Tapfiliate:"])
          end
    | _ => (Ok BAD_PERIOD, w)
    end.
Proof.
  unfold post_partner_earnings_sync, try_catch.
  destruct (body_field body "period") as [| | | |periodYm| | |]; try done.
  destruct (String.eqb periodYm ""); [done|].
  unfold bind. by destruct (syncPartnerEarningsFromTapfiliate env cfg periodYm w) as [[s|e] w1].
Qed.

(** X17. The handler of POST /api/partner-earnings/sync never throws and
    always answers, with 200, 400 or 500. A 400 leaves everything
    untouched. The answer is 200 exactly when the body has a non-empty
    string [period] and the job returned a summary for it, which is the
    payload. *)
Theorem sync_route_always_answers env cfg body w :
  exists response w1,
    post_partner_earnings_sync env cfg body w = (Ok response, w1)
    /\ (http_status response = 200 \/ http_status response = 400
        \/ http_status response = 500)%Z
    /\ (http_status response = 400%Z -> w1 = w)
    /\ (http_status response = 200%Z <->
        exists periodYm summary,
          body_field body "period" = VStr periodYm
          /\ periodYm <> ""
          /\ syncPartnerEarningsFromTapfiliate env cfg periodYm w = (Ok summary, w1)
          /\ http_payload response = Summary summary).
Proof.
  rewrite post_partner_earnings_sync_run.
  destruct (body_field body "period") as [| | | |periodYm| | |] eqn:Hb;
    try (exists BAD_PERIOD, w; split_and!; [done|by right; left|done|];
         split; [done|]; by intros (p & s & ? & _)).
  destruct (String.eqb_spec periodYm "") as [->|Hne].
  { exists BAD_PERIOD, w. split_and!; [done|by right; left|done|].
    split; [done|]. by intros (p & s & [= <-] & ? & _). }
  destruct (syncPartnerEarningsFromTapfiliate env cfg periodYm w)
    as [[summary|e] w1] eqn:Hrun.
  - eexists _, w1. split_and!; [done|by left|done|].
    split; [|done]. intros _. exists periodYm, summary. by rewrite Hrun.
  - eexists SYNC_FAILED, _. split_and!; [done|by right; right|done|].
    split; [done|]. intros (p & s & [= <-] & _ & Hok & _).
    rewrite Hrun in Hok. discriminate.
Qed.

Lemma period_rejected env cfg periodYm w :
  period_format_ok periodYm = false ->
  exists e, syncPartnerEarningsFromTapfiliate env cfg periodYm w = (Throw e, w).
Proof.
  intros Hp. unfold syncPartnerEarningsFromTapfiliate.
  destruct (_ || _); [by eexists|]. rewrite Hp. by eexists.
Qed.

(** X18. With a non-empty string [period] in the body, every error of the
    job is answered 500 with the message "Error syncing partner
    earnings." after one [console.error]; in particular a period that is
    not YYYY-MM is answered 500, not 400, and nothing else is done. *)
Theorem sync_route_hides_the_cause env cfg body periodYm w :
  body_field body "period" = VStr periodYm ->
  periodYm <> "" ->
  (forall e w1,
     syncPartnerEarningsFromTapfiliate env cfg periodYm w = (Throw e, w1) ->
     post_partner_earnings_sync env cfg body w
     = (Ok SYNC_FAILED,
        logged w1 [Console_error "Error syncing partner earnings from Tapfiliate:"]))
  /\ (period_format_ok periodYm = false ->
      post_partner_earnings_sync env cfg body w
      = (Ok SYNC_FAILED,
         logged w [Console_error "Error syncing partner earnings from Tapfiliate:"])).
Proof.
  intros Hb Hne. rewrite post_partner_earnings_sync_run, Hb.
  destruct (String.eqb_spec periodYm ""); [done|]. split.
  - intros e w1 Hrun. by rewrite Hrun.
  - intros Hp. destruct (period_rejected env cfg periodYm w Hp) as [e Hrun].
    by rewrite Hrun.
Qed.

Definition MISSING_FIELDS : http_response :=
  {| http_status := 400;
     http_payload := Message false "partner_id, period, and currency are required." |}.

Definition TEST_FAILED : http_response :=
  {| http_status := 500;
     http_payload := Message false "Error creating test earnings." |}.

(** The argument the route builds from the body. *)
Definition test_args (body : value) : upsert_args :=
  {| partnerId := body_field body "partner_id";
     arg_period := body_field body "period";
     arg_currency := body_field body "currency";
     grossRevenue := body_field body "gross_revenue";
     netRevenue := body_field body "net_revenue";
     commissionRate := body_field body "commission_rate" |}.

Definition required_fields (body : value) : bool :=
  truthy (body_field body "partner_id") && truthy (body_field body "period")
  && truthy (body_field body "currency").

Lemma post_partner_earnings_test_run env body w :
  post_partner_earnings_test env body w
  = if required_fields body then
      match upsertPartnerEarnings env (test_args body) w with
      | (Ok row, w1) =>
          (Ok {| http_status := 200; http_payload := Earnings row |}, w1)
      | (Throw _, w1) =>
          (Ok TEST_FAILED,
           logged w1 [Console_error "Error creating test partner earnings:"])
      end
    else (Ok MISSING_FIELDS, w).
Proof.
  unfold post_partner_earnings_test, try_catch, required_fields.
  destruct (truthy (body_field body "partner_id")); [|done].
  destruct (truthy (body_field body "period")); [|done].
  destruct (truthy (body_field body "currency")); [|done].
  cbn [negb orb andb]. unfold bind. fold (test_args body).
  by destruct (upsertPartnerEarnings env (test_args body) w) as [[row|e] w1].
Qed.

(** X19. The handler of POST /api/partner-earnings/test never throws and
    always answers: 400 with nothing done when [partner_id], [period] or
    [currency] is missing or falsy; otherwise 200 with a row that is in
    the ledger and carries the source tag [manual_test], or 500 with the
    rows of the ledger unchanged. *)
Theorem test_route_always_answers env body w :
  exists response w1,
    post_partner_earnings_test env body w = (Ok response, w1)
    /\ (required_fields body = false ->
        response = MISSING_FIELDS /\ w1 = w)
    /\ (required_fields body = true ->
        (exists row,
           response = {| http_status := 200; http_payload := Earnings row |}
           /\ row ∈ partner_earnings (db w1)
           /\ source row = Some "manual_test")
        \/ (response = TEST_FAILED
            /\ partner_earnings (db w1) = partner_earnings (db w))).
Proof.
  rewrite post_partner_earnings_test_run.
  destruct (required_fields body); [|by exists MISSING_FIELDS, w].
  destruct (upsertPartnerEarnings env (test_args body) w) as [[row|e] w1] eqn:E.
  - eexists _, w1. split_and!; [done|done|]. intros _. left. exists row.
    apply upsert_ok in E as (v & now & Hv & _ & Hins & _).
    apply upsert_parameters_inv in Hv as (rate & net & gross & _ & _ & _ & Hv).
    apply bind_parameters_inv in Hv as (_ & _ & _ & _ & Hs).
    apply insert_on_conflict_returned in Hins as [(_ & _ & _ & _ & Hsrc) Hin].
    split_and!; [done|done|]. by rewrite Hsrc, Hs.
  - eexists TEST_FAILED, _. split_and!; [done|done|]. intros _. right.
    split; [done|]. by apply upsert_throw in E as (Hrows & _).
Qed.

Lemma unique_index_conflict v (rows : list earning) r1 r2 :
  unique_index rows -> r1 ∈ rows -> r2 ∈ rows ->
  conflicts v r1 = true -> conflicts v r2 = true -> r1 = r2.
Proof.
  unfold unique_index, conflicts.
  destruct (new_partner_id v) as [p|]; [|done].
  intros Hu H1 H2 K1%bool_decide_eq_true K2%bool_decide_eq_true.
  induction rows as [|r rows IH]; [by apply elem_of_nil in H1|].
  change (omap index_key (r :: rows))
    with (match index_key r with
          | Some k => k :: omap index_key rows
          | None => omap index_key rows
          end) in Hu.
  assert (Hin : forall x, x ∈ rows ->
            index_key x = Some (p, new_period v, new_currency v) ->
            (p, new_period v, new_currency v) ∈ omap index_key rows).
  { intros x Hx Hk. apply list_elem_of_omap. by exists x. }
  apply elem_of_cons in H1 as [->|H1], H2 as [->|H2]; [done| | |].
  - rewrite K1 in Hu. apply NoDup_cons in Hu as [Hn _]. destruct Hn. by eapply Hin.
  - rewrite K2 in Hu. apply NoDup_cons in Hu as [Hn _]. destruct Hn. by eapply Hin.
  - apply IH; [|done|done]. destruct (index_key r); [by apply NoDup_cons in Hu as [_ ?]|done].
Qed.

Lemma insert_on_conflict_conflicts v nextval now rows row rows' :
  new_partner_id v <> None ->
  insert_on_conflict v nextval now rows = (row, rows') ->
  conflicts v row = true.
Proof.
  intros Hp. unfold insert_on_conflict.
  destruct (List.find _ rows) as [r|] eqn:E; intros [= <- <-].
  - apply find_conflict_elem in E as [_ Hc]. by rewrite conflicts_do_update.
  - by apply conflicts_inserted.
Qed.

Lemma upsert_twice env a w w1' :
  unique_index (partner_earnings (db w)) ->
  is_null (partnerId a) = false ->
  let first := upsertPartnerEarnings env a w in
  db w1' = db (snd first) ->
  let second := upsertPartnerEarnings env a w1' in
  fst second = fst first
  /\ partner_earnings (db (snd second)) = partner_earnings (db (snd first)).
Proof.
  intros Hu Hnull first Hdb second. unfold second.
  destruct first as [[row|e] w1] eqn:E1; cbn [fst snd] in *.
  - apply upsert_ok in E1 as (v & now & Hv & Hfk & Hins & Hp & _).
    assert (Hpid : new_partner_id v <> None).
    { apply upsert_parameters_inv in Hv as (? & ? & ? & _ & _ & _ & Hb).
      by eapply bind_parameters_partner. }
    destruct (upsertPartnerEarnings env a w1') as [[row2|e2] w2] eqn:E2; cbn [fst snd].
    + apply upsert_ok in E2 as (v2 & now2 & Hv2 & _ & Hins2 & _).
      rewrite Hv in Hv2. injection Hv2 as <-. rewrite Hdb in Hins2.
      assert (Hrows : partner_earnings (db w2) = partner_earnings (db w1)).
      { eapply (upserted_again [v]).
        - econstructor; [done|exact Hins|constructor].
        - econstructor; [done|exact Hins2|constructor]. }
      split; [|done]. f_equal.
      apply (unique_index_conflict v (partner_earnings (db w1))).
      * by eapply insert_on_conflict_unique.
      * rewrite <- Hrows. by eapply insert_on_conflict_returned.
      * by eapply insert_on_conflict_returned.
      * by eapply insert_on_conflict_conflicts.
      * by eapply insert_on_conflict_conflicts.
    + exfalso. apply upsert_throw in E2 as (_ & _ & [Hthrow|(v2 & Hv2 & Hfk2 & _)]).
      * congruence.
      * rewrite Hv in Hv2. injection Hv2 as <-.
        rewrite (references_partner_partners v (db w1') (db w)) in Hfk2
          by (by rewrite Hdb).
        congruence.
  - apply upsert_throw in E1 as (Hrows & Hp & Hwhy).
    destruct (upsertPartnerEarnings env a w1') as [[row2|e2] w2] eqn:E2; cbn [fst snd].
    + exfalso. apply upsert_ok in E2 as (v2 & now2 & Hv2 & Hfk2 & _).
      destruct Hwhy as [Hthrow|(v & Hv & Hfk & _)]; [congruence|].
      rewrite Hv in Hv2. injection Hv2 as <-.
      rewrite (references_partner_partners v (db w1') (db w)) in Hfk2
        by (by rewrite Hdb).
      congruence.
    + apply upsert_throw in E2 as (Hrows2 & _ & Hwhy2).
      split; [|by rewrite Hrows2, Hdb].
      destruct Hwhy as [Hthrow|(v & Hv & _ & ->)],
               Hwhy2 as [Hthrow2|(v2 & Hv2 & _ & ->)]; congruence.
Qed.

(** X20. On a ledger that satisfies its unique index, posting the same
    body twice to the test route gives the same answer twice, and the
    second request leaves the rows of the ledger as the first one left
    them. *)
Theorem test_route_twice env body w :
  unique_index (partner_earnings (db w)) ->
  let first := post_partner_earnings_test env body w in
  let second := post_partner_earnings_test env body (snd first) in
  fst second = fst first
  /\ partner_earnings (db (snd second)) = partner_earnings (db (snd first)).
Proof.
  intros Hu first second. unfold second, first.
  rewrite !post_partner_earnings_test_run.
  destruct (required_fields body) eqn:Hreq; [|done].
  assert (Hnull : is_null (partnerId (test_args body)) = false).
  { apply truthy_not_null. unfold required_fields in Hreq.
    by apply andb_true_iff in Hreq as [[? _]%andb_true_iff _]. }
  pose proof (upsert_twice env (test_args body) w) as Htwice.
  cbv zeta in Htwice.
  destruct (upsertPartnerEarnings env (test_args body) w) as [[row|e] w1];
    cbn [fst snd] in *.
  - destruct (Htwice w1 Hu Hnull eq_refl) as [Hout Hrows].
    destruct (upsertPartnerEarnings env (test_args body) w1) as [[row2|e2] w2];
      cbn [fst snd] in *; [|discriminate].
    by injection Hout as ->.
  - destruct (Htwice (logged w1 [Console_error "Error creating test partner earnings:"])
                Hu Hnull eq_refl) as [Hout Hrows].
    destruct (upsertPartnerEarnings env (test_args body) (logged w1 _))
      as [[row2|e2] w2]; cbn [fst snd] in *; [discriminate|].
    done.
Qed.

(** X21. Behind the guard, a request whose token is empty or is not
    ADMIN_API_TOKEN does not reach the handler: the answer is the 401 or
    the 429 of the guard, and no query, request or console output has
    been made. *)
Theorem refused_requests_do_nothing ADMIN_API_TOKEN now req handler store w
    out store1 w1 :
  guarded ADMIN_API_TOKEN now req handler store w = Some (out, store1, w1) ->
  ADMIN_API_TOKEN <> Some (bearer_token req) \/ bearer_token req = "" ->
  w1 = w
  /\ (out = Ok {| http_status := 401;
                  http_payload := Message false MSG_UNAUTHORIZED |}
      \/ out = Ok {| http_status := 429;
                     http_payload := Message false MSG_LOCKED |}).
Proof.
  intros Hrun Hbad.
  assert (Hrefused : token_refused ADMIN_API_TOKEN (bearer_token req) = true).
  { unfold token_refused. destruct Hbad as [Hne| ->]; [|done].
    apply orb_true_iff. right. apply negb_true_iff.
    destruct ADMIN_API_TOKEN as [expected|]; [|done].
    apply String.eqb_neq. congruence. }
  assert (Hcheck : forall record s0,
            (check_attempt ADMIN_API_TOKEN now req (client_key req) record s0).1
            = Refused 401 MSG_UNAUTHORIZED
            \/ (check_attempt ADMIN_API_TOKEN now req (client_key req) record s0).1
               = Refused 429 MSG_LOCKED).
  { intros record s0. unfold check_attempt. destruct (negb _ && _); [by right|].
    rewrite Hrefused. by left. }
  revert Hrun. unfold guarded, requireAdmin.
  destruct (object_get store (client_key req)) as [record| |]; [| |].
  - specialize (Hcheck record store).
    destruct check_attempt as [outcome s1]. simpl in Hcheck.
    destruct Hcheck as [-> | ->]; intros [= <- <- <-]; auto.
  - discriminate.
  - specialize (Hcheck {| count := 0; lockedUntil := 0 |}
                  (own_set store (client_key req) {| count := 0; lockedUntil := 0 |})).
    destruct check_attempt as [outcome s1]. simpl in Hcheck.
    destruct Hcheck as [-> | ->]; intros [= <- <- <-]; auto.
Qed.

End RouteProperties.

(** ** Onboarding *)

Section OnboardingProperties.
Context `{PostgresText} `{Strings}.

(** *** Names *)

Lemma split_space_not_nil s : split_space s <> [].
Proof.
  destruct s as [|c s]; simpl; [done|].
  destruct (Ascii.eqb c " "); [done|]. by destruct (split_space s).
Qed.

Lemma join_split_space s : join_space (split_space s) = s.
Proof.
  induction s as [|c s IH]; simpl; [done|].
  destruct (Ascii.eqb_spec c " ") as [->|Hc].
  - pose proof (split_space_not_nil s) as Hne.
    destruct (split_space s) as [|p ps] eqn:E; [done|].
    cbn [join_space]. rewrite <- IH. done.
  - pose proof (split_space_not_nil s) as Hne.
    destruct (split_space s) as [|p ps] eqn:E; [done|].
    rewrite <- IH. by destruct ps.
Qed.

Lemma split_space_first s :
  has_space (hd "" (split_space s)) = false
  /\ (has_space s = false -> split_space s = [s]).
Proof.
  induction s as [|c s [IH1 IH2]]; simpl; [done|].
  destruct (Ascii.eqb_spec c " ") as [->|Hc]; [done|].
  pose proof (split_space_not_nil s) as Hne.
  destruct (split_space s) as [|p ps] eqn:E; [done|]. simpl in *.
  split.
  - apply orb_false_iff. split; [by apply Ascii.eqb_neq|done].
  - intros Hs. by injection (IH2 Hs) as -> ->.
Qed.

Lemma split_space_more s :
  has_space s = true -> tl (split_space s) <> [].
Proof.
  induction s as [|c s IH]; simpl; [done|].
  destruct (Ascii.eqb_spec c " ") as [->|Hc].
  - intros _. apply split_space_not_nil.
  - simpl. intros Hs. specialize (IH Hs).
    by destruct (split_space s) as [|p ps].
Qed.

(** X22. The name sent to Tapfiliate is cut at the first space of the
    trimmed name: the first name has no space, and the trimmed name is
    the first name, one space and the last name; a trimmed name with no
    space is the first name, and the last name is empty. *)
Theorem name_is_split_at_the_first_space (name first last : string) :
  split_name (VStr name) = Ok (first, last) ->
  has_space first = false
  /\ if has_space (String_trim name)
     then String_trim name = first +:+ " " +:+ last
     else String_trim name = first /\ last = "".
Proof.
  unfold split_name.
  assert (Hname : (if truthy (VStr name) then VStr name else VStr "") = VStr name).
  { simpl. destruct (String.eqb_spec name "") as [->|]; done. }
  rewrite Hname. intros [= <- <-]. set (t := String_trim name).
  split; [apply split_space_first|].
  destruct (has_space t) eqn:Hs.
  - pose proof (join_split_space t) as Hjoin.
    pose proof (split_space_more t Hs) as Hmore.
    destruct (split_space t) as [|p ps]; [done|]. simpl in *.
    destruct ps; [done|]. by rewrite <- Hjoin.
  - destruct (split_space_first t) as [_ Hone]. by rewrite (Hone Hs).
Qed.

(** *** Runs *)

Definition noted (o : office) (events : list office_event) : office :=
  {| tables := tables o; journal := journal o ++ events |}.

Lemma noted_nil o : noted o [] = o.
Proof. destruct o. unfold noted. simpl. by rewrite app_nil_r. Qed.

Lemma noted_noted o a b : noted (noted o a) b = noted o (a ++ b).
Proof. unfold noted. simpl. by rewrite app_assoc. Qed.

(** The requests of a journal, in the order they were sent. *)
Definition posts (events : list office_event) : list http_request :=
  omap (fun e => match e with Http r => Some r | _ => None end) events.

(** What the journal gained between two states. *)
Definition journal_since (o o' : office) : list office_event :=
  drop (List.length (journal o)) (journal o').

Lemma journal_since_noted o events : journal_since o (noted o events) = events.
Proof. unfold journal_since, noted. simpl. by rewrite drop_app_length. Qed.

Lemma nbind_ok {A B} (m : N A) (k : A -> N B) o a o1 :
  m o = (Ok a, o1) -> nbind m k o = k a o1.
Proof. unfold nbind. by intros ->. Qed.

Lemma nbind_throw {A B} (m : N A) (k : A -> N B) o e o1 :
  m o = (Throw e, o1) -> nbind m k o = (Throw e, o1).
Proof. unfold nbind. by intros ->. Qed.

Lemma jot_run e o : jot e o = (Ok tt, noted o [e]).
Proof. reflexivity. Qed.

Lemma console_run level message o :
  console level message o = (Ok tt, noted o [Console level message]).
Proof. reflexivity. Qed.

Lemma lift_ensureV2Tables_run o :
  lift_job ensureV2Tables o = (Ok tt, noted o (Job <$> ddl_events)).
Proof.
  unfold lift_job. rewrite ensureV2Tables_run. unfold noted, logged. simpl.
  by destruct o as [[]].
Qed.

(** *** What a function keeps *)

Section Kept.
Variable R : office -> office -> Prop.
Hypothesis R_refl : forall o, R o o.
Hypothesis R_trans : forall o1 o2 o3, R o1 o2 -> R o2 o3 -> R o1 o3.

Definition kept {A} (m : N A) : Prop := forall o, R o (snd (m o)).

Lemma kept_ret {A} (a : A) : kept (nret a).
Proof using R_refl. intros o. apply R_refl. Qed.

Lemma kept_lift {A} (r : result A) : kept (nlift r).
Proof using R_refl. intros o. apply R_refl. Qed.

Lemma kept_bind {A B} (m : N A) (k : A -> N B) :
  kept m -> (forall a, kept (k a)) -> kept (nbind m k).
Proof using R_trans.
  intros Hm Hk o. unfold nbind. specialize (Hm o).
  destruct (m o) as [[a|e] o1]; simpl in *; [|done].
  eapply R_trans; [exact Hm | apply Hk].
Qed.

Lemma kept_try {A} (m : N A) (h : exn -> N A) :
  kept m -> (forall e, kept (h e)) -> kept (ntry m h).
Proof using R_trans.
  intros Hm Hh o. unfold ntry. specialize (Hm o).
  destruct (m o) as [[a|e] o1]; simpl in *; [done|].
  eapply R_trans; [exact Hm | apply Hh].
Qed.

(** Everything that only writes to the journal. *)
Hypothesis R_noted : forall o events, R o (noted o events).

Lemma kept_jot e : kept (jot e).
Proof using R_noted. intros o. apply R_noted. Qed.

Lemma kept_console level message : kept (console level message).
Proof using R_noted. intros o. apply R_noted. Qed.

Lemma kept_post srv r : kept (post srv r).
Proof using R_noted.
  intros o. unfold post. destruct (http srv r); apply (R_noted o [Http r]).
Qed.

Lemma kept_ensureV2Tables : kept (lift_job ensureV2Tables).
Proof using R_noted. intros o. rewrite lift_ensureV2Tables_run. apply R_noted. Qed.

Lemma kept_select_application applicationId : kept (select_application applicationId).
Proof using R_noted.
  intros o. unfold select_application.
  destruct (is_null applicationId); [apply (R_noted o [_])|].
  destruct (int4_in applicationId); apply (R_noted o [_]).
Qed.

Lemma kept_create_affiliate srv cfg email name failed missing :
  kept (create_affiliate srv cfg email name failed missing).
Proof using R_refl R_trans R_noted.
  unfold create_affiliate.
  apply kept_bind; [apply kept_lift|]. intros names.
  apply kept_bind; [apply kept_post|]. intros createRes.
  destruct (negb (ok createRes)).
  { apply kept_bind; [apply kept_console|]. intros _. apply kept_ret. }
  destruct (negb (truthy _)).
  { apply kept_bind; [apply kept_console|]. intros _. apply kept_ret. }
  apply kept_bind; [apply kept_lift|]. intros created_id.
  destruct (negb (truthy _)); [|apply kept_ret].
  apply kept_bind; [apply kept_console|]. intros _. apply kept_ret.
Qed.

Lemma kept_add_to_program srv cfg affiliateId failed :
  kept (add_to_program srv cfg affiliateId failed).
Proof using R_refl R_trans R_noted.
  unfold add_to_program.
  apply kept_bind; [apply kept_post|]. intros progRes.
  destruct (negb (ok progRes)); [|apply kept_ret].
  apply kept_bind; [apply kept_console|]. intros _. apply kept_ret.
Qed.

Hypothesis R_update_affiliate : forall affiliateId applicationId,
  kept (update_application_affiliate affiliateId applicationId).
Hypothesis R_insert_log : forall action applicationId details,
  kept (insert_admin_log action applicationId details).

Lemma kept_syncTapfiliateAffiliate srv cfg applicationId :
  kept (syncTapfiliateAffiliate srv cfg applicationId).
Proof using R_refl R_trans R_noted R_update_affiliate R_insert_log.
  unfold syncTapfiliateAffiliate.
  apply kept_try; [|intros; apply kept_console].
  destruct (_ || _); [apply kept_console|].
  apply kept_bind; [apply kept_jot|]. intros _.
  apply kept_bind; [apply kept_select_application|]. intros rows.
  destruct rows as [|appRow rows]; [apply kept_console|].
  destruct (negb (truthy (column (app_email appRow)))); [apply kept_console|].
  apply kept_bind.
  - destruct (negb (truthy (column (app_affiliate appRow)))); [|apply kept_ret].
    apply kept_bind; [apply kept_create_affiliate|]. intros created.
    destruct created as [affiliateId|]; [|apply kept_ret].
    apply kept_bind; [apply R_update_affiliate|]. intros _. apply kept_ret.
  - intros known. destruct known as [affiliateId|]; [|apply kept_ret].
    apply kept_bind; [apply kept_add_to_program|]. intros added.
    destruct added; [|apply kept_ret].
    apply kept_bind; [apply kept_jot|]. intros _.
    apply kept_bind; [apply kept_lift|]. intros text.
    apply R_insert_log.
Qed.

Hypothesis R_update_approved : forall srv applicationId,
  kept (update_application_approved srv applicationId).
Hypothesis R_insert_partner : forall applicationId,
  kept (insert_partner_for_application applicationId).

Lemma kept_post_approve srv cfg id : kept (post_approve srv cfg id).
Proof using R_refl R_trans R_noted R_update_affiliate R_insert_log
  R_update_approved R_insert_partner.
  unfold post_approve.
  apply kept_bind; [|intros; apply kept_ret].
  apply kept_try.
  - apply kept_bind; [apply kept_jot|]. intros _.
    apply kept_bind; [apply R_update_approved|]. intros _.
    apply kept_bind; [apply kept_jot|]. intros _.
    apply kept_bind; [apply R_insert_log|]. intros _.
    apply kept_bind; [apply kept_ensureV2Tables|]. intros _.
    apply kept_bind; [apply R_insert_partner|]. intros _.
    apply kept_bind; [|intros; apply kept_ret].
    apply kept_try; [apply kept_syncTapfiliateAffiliate|intros; apply kept_console].
  - intros e. apply kept_bind; [apply kept_console|]. intros _. apply kept_ret.
Qed.

End Kept.

(** A function that logs what it catches returns normally. *)
Lemma ntry_console (m : N unit) level message o :
  exists o', ntry m (fun _ => console level message) o = (Ok tt, o').
Proof.
  unfold ntry. destruct (m o) as [[[]|e] o1]; [by eexists|].
  rewrite console_run. by eexists.
Qed.

(** *** The waitlist *)

(** X23. [forwardEmailToLanding] never throws and never touches the
    tables; it posts [{ email }] once to LANDING_WAITLIST_URL when the
    email is truthy and the URL is set, and sends nothing otherwise. *)
Theorem waitlist_forwarding_never_fails srv LANDING_WAITLIST_URL email o :
  exists o',
    forwardEmailToLanding srv LANDING_WAITLIST_URL email o = (Ok tt, o')
    /\ tables o' = tables o
    /\ posts (journal_since o o')
       = if truthy email && negb (unset LANDING_WAITLIST_URL)
         then [ {| http_to := Landing (default "" LANDING_WAITLIST_URL);
                   http_api_key := None;
                   http_body := VObj [("email", email)] |} ]
         else [].
Proof.
  unfold forwardEmailToLanding, ntry.
  destruct (truthy email); cbn [negb andb].
  2:{ exists o. split_and!; [done|done|].
      rewrite <- (noted_nil o) at 2. by rewrite journal_since_noted. }
  destruct (unset LANDING_WAITLIST_URL); cbn [negb].
  { rewrite console_run. eexists. split_and!; [done|done|].
    by rewrite journal_since_noted. }
  unfold nbind, post.
  destruct (http srv _) as [res|].
  - destruct (negb (ok res)).
    + rewrite console_run. eexists. split_and!; [done|done|].
      unfold noted, journal_since. simpl.
      by rewrite <- app_assoc, drop_app_length.
    + unfold nret. eexists. split_and!; [done|done|].
      unfold journal_since. simpl. by rewrite drop_app_length.
  - rewrite console_run. eexists. split_and!; [done|done|].
    unfold noted, journal_since. simpl.
    by rewrite <- app_assoc, drop_app_length.
Qed.

(** *** Approval *)

Definition same_links (o o' : office) : Prop :=
  linked_partners (job_view (tables o')) = linked_partners (job_view (tables o))
  /\ earnings (tables o') = earnings (tables o).

Definition same_partners (o o' : office) : Prop :=
  partner_rows (tables o') = partner_rows (tables o)
  /\ partners_id_seq (tables o') = partners_id_seq (tables o).

Lemma same_partners_update_affiliate affiliateId applicationId :
  kept same_partners (update_application_affiliate affiliateId applicationId).
Proof.
  intros o. unfold update_application_affiliate.
  destruct (if is_null affiliateId then _ else _) as [a|]; [|done].
  by destruct (if is_null applicationId then _ else _) as [i|].
Qed.

Lemma same_partners_insert_log action applicationId details :
  kept same_partners (insert_admin_log action applicationId details).
Proof.
  intros o. unfold insert_admin_log.
  destruct (if is_null applicationId then _ else _) as [i|]; [|done].
  by destruct (if is_null details then _ else _) as [t|].
Qed.

Lemma same_partners_update_approved srv applicationId :
  kept same_partners (update_application_approved srv applicationId).
Proof.
  intros o. unfold update_application_approved.
  by destruct (if is_null applicationId then _ else _) as [i|].
Qed.

(** X24. [syncTapfiliateAffiliate] never writes to [partners]: the id of
    the affiliate goes to [partner_applications] only. So approving an
    application leaves the partners that are linked to an affiliate, the
    rows the earnings job reads, as they were, and the ledger too. *)
Theorem approval_never_links_a_partner srv cfg :
  (forall applicationId o,
     same_partners o (snd (syncTapfiliateAffiliate srv cfg applicationId o)))
  /\ (forall id o, same_links o (snd (post_approve srv cfg id o))).
Proof.
  split.
  - intros applicationId. apply (kept_syncTapfiliateAffiliate same_partners).
    + by intros ?.
    + intros o1 o2 o3 [? ?] [? ?]. split; congruence.
    + by intros ? ?.
    + apply same_partners_update_affiliate.
    + apply same_partners_insert_log.
  - assert (Hsame : forall o o', same_partners o o' ->
              earnings (tables o') = earnings (tables o) -> same_links o o').
    { intros o o' [Hrows _] He. split; [|done].
      unfold linked_partners, job_view. simpl. by rewrite Hrows. }
    intros id. apply (kept_post_approve same_links).
    + by intros ?.
    + intros o1 o2 o3 [? ?] [? ?]. split; congruence.
    + by intros ? ?.
    + intros affiliateId applicationId o. apply Hsame.
      * apply same_partners_update_affiliate.
      * unfold update_application_affiliate.
        destruct (if is_null affiliateId then _ else _) as [a|]; [|done].
        by destruct (if is_null applicationId then _ else _) as [i|].
    + intros action applicationId details o. apply Hsame.
      * apply same_partners_insert_log.
      * unfold insert_admin_log.
        destruct (if is_null applicationId then _ else _) as [i|]; [|done].
        by destruct (if is_null details then _ else _) as [t|].
    + intros srv0 applicationId o. apply Hsame.
      * apply same_partners_update_approved.
      * unfold update_application_approved.
        by destruct (if is_null applicationId then _ else _) as [i|].
    + intros applicationId o. unfold insert_partner_for_application.
      destruct (if is_null applicationId then _ else _) as [i|]; [|done].
      split; [|done]. simpl.
      destruct (match i with Some _ => _ | None => false end); [done|].
      unfold linked_partners, job_view. simpl.
      rewrite fmap_app, omap_app. simpl. by rewrite app_nil_r.
Qed.

Lemma same_partners_refl o : same_partners o o.
Proof. done. Qed.

Lemma same_partners_trans o1 o2 o3 :
  same_partners o1 o2 -> same_partners o2 o3 -> same_partners o1 o3.
Proof. intros [? ?] [? ?]. split; congruence. Qed.

Lemma same_partners_noted o events : same_partners o (noted o events).
Proof. done. Qed.

Lemma same_partners_syncTapfiliateAffiliate srv cfg applicationId :
  kept same_partners (syncTapfiliateAffiliate srv cfg applicationId).
Proof.
  apply kept_syncTapfiliateAffiliate.
  - apply same_partners_refl.
  - apply same_partners_trans.
  - apply same_partners_noted.
  - apply same_partners_update_affiliate.
  - apply same_partners_insert_log.
Qed.

Lemma same_partners_sync srv cfg applicationId level message :
  kept same_partners
    (ntry (syncTapfiliateAffiliate srv cfg applicationId)
       (fun _ => console level message)).
Proof.
  apply kept_try.
  - apply same_partners_trans.
  - apply same_partners_syncTapfiliateAffiliate.
  - intros e. apply kept_console. apply same_partners_noted.
Qed.

Definition APPROVED : http_response :=
  {| http_status := 200;
     http_payload := Message true "Partner application approved." |}.

(** The partner an approval creates when the application has none. *)
Definition partner_for (c : crm) (i : Z) : partner_row :=
  {| row_id := partners_id_seq c; row_application_id := Some i;
     row_affiliate := None |}.

Lemma post_approve_run srv cfg id i o :
  int4_in (VStr id) = Some i ->
  exists o',
    post_approve srv cfg id o = (Ok APPROVED, o')
    /\ partner_rows (tables o')
       = if bool_decide (Some i ∈ row_application_id <$> partner_rows (tables o))
         then partner_rows (tables o)
         else partner_rows (tables o) ++ [partner_for (tables o) i].
Proof.
  intros Hi. unfold post_approve.
  set (o1 := noted o [Sql ALTER_TABLE_add_approval_columns]).
  destruct (update_application_approved srv (VStr id) o1) as [r2 o2] eqn:E2.
  assert (A2 : r2 = Ok tt /\ same_partners o1 o2).
  { revert E2. unfold update_application_approved. simpl. rewrite Hi. simpl.
    by intros [= <- <-]. }
  destruct A2 as [-> S2].
  set (o3 := noted o2 [Sql CREATE_TABLE_admin_logs]).
  destruct (insert_admin_log "approve" (VStr id) VNull o3) as [r4 o4] eqn:E4.
  assert (A4 : r4 = Ok tt /\ same_partners o3 o4).
  { revert E4. unfold insert_admin_log. simpl. rewrite Hi. simpl.
    by intros [= <- <-]. }
  destruct A4 as [-> S4].
  set (o5 := noted o4 (Job <$> ddl_events)).
  destruct (insert_partner_for_application (VStr id) o5) as [r6 o6] eqn:E6.
  assert (A6 : r6 = Ok tt
               /\ partner_rows (tables o6)
                  = if bool_decide (Some i ∈ row_application_id <$> partner_rows (tables o5))
                    then partner_rows (tables o5)
                    else partner_rows (tables o5) ++ [partner_for (tables o5) i]).
  { revert E6. unfold insert_partner_for_application. simpl. rewrite Hi. simpl.
    by intros [= <- <-]. }
  destruct A6 as [-> R6].
  destruct (ntry_console (syncTapfiliateAffiliate srv cfg (VStr id)) "error"
              "Unhandled Tapfiliate sync error:" o6) as (o7 & E7).
  pose proof (same_partners_sync srv cfg (VStr id) "error"
                "Unhandled Tapfiliate sync error:" o6) as S7.
  rewrite E7 in S7. simpl in S7.
  exists o7. split.
  - unfold nbind at 1, ntry at 1.
    rewrite (nbind_ok _ _ o tt o1) by apply jot_run.
    rewrite (nbind_ok _ _ _ _ _ E2).
    rewrite (nbind_ok _ _ o2 tt o3) by apply jot_run.
    rewrite (nbind_ok _ _ _ _ _ E4).
    rewrite (nbind_ok _ _ o4 tt o5) by apply lift_ensureV2Tables_run.
    rewrite (nbind_ok _ _ _ _ _ E6).
    rewrite (nbind_ok _ _ _ _ _ E7). done.
  - destruct S7 as [-> _]. rewrite R6.
    assert (Hrows : partner_rows (tables o5) = partner_rows (tables o)).
    { destruct S2 as [S2 _], S4 as [S4 _]. simpl in *. congruence. }
    assert (Hseq : partners_id_seq (tables o5) = partners_id_seq (tables o)).
    { destruct S2 as [_ S2], S4 as [_ S4]. simpl in *. congruence. }
    unfold partner_for. by rewrite Hrows, Hseq.
Qed.

(** X25. With the table [partner_applications] in place, approving an
    id that reads as an INT answers 200 whatever Tapfiliate does, whether
    or not an application has this id, and leaves a partner row for the
    id; approving it again answers the same and adds no second partner
    row. *)
Theorem approving_twice_adds_one_partner srv cfg id i o :
  int4_in (VStr id) = Some i ->
  let first := post_approve srv cfg id o in
  let second := post_approve srv cfg id (snd first) in
  fst first = Ok APPROVED
  /\ fst second = Ok APPROVED
  /\ (exists row,
        row ∈ partner_rows (tables (snd first))
        /\ row_application_id row = Some i)
  /\ partner_rows (tables (snd second)) = partner_rows (tables (snd first)).
Proof.
  intros Hi first second. unfold second, first.
  destruct (post_approve_run srv cfg id i o Hi) as (o1 & -> & R1). cbn [fst snd].
  destruct (post_approve_run srv cfg id i o1 Hi) as (o2 & -> & R2). cbn [fst snd].
  assert (Hrow : Some i ∈ row_application_id <$> partner_rows (tables o1)).
  { rewrite R1. destruct (bool_decide _) eqn:Hd.
    - by apply bool_decide_eq_true in Hd.
    - rewrite fmap_app. apply elem_of_app. right. simpl.
      by apply list_elem_of_singleton. }
  split_and!; [done|done| |].
  - apply list_elem_of_fmap in Hrow as (row & Hid & Hin). by exists row.
  - rewrite R2. by rewrite bool_decide_eq_true_2.
Qed.

(** *** The affiliate of a checkout *)

Definition same_tables (o o' : office) : Prop := tables o' = tables o.

Lemma same_tables_trans o1 o2 o3 :
  same_tables o1 o2 -> same_tables o2 o3 -> same_tables o1 o3.
Proof. unfold same_tables. congruence. Qed.

Lemma same_tables_create srv cfg email name failed missing :
  kept same_tables (create_affiliate srv cfg email name failed missing).
Proof. apply kept_create_affiliate; [done|apply same_tables_trans|done]. Qed.

Lemma same_tables_program srv cfg affiliateId failed :
  kept same_tables (add_to_program srv cfg affiliateId failed).
Proof. apply kept_add_to_program; [done|apply same_tables_trans|done]. Qed.

Lemma create_affiliate_truthy srv cfg email name failed missing o affiliateId o' :
  create_affiliate srv cfg email name failed missing o = (Ok (Some affiliateId), o') ->
  truthy affiliateId = true.
Proof.
  unfold create_affiliate, nbind, nlift.
  destruct (split_name name) as [names|]; [|done].
  destruct (post srv _ o) as [[createRes|] o1]; [|done].
  destruct (negb (ok createRes)); [done|].
  destruct (negb (truthy _)); [done|].
  destruct (get _ "id") as [created_id|]; [|done].
  destruct (truthy created_id) eqn:Ht; [|done].
  simpl. unfold nret. by intros [= <- _].
Qed.

Definition add_partner (c : crm) (row : partner_row) : crm :=
  {| applications := applications c;
     partner_rows := partner_rows c ++ [row];
     partners_id_seq := partners_id_seq c + 1;
     admin_logs := admin_logs c;
     earnings := earnings c;
     earnings_id_seq := earnings_id_seq c |}.

Lemma added_partner_is_resolved c row affiliate :
  row_affiliate row = Some affiliate ->
  affiliate <> "" -> affiliate <> "__proto__" ->
  own_property (affiliate_map (linked_partners (job_view (add_partner c row))))
    affiliate
  = Some (row_id row).
Proof.
  intros Ha Hne Hproto.
  unfold linked_partners, job_view, add_partner. simpl.
  rewrite fmap_app, omap_app. simpl. rewrite Ha. simpl.
  rewrite affiliate_map_fold, fold_left_app. simpl.
  destruct (String.eqb_spec affiliate ""); [done|].
  destruct (String.eqb_spec affiliate "__proto__"); [done|].
  apply own_property_own_set_same.
Qed.

Definition creation_request cfg (email : value) (names : string * string)
  : http_request :=
  {| http_to := Affiliates;
     http_api_key := TAPFILIATE_API_KEY cfg;
     http_body := VObj [ ("email", email);
                         ("firstname", or_undefined names.1);
                         ("lastname", or_undefined names.2) ] |}.

Definition join_request cfg (affiliateId : value) : http_request :=
  {| http_to := Program_affiliates (default "" (TAPFILIATE_PROGRAM_ID cfg));
     http_api_key := TAPFILIATE_API_KEY cfg;
     http_body := VObj [ ("affiliate", VObj [("id", affiliateId)]);
                         ("approved", VBool true) ] |}.

Ltac journal :=
  unfold journal_since, noted; simpl; rewrite <- ?app_assoc;
  rewrite drop_app_length; reflexivity.

Lemma create_affiliate_some srv cfg email name failed missing o created_id o' :
  create_affiliate srv cfg email name failed missing o = (Ok (Some created_id), o')
  <-> exists names res created,
        split_name name = Ok names
        /\ http srv (creation_request cfg email names) = Some res
        /\ ok res = true
        /\ json res = Some created
        /\ truthy created = true
        /\ get created "id" = Ok created_id
        /\ truthy created_id = true
        /\ o' = noted o [Http (creation_request cfg email names)].
Proof.
  unfold create_affiliate, nbind, nlift, post.
  split.
  - destruct (split_name name) as [names|]; [|done].
    fold (creation_request cfg email names).
    destruct (http srv (creation_request cfg email names)) as [res|] eqn:Hres;
      [|done].
    destruct (ok res) eqn:Hok; cbn [negb]; [|done].
    destruct (json res) as [created|] eqn:Hjson;
      cbn [default from_option Datatypes.id truthy negb]; [|done].
    destruct (truthy created) eqn:Hcreated; cbn [negb]; [|done].
    destruct (get created "id") as [id0|] eqn:Hid; [|done].
    destruct (truthy id0) eqn:Htruthy; cbn [negb]; [|done].
    unfold nret. intros [= <- <-]. by exists names, res, created.
  - intros (names & res & created & -> & Hres & Hok & Hjson & Hcreated & Hid
            & Htruthy & ->).
    fold (creation_request cfg email names).
    rewrite Hres, Hok, Hjson. cbn [negb default from_option Datatypes.id].
    by rewrite Hcreated, Hid, Htruthy.
Qed.

Lemma add_to_program_true srv cfg affiliateId failed o o' :
  add_to_program srv cfg affiliateId failed o = (Ok true, o')
  <-> exists res,
        http srv (join_request cfg affiliateId) = Some res
        /\ ok res = true
        /\ o' = noted o [Http (join_request cfg affiliateId)].
Proof.
  unfold add_to_program, nbind, post. fold (join_request cfg affiliateId).
  split.
  - destruct (http srv (join_request cfg affiliateId)) as [res|] eqn:Hres;
      [|done].
    destruct (ok res) eqn:Hok; cbn [negb]; [|done].
    unfold nret. intros [= <-]. by exists res.
  - intros (res & -> & Hok & ->). by rewrite Hok.
Qed.

(** Tapfiliate has created the affiliate and added it to the program:
    the creation request was answered successfully with an object whose
    [id] is truthy, the request that adds this id to the program was
    answered successfully, and [affiliate] is what the VARCHAR(255)
    column makes of the id. *)
Definition affiliate_created srv cfg (email name : value) (affiliate : string)
    (requests : list http_request) : Prop :=
  exists names res created created_id res2,
    configured cfg = true
    /\ truthy email = true
    /\ split_name name = Ok names
    /\ http srv (creation_request cfg email names) = Some res
    /\ ok res = true
    /\ json res = Some created
    /\ truthy created = true
    /\ get created "id" = Ok created_id
    /\ truthy created_id = true
    /\ http srv (join_request cfg created_id) = Some res2
    /\ ok res2 = true
    /\ varchar_in 255 created_id = Some affiliate
    /\ requests = [creation_request cfg email names; join_request cfg created_id].

(** X26. [createTapfiliateAffiliateForEmail] never throws. It adds a
    row to [partners] exactly when Tapfiliate has created the affiliate
    and added it to the program: the variables are set, the email is
    truthy, the creation request is answered successfully with an object
    whose [id] is truthy, the request that adds this id to the program is
    answered successfully, and the VARCHAR(255) column takes the id. Then
    these two are its requests, the one row added has the next id, no
    application and this id as its affiliate, and the earnings job,
    reading the rows in the order of the table, resolves the affiliate to
    the new partner. In every other case the tables are as they
    were. *)
Theorem checkout_adds_at_most_one_partner srv cfg email name o :
  exists o',
    createTapfiliateAffiliateForEmail srv cfg email name o = (Ok tt, o')
    /\ ((tables o' = tables o
         /\ forall affiliate requests,
              ~ affiliate_created srv cfg email name affiliate requests)
        \/ exists affiliate requests,
             let row := {| row_id := partners_id_seq (tables o);
                           row_application_id := None;
                           row_affiliate := Some affiliate |} in
             affiliate_created srv cfg email name affiliate requests
             /\ posts (journal_since o o') = requests
             /\ tables o' = add_partner (tables o) row
             /\ (affiliate <> "" -> affiliate <> "__proto__" ->
                 own_property
                   (affiliate_map (linked_partners (job_view (tables o'))))
                   affiliate
                 = Some (row_id row))).
Proof.
  destruct (ntry_console
              (if unset (TAPFILIATE_API_KEY cfg) || unset (TAPFILIATE_PROGRAM_ID cfg)
               then console "warn"
                      "Tapfiliate not fully configured (missing API key or program id). Skipping automatic affiliate creation."
               else if negb (truthy email)
               then console "warn"
                      "createTapfiliateAffiliateForEmail called without email, skipping"
               else
                 nbind (lift_job ensureV2Tables) (fun _ =>
                 nbind (create_affiliate srv cfg email name
                          "Tapfiliate create affiliate from Stripe failed:"
                          "Tapfiliate create affiliate from Stripe: missing id in response")
                   (fun created =>
                      match created with
                      | None => nret tt
                      | Some affiliateId =>
                          nbind (add_to_program srv cfg affiliateId
                                   "Tapfiliate add affiliate from Stripe to program failed:")
                            (fun added =>
                               if added then insert_partner_for_affiliate affiliateId
                               else nret tt)
                      end)))
              "error" "Error in createTapfiliateAffiliateForEmail:" o) as (o' & E).
  exists o'. split; [exact E|].
  revert E. unfold ntry.
  match goal with
  | |- context [match ?body o with _ => _ end] =>
      assert (Hbody : forall r o1, body o = (r, o1) ->
                (tables o1 = tables o
                 /\ forall affiliate requests,
                      ~ affiliate_created srv cfg email name affiliate requests)
                \/ exists affiliate requests,
                     r = Ok tt
                     /\ affiliate_created srv cfg email name affiliate requests
                     /\ posts (journal_since o o1) = requests
                     /\ tables o1
                        = add_partner (tables o)
                            {| row_id := partners_id_seq (tables o);
                               row_application_id := None;
                               row_affiliate := Some affiliate |});
      [|destruct (body o) as [[[]|e] o1];
        specialize (Hbody _ _ eq_refl)]
  end.
  { intros r o1.
    destruct (_ || _) eqn:Hunset.
    { intros [= <- <-]. left. split; [done|].
      intros affiliate requests (? & ? & ? & ? & ? & Hc & _).
      unfold configured in Hc. by rewrite Hunset in Hc. }
    destruct (truthy email) eqn:Hemail; cbn [negb].
    2:{ intros [= <- <-]. left. split; [done|].
        intros affiliate requests (? & ? & ? & ? & ? & _ & Ht & _).
        by rewrite Hemail in Ht. }
    unfold nbind at 1. rewrite lift_ensureV2Tables_run.
    set (o0 := noted o (Job <$> ddl_events)).
    pose proof (same_tables_create srv cfg email name
                  "Tapfiliate create affiliate from Stripe failed:"
                  "Tapfiliate create affiliate from Stripe: missing id in response" o0)
      as K1.
    unfold nbind at 1.
    destruct (create_affiliate srv cfg email name _ _ o0) as [r1 o2] eqn:E1.
    simpl in K1.
    assert (Hcreate : forall affiliate requests,
              affiliate_created srv cfg email name affiliate requests ->
              exists created_id,
                r1 = Ok (Some created_id)
                /\ exists names res2,
                     http srv (join_request cfg created_id) = Some res2
                     /\ ok res2 = true
                     /\ varchar_in 255 created_id = Some affiliate
                     /\ requests = [creation_request cfg email names;
                                    join_request cfg created_id]
                     /\ o2 = noted o0 [Http (creation_request cfg email names)]).
    { intros affiliate requests
        (names & res & created & created_id & res2 & _ & _ & Hn & Hres & Hok
         & Hjson & Hcreated & Hid & Htruthy & Hres2 & Hok2 & Hv & ->).
      assert (Hrun : create_affiliate srv cfg email name
                       "Tapfiliate create affiliate from Stripe failed:"
                       "Tapfiliate create affiliate from Stripe: missing id in response"
                       o0
                     = (Ok (Some created_id),
                        noted o0 [Http (creation_request cfg email names)])).
      { apply create_affiliate_some. by exists names, res, created. }
      rewrite Hrun in E1. injection E1 as <- <-.
      exists created_id. split; [done|]. by exists names, res2. }
    destruct r1 as [[affiliateId|]|e].
    2:{ intros [= <- <-]. left. split; [done|].
        intros affiliate requests Hc.
        by destruct (Hcreate _ _ Hc) as (? & [=] & _). }
    2:{ intros [= <- <-]. left. split; [done|].
        intros affiliate requests Hc.
        by destruct (Hcreate _ _ Hc) as (? & [=] & _). }
    pose proof (proj1 (create_affiliate_some _ _ _ _ _ _ _ _ _) E1)
      as (names & res & created & Hn & Hres & Hok & Hjson & Hcreated & Hid
          & Htruthy & Ho2).
    pose proof (same_tables_program srv cfg affiliateId
                  "Tapfiliate add affiliate from Stripe to program failed:" o2) as K2.
    assert (Ht : forall o3, same_tables o2 o3 -> tables o3 = tables o)
      by (intros o3; unfold same_tables in *; simpl in *; congruence).
    unfold nbind.
    destruct (add_to_program srv cfg affiliateId _ o2) as [r2 o3] eqn:E2.
    simpl in K2.
    assert (Hjoin : forall affiliate requests,
              affiliate_created srv cfg email name affiliate requests ->
              r2 = Ok true /\ varchar_in 255 affiliateId = Some affiliate).
    { intros affiliate requests Hc.
      destruct (Hcreate _ _ Hc)
        as (created_id & [= <-] & names' & res2 & Hres2 & Hok2 & Hv & _).
      split; [|done].
      assert (Hrun : add_to_program srv cfg affiliateId
                       "Tapfiliate add affiliate from Stripe to program failed:" o2
                     = (Ok true, noted o2 [Http (join_request cfg affiliateId)])).
      { apply add_to_program_true. by exists res2. }
      rewrite Hrun in E2. by injection E2 as <- _. }
    destruct r2 as [[|]|e].
    2:{ intros [= <- <-]. left. split; [by apply Ht|].
        intros affiliate requests Hc. by destruct (Hjoin _ _ Hc) as [[=] _]. }
    2:{ intros [= <- <-]. left. split; [by apply Ht|].
        intros affiliate requests Hc. by destruct (Hjoin _ _ Hc) as [[=] _]. }
    apply add_to_program_true in E2 as (res2 & Hres2 & Hok2 & Ho3).
    unfold insert_partner_for_affiliate.
    rewrite (truthy_not_null _ Htruthy).
    destruct (varchar_in 255 affiliateId) as [affiliate|] eqn:Hv; simpl;
      intros [= <- <-].
    2:{ left. split; [by apply Ht|].
        intros affiliate requests Hc. by destruct (Hjoin _ _ Hc) as [_ [=]]. }
    right. exists affiliate,
      [creation_request cfg email names; join_request cfg affiliateId].
    split_and!.
    - done.
    - exists names, res, created, affiliateId, res2.
      split_and!; try done. unfold configured. by rewrite Hunset.
    - subst o3 o2. unfold o0. journal.
    - simpl. by rewrite (Ht o3 K2). }
  - intros [= <-].
    destruct Hbody as [Ht|(affiliate & requests & _ & Hc & Hposts & Ht)];
      [by left|].
    right. exists affiliate, requests. cbv zeta. split_and!; [done|done|done|].
    intros Hne Hproto. rewrite Ht. by apply added_partner_is_resolved.
  - rewrite console_run. intros [= <-]. simpl.
    destruct Hbody as [Ht|(affiliate & requests & Hok & _)]; [by left|discriminate].
Qed.

(** *** The affiliate of an approved application *)

Lemma truthy_column s : s <> "" -> truthy (column (Some s)) = true.
Proof. intros Hs. simpl. by destruct (String.eqb_spec s ""). Qed.

Lemma stored_affiliate_run srv cfg applicationId i app rest e a o :
  configured cfg = true ->
  is_null applicationId = false ->
  int4_in applicationId = Some i ->
  filter (fun x => app_id x = i) (applications (tables o)) = app :: rest ->
  app_email app = Some e -> e <> "" ->
  app_affiliate app = Some a -> a <> "" ->
  let o' := snd (syncTapfiliateAffiliate srv cfg applicationId o) in
  posts (journal_since o o') = [join_request cfg (VStr a)]
  /\ applications (tables o') = applications (tables o)
  /\ (admin_logs (tables o') = admin_logs (tables o)
      \/ exists res log,
           http srv (join_request cfg (VStr a)) = Some res
           /\ ok res = true
           /\ admin_logs (tables o') = admin_logs (tables o) ++ [log]).
Proof.
  intros Hc Hnull Hi Hrows He Hne Ha Hna.
  remember (syncTapfiliateAffiliate srv cfg applicationId o) as run eqn:Hrun.
  unfold syncTapfiliateAffiliate, ntry in Hrun.
  unfold configured in Hc. apply negb_true_iff in Hc. rewrite Hc in Hrun.
  unfold nbind at 1 in Hrun. unfold query_ddl at 1 in Hrun. rewrite jot_run in Hrun.
  unfold nbind at 1 in Hrun. unfold select_application at 1 in Hrun.
  rewrite Hnull, Hi in Hrun. cbn [tables noted] in Hrun. rewrite Hrows in Hrun.
  rewrite He, (truthy_column e Hne), Ha, (truthy_column a Hna) in Hrun.
  cbn [negb] in Hrun. unfold nbind at 1, nret at 1 in Hrun.
  cbn [column] in Hrun. unfold add_to_program in Hrun.
  unfold nbind at 1 in Hrun. unfold post at 1 in Hrun.
  cbn [tables journal noted] in Hrun. fold (join_request cfg (VStr a)) in Hrun.
  unfold nbind at 1 in Hrun.
  destruct (http srv (join_request cfg (VStr a))) as [res|] eqn:Hres.
  2:{ subst run. cbv zeta. rewrite console_run. cbn [snd].
      split_and!; [journal|done|by left]. }
  destruct (ok res) eqn:Hok; cbn [negb] in Hrun.
  2:{ subst run. cbv zeta. unfold nbind. rewrite console_run. cbn [snd nret].
      split_and!; [journal|done|by left]. }
  unfold nret at 1, nbind at 1 in Hrun. unfold query_ddl in Hrun.
  rewrite jot_run in Hrun. unfold nbind at 1, nlift in Hrun.
  cbn [ToString] in Hrun. unfold insert_admin_log in Hrun.
  rewrite Hnull, Hi in Hrun. cbn [is_null fmap option_fmap option_map] in Hrun.
  destruct (text_in _) as [text|] eqn:Htext;
    cbn [fmap option_fmap option_map] in Hrun.
  - subst run. cbv zeta. cbn [snd tables noted].
    split_and!; [journal|done|]. right. by eexists _, _.
  - subst run. cbv zeta. rewrite console_run. cbn [snd tables noted].
    split_and!; [journal|done|by left].
Qed.

(** X27. For an application with an email and a stored
    [tapfiliate_affiliate_id], [syncTapfiliateAffiliate] returns normally
    and creates no affiliate: its only request adds the stored affiliate
    to the program. The applications and the partners are unchanged, and
    one log row is added, and only if that request succeeded. *)
Theorem stored_affiliate_is_not_created_again srv cfg applicationId i app rest
    e a o :
  configured cfg = true ->
  is_null applicationId = false ->
  int4_in applicationId = Some i ->
  filter (fun x => app_id x = i) (applications (tables o)) = app :: rest ->
  app_email app = Some e -> e <> "" ->
  app_affiliate app = Some a -> a <> "" ->
  exists o',
    syncTapfiliateAffiliate srv cfg applicationId o = (Ok tt, o')
    /\ posts (journal_since o o') = [join_request cfg (VStr a)]
    /\ applications (tables o') = applications (tables o)
    /\ partner_rows (tables o') = partner_rows (tables o)
    /\ (admin_logs (tables o') = admin_logs (tables o)
        \/ exists res log,
             http srv (join_request cfg (VStr a)) = Some res
             /\ ok res = true
             /\ admin_logs (tables o') = admin_logs (tables o) ++ [log]).
Proof.
  intros Hc Hnull Hi Hrows He Hne Ha Hna.
  assert (Hreturns : exists o',
            syncTapfiliateAffiliate srv cfg applicationId o = (Ok tt, o')).
  { unfold syncTapfiliateAffiliate. apply ntry_console. }
  destruct Hreturns as [o' Hrun]. exists o'. split; [done|].
  pose proof (stored_affiliate_run srv cfg applicationId i app rest e a o
                Hc Hnull Hi Hrows He Hne Ha Hna) as (Hposts & Happs & Hlogs).
  pose proof (same_partners_syncTapfiliateAffiliate srv cfg applicationId o)
    as [Hpartners _].
  rewrite Hrun in Hposts, Happs, Hlogs, Hpartners. by cbn [snd] in *.
Qed.

(** [SET tapfiliate_affiliate_id = affiliate WHERE id = i] on a row. *)
Definition set_affiliate (affiliate : option string) (i : option Z)
    (a : application) : application :=
  if bool_decide (Some (app_id a) = i) then
    {| app_id := app_id a; app_name := app_name a; app_email := app_email a;
       app_affiliate := affiliate; app_status := app_status a;
       app_approved_at := app_approved_at a;
       app_approved_by := app_approved_by a |}
  else a.

Lemma filter_set_affiliate affiliate i (rows : list application) :
  filter (fun x => app_id x = i) (set_affiliate affiliate (Some i) <$> rows)
  = set_affiliate affiliate (Some i) <$> filter (fun x => app_id x = i) rows.
Proof.
  induction rows as [|r rows IH]; [done|].
  rewrite fmap_cons, !filter_cons, IH.
  assert (Hid : app_id (set_affiliate affiliate (Some i) r) = app_id r).
  { unfold set_affiliate. by destruct (bool_decide _). }
  rewrite Hid. by destruct (decide (app_id r = i)).
Qed.

(** X28. When Tapfiliate creates the affiliate and the request that adds
    it to the program fails, [syncTapfiliateAffiliate] has stored the new
    id on the application and written no log row; a second run for the
    application, whatever the service answers then, sends no creation
    request but only the request that adds the stored affiliate to the
    program. *)
Theorem retry_does_not_create_a_second_affiliate srv srv2 cfg applicationId i
    app rest e names res created created_id text o :
  configured cfg = true ->
  is_null applicationId = false ->
  int4_in applicationId = Some i ->
  filter (fun x => app_id x = i) (applications (tables o)) = app :: rest ->
  app_email app = Some e -> e <> "" ->
  truthy (column (app_affiliate app)) = false ->
  split_name (column (app_name app)) = Ok names ->
  http srv (creation_request cfg (VStr e) names) = Some res ->
  ok res = true ->
  json res = Some created ->
  truthy created = true ->
  get created "id" = Ok created_id ->
  truthy created_id = true ->
  varchar_in 255 created_id = Some text -> text <> "" ->
  (forall res2, http srv (join_request cfg created_id) = Some res2 ->
                ok res2 = false) ->
  let o1 := snd (syncTapfiliateAffiliate srv cfg applicationId o) in
  let o2 := snd (syncTapfiliateAffiliate srv2 cfg applicationId o1) in
  posts (journal_since o o1)
  = [creation_request cfg (VStr e) names; join_request cfg created_id]
  /\ applications (tables o1)
     = set_affiliate (Some text) (Some i) <$> applications (tables o)
  /\ admin_logs (tables o1) = admin_logs (tables o)
  /\ posts (journal_since o1 o2) = [join_request cfg (VStr text)].
Proof.
  intros Hc Hnull Hi Hrows He Hne Hstored Hnames Hres Hok Hjson Hcreated Hid
    Htruthy Htext Hnt Hfails o1.
  assert (Hfirst :
    posts (journal_since o o1)
    = [creation_request cfg (VStr e) names; join_request cfg created_id]
    /\ applications (tables o1)
       = set_affiliate (Some text) (Some i) <$> applications (tables o)
    /\ admin_logs (tables o1) = admin_logs (tables o)).
  { unfold o1.
    remember (syncTapfiliateAffiliate srv cfg applicationId o) as run eqn:Hrun.
    unfold syncTapfiliateAffiliate, ntry in Hrun.
    pose proof Hc as Hc'. unfold configured in Hc'.
    apply negb_true_iff in Hc'. rewrite Hc' in Hrun.
    unfold nbind at 1 in Hrun. unfold query_ddl at 1 in Hrun. rewrite jot_run in Hrun.
    unfold nbind at 1 in Hrun. unfold select_application at 1 in Hrun.
    rewrite Hnull, Hi in Hrun. cbn [tables noted] in Hrun. rewrite Hrows in Hrun.
    rewrite He, (truthy_column e Hne), Hstored in Hrun.
    cbn [negb column] in Hrun.
    unfold nbind at 1 in Hrun. unfold nbind at 1 in Hrun.
    unfold create_affiliate at 1 in Hrun.
    unfold nbind at 1, nlift at 1 in Hrun. rewrite Hnames in Hrun.
    unfold nbind at 1 in Hrun. unfold post at 1 in Hrun.
    fold (creation_request cfg (VStr e) names) in Hrun.
    rewrite Hres, Hok, Hjson in Hrun.
    cbn [negb default from_option Datatypes.id] in Hrun.
    rewrite Hcreated in Hrun. cbn [negb] in Hrun.
    unfold nbind at 1, nlift at 1 in Hrun. rewrite Hid, Htruthy in Hrun.
    cbn [negb] in Hrun. unfold nret at 1 in Hrun.
    unfold nbind at 1 in Hrun. unfold update_application_affiliate at 1 in Hrun.
    rewrite (truthy_not_null _ Htruthy), Htext, Hnull, Hi in Hrun.
    cbn [fmap option_fmap option_map tables journal] in Hrun.
    unfold nret at 1 in Hrun.
    unfold add_to_program in Hrun. unfold nbind at 1 in Hrun.
    unfold nbind at 1 in Hrun. unfold post at 1 in Hrun.
    cbn [tables journal] in Hrun.
    fold (join_request cfg created_id) in Hrun.
    destruct (http srv (join_request cfg created_id)) as [res2|] eqn:Hres2.
    - rewrite (Hfails res2 eq_refl) in Hrun. cbn [negb] in Hrun.
      subst run. unfold nbind. rewrite console_run. cbn [snd nret tables noted].
      split_and!; [journal|done|done].
    - subst run. rewrite console_run. cbn [snd tables noted].
      split_and!; [journal|done|done]. }
  destruct Hfirst as (Hposts & Happs & Hlogs). intros o2.
  split_and!; [done|done|done|].
  assert (Hrows1 : filter (fun x => app_id x = i) (applications (tables o1))
                   = set_affiliate (Some text) (Some i) app
                     :: (set_affiliate (Some text) (Some i) <$> rest)).
  { by rewrite Happs, filter_set_affiliate, Hrows. }
  assert (Happ : app_id app = i).
  { assert (Hin : app ∈ filter (fun x => app_id x = i) (applications (tables o))).
    { rewrite Hrows. by apply elem_of_cons; left. }
    by apply list_elem_of_filter in Hin as [? _]. }
  destruct (stored_affiliate_run srv2 cfg applicationId i _ _ e text o1
              Hc Hnull Hi Hrows1) as (Hp2 & _); try done.
  - unfold set_affiliate. by destruct (bool_decide _).
  - unfold set_affiliate. rewrite bool_decide_eq_true_2; [done|by rewrite Happ].
Qed.

End OnboardingProperties.

(** ** Applications *)

Section ApplicationProperties.
Context `{PostgresText}.

(** The request of the forwarding. *)
Definition landing_request (LANDING_WAITLIST_URL : option string) (email : value)
  : http_request :=
  {| http_to := Landing (default "" LANDING_WAITLIST_URL);
     http_api_key := None;
     http_body := VObj [("email", email)] |}.

(** What a run of the forwarding adds to the journal. *)
Lemma forwardEmailToLanding_run srv LANDING_WAITLIST_URL email o :
  exists events,
    forwardEmailToLanding srv LANDING_WAITLIST_URL email o = (Ok tt, noted o events)
    /\ posts events
       = if truthy email && negb (unset LANDING_WAITLIST_URL)
         then [landing_request LANDING_WAITLIST_URL email]
         else [].
Proof.
  unfold forwardEmailToLanding, ntry.
  destruct (truthy email); cbn [negb andb].
  2:{ exists []. by rewrite noted_nil. }
  destruct (unset LANDING_WAITLIST_URL); cbn [negb].
  { rewrite console_run. by eexists. }
  unfold nbind, post. fold (landing_request LANDING_WAITLIST_URL email).
  destruct (http srv _) as [res|].
  - destruct (negb (ok res)).
    + rewrite console_run.
      exists [Http (landing_request LANDING_WAITLIST_URL email);
              Console "error"
                "Landing waitlist endpoint responded with non-OK status:"].
      split; [|done]. unfold noted. simpl. by rewrite <- app_assoc.
    + unfold nret. by exists [Http (landing_request LANDING_WAITLIST_URL email)].
  - rewrite console_run.
    exists [Http (landing_request LANDING_WAITLIST_URL email);
            Console "error" "Error forwarding email to landing waitlist endpoint:"].
    split; [|done]. unfold noted. simpl. by rewrite <- app_assoc.
Qed.

(** The state after events that are only written to the journal. *)
Definition journaled_all (f : front) (events : list office_event) : front :=
  {| partner_applications_id_seq := partner_applications_id_seq f;
     back := noted (back f) events |}.

Lemma journaled_all_nil f : journaled_all f [] = f.
Proof. destruct f. unfold journaled_all. simpl. by rewrite noted_nil. Qed.

Lemma journaled_all_app f a b :
  journaled_all (journaled_all f a) b = journaled_all f (a ++ b).
Proof. unfold journaled_all. simpl. by rewrite noted_noted. Qed.

Lemma posts_app a b : posts (a ++ b) = posts a ++ posts b.
Proof. unfold posts. apply omap_app. Qed.

(** The required fields of a body. *)
Definition field (body : value) (name : string) : value :=
  match get body name with
  | Ok v => v
  | Throw _ => VUndefined
  end.

Definition complete (body : value) : bool :=
  negb (is_null body)
  && truthy (field body "name") && truthy (field body "email")
  && truthy (field body "country") && truthy (field body "motivation")
  && truthy (field body "termsAccepted").

Lemma get_field body name :
  is_null body = false -> get body name = Ok (field body name).
Proof. unfold field. by destruct body; simpl; try destruct (own_property _ _). Qed.

Lemma get_null body name : is_null body = true -> get body name = Throw TypeError.
Proof. by destruct body. Qed.

(** The route in its cases. *)
Lemma post_partner_application_run srv LANDING_WAITLIST_URL body f :
  post_partner_application srv LANDING_WAITLIST_URL body f
  = if is_null body then (Throw TypeError, f)
    else if negb (complete body) then (Ok MISSING_REQUIRED, f)
    else
      ftry
        (fbind (select_application_by_email (field body "email")) (fun existing =>
         if (0 <? List.length existing)%nat then fret EMAIL_USED
         else
           fbind create_table_partner_applications (fun _ =>
           fbind (insert_partner_application (field body "name")
                    (field body "email") (or_null (field body "whatsapp"))
                    (field body "country") (or_null (field body "audience"))
                    (or_null (field body "platform")) (field body "motivation"))
             (fun _ =>
           fbind (on_back (console "log" "New partner application stored for:"))
             (fun _ =>
           fbind (on_back
                    (ntry (forwardEmailToLanding srv LANDING_WAITLIST_URL
                             (field body "email"))
                       (fun err =>
                          console "error" "Unhandled waitlist forwarding error:")))
             (fun _ => fret SUBMITTED))))))
        (fun err =>
           fbind (on_back (console "error" "Error saving partner application:"))
             (fun _ => fret SAVE_FAILED))
        f.
Proof.
  unfold post_partner_application, complete.
  destruct (is_null body) eqn:Hnull.
  - by rewrite !(get_null body _ Hnull).
  - rewrite !(get_field body _ Hnull). cbn [negb andb].
    destruct (truthy (field body "name")); [|done].
    destruct (truthy (field body "email")); [|done].
    destruct (truthy (field body "country")); [|done].
    destruct (truthy (field body "motivation")); [|done].
    by destruct (truthy (field body "termsAccepted")).
Qed.

(** Requests served one after the other. *)
Fixpoint submit_all (srv : services) (LANDING_WAITLIST_URL : option string)
    (bodies : list value) (f : front) : list (result http_response) * front :=
  match bodies with
  | [] => ([], f)
  | body :: later =>
      let '(answer, f1) := post_partner_application srv LANDING_WAITLIST_URL body f in
      let '(answers, f2) := submit_all srv LANDING_WAITLIST_URL later f1 in
      (answer :: answers, f2)
  end.

Lemma post_without_table srv LANDING_WAITLIST_URL body f :
  partner_applications_id_seq f = None ->
  exists answer events,
    post_partner_application srv LANDING_WAITLIST_URL body f
    = (answer, journaled_all f events)
    /\ posts events = []
    /\ answer <> Ok SUBMITTED
    /\ (complete body = true -> answer = Ok SAVE_FAILED).
Proof.
  intros Hseq. rewrite post_partner_application_run.
  destruct (is_null body) eqn:Hnull.
  { exists (Throw TypeError), []. rewrite journaled_all_nil.
    split_and!; [done|done|done|]. unfold complete. by rewrite Hnull. }
  destruct (complete body); cbn [negb].
  2:{ exists (Ok MISSING_REQUIRED), []. by rewrite journaled_all_nil. }
  unfold ftry, fbind at 1, select_application_by_email. rewrite Hseq.
  exists (Ok SAVE_FAILED),
    [Sql SELECT_application_by_email;
     Console "error" "Error saving partner application:"].
  split_and!; [|done|done|done].
  unfold fbind, on_back, fret, journaled, journaled_all, noted. simpl.
  by rewrite <- app_assoc.
Qed.

(** X29. On a database without the table [partner_applications], no
    request to POST /api/partner-application creates it: the SELECT that
    comes before CREATE TABLE IF NOT EXISTS fails. Whatever the bodies of
    the requests, after them the table is still missing, the tables are
    unchanged, nothing has been forwarded, no request has been answered
    200, and every request with all its required fields has been answered
    500. *)
Theorem applications_table_is_never_created srv LANDING_WAITLIST_URL bodies f :
  partner_applications_id_seq f = None ->
  let run := submit_all srv LANDING_WAITLIST_URL bodies f in
  partner_applications_id_seq run.2 = None
  /\ tables (back run.2) = tables (back f)
  /\ posts (journal_since (back f) (back run.2)) = []
  /\ Forall2 (fun body answer =>
                answer <> Ok SUBMITTED
                /\ (complete body = true -> answer = Ok SAVE_FAILED))
       bodies run.1.
Proof.
  intros Hseq. cbv zeta.
  assert (Hall : exists events,
            (submit_all srv LANDING_WAITLIST_URL bodies f).2 = journaled_all f events
            /\ posts events = []
            /\ Forall2 (fun body answer =>
                          answer <> Ok SUBMITTED
                          /\ (complete body = true -> answer = Ok SAVE_FAILED))
                 bodies (submit_all srv LANDING_WAITLIST_URL bodies f).1).
  { revert f Hseq. induction bodies as [|body later IH]; intros f Hseq.
    - exists []. simpl. rewrite journaled_all_nil. split_and!; [done|done|constructor].
    - destruct (post_without_table srv LANDING_WAITLIST_URL body f Hseq)
        as (answer & events & Hrun & Hposts & Hanswer).
      simpl. rewrite Hrun.
      destruct (IH (journaled_all f events) Hseq) as (events' & Hrest & Hposts' & Hall).
      destruct (submit_all srv LANDING_WAITLIST_URL later (journaled_all f events))
        as [answers f2].
      simpl in *. exists (events ++ events'). split_and!.
      + by rewrite Hrest, journaled_all_app.
      + by rewrite posts_app, Hposts, Hposts'.
      + by constructor. }
  destruct Hall as (events & -> & Hposts & Hall).
  split_and!; [done|done| |done].
  unfold journaled_all. simpl. by rewrite journal_since_noted.
Qed.

(** *** An email is used once *)

Lemma journal_since_self o : journal_since o o = [].
Proof. unfold journal_since. by rewrite drop_all. Qed.

(** The row an accepted application leaves. *)
Definition pending (i : Z) (n e : string) : application :=
  {| app_id := i; app_name := Some n; app_email := Some e; app_affiliate := None;
     app_status := Some "pending"; app_approved_at := None;
     app_approved_by := None |}.

Definition with_application (c : crm) (row : application) : crm :=
  {| applications := applications c ++ [row];
     partner_rows := partner_rows c;
     partners_id_seq := partners_id_seq c;
     admin_logs := admin_logs c;
     earnings := earnings c;
     earnings_id_seq := earnings_id_seq c |}.

Lemma insert_partner_application_run name email whatsapp country audience
    platform motivation f :
  let run :=
    insert_partner_application name email whatsapp country audience platform
      motivation f in
  run = (Throw QueryError, journaled f (Sql INSERT_partner_applications))
  \/ exists i n e,
       partner_applications_id_seq f = Some i
       /\ required (varchar_in 255) name = Some n
       /\ required (varchar_in 255) email = Some e
       /\ run
          = (Ok tt,
             {| partner_applications_id_seq := Some (i + 1)%Z;
                back :=
                  {| tables := with_application (tables (back f)) (pending i n e);
                     journal :=
                       journal (back f) ++ [Sql INSERT_partner_applications] |} |}).
Proof.
  cbv zeta. unfold insert_partner_application, journaled.
  destruct f as [[i|] o]; cbn [partner_applications_id_seq back]; [|by left].
  destruct (required (varchar_in 255) name) as [n|]; [|by left].
  destruct (required (varchar_in 255) email) as [e|]; [|by left].
  destruct (optional (varchar_in 50) whatsapp); [|by left].
  destruct (required (varchar_in 100) country); [|by left].
  destruct (optional (varchar_in 50) audience); [|by left].
  destruct (optional (varchar_in 255) platform); [|by left].
  destruct (required text_in motivation); [|by left].
  right. by exists i, n, e.
Qed.

Lemma stored_email_is_found e (rows : list application) :
  Some e ∈ app_email <$> rows <->
  filter (fun a => app_email a = Some e) rows <> [].
Proof.
  split.
  - intros (a & Ha & Hin)%list_elem_of_fmap Hnil.
    assert (Hf : a ∈ filter (fun a => app_email a = Some e) rows)
      by (by apply list_elem_of_filter).
    rewrite Hnil in Hf. by apply elem_of_nil in Hf.
  - destruct (filter _ rows) as [|a found] eqn:Hf; [done|]. intros _.
    assert (Ha : a ∈ filter (fun a => app_email a = Some e) rows)
      by (rewrite Hf; by apply elem_of_cons; left).
    apply list_elem_of_filter in Ha as [Ha Hin].
    apply list_elem_of_fmap. by exists a.
Qed.

Lemma complete_email body :
  complete body = true ->
  is_null body = false /\ truthy (field body "email") = true.
Proof.
  unfold complete. destruct (is_null body); [done|]. cbn [negb andb].
  destruct (truthy (field body "name")); [|done].
  by destruct (truthy (field body "email")).
Qed.

(** An application whose email is found is refused. *)
Lemma application_refused srv LANDING_WAITLIST_URL body sent i f :
  complete body = true ->
  partner_applications_id_seq f = Some i ->
  text_in (field body "email") = Some sent ->
  Some sent ∈ app_email <$> applications (tables (back f)) ->
  post_partner_application srv LANDING_WAITLIST_URL body f
  = (Ok EMAIL_USED, journaled f (Sql SELECT_application_by_email)).
Proof.
  intros Hcomplete Hseq Htext Hin.
  destruct (complete_email body Hcomplete) as [Hnull Hemail].
  rewrite post_partner_application_run, Hnull, Hcomplete. cbn [negb].
  unfold ftry, fbind at 1, select_application_by_email.
  rewrite Hseq, (truthy_not_null _ Hemail), Htext.
  apply stored_email_is_found in Hin.
  by destruct (filter _ (applications (tables (back f)))) as [|a found].
Qed.

(** What a request does, for an email that is sent as [sent]. *)
Lemma post_partner_application_cases srv LANDING_WAITLIST_URL body sent f :
  text_in (field body "email") = Some sent ->
  let run := post_partner_application srv LANDING_WAITLIST_URL body f in
  (run.1 <> Ok SUBMITTED
   /\ tables (back run.2) = tables (back f)
   /\ partner_applications_id_seq run.2 = partner_applications_id_seq f
   /\ posts (journal_since (back f) (back run.2)) = [])
  \/ (run.1 = Ok SUBMITTED
      /\ complete body = true
      /\ (Some sent ∉ app_email <$> applications (tables (back f)))
      /\ exists i n stored,
           partner_applications_id_seq f = Some i
           /\ partner_applications_id_seq run.2 = Some (i + 1)%Z
           /\ varchar_in 255 (field body "email") = Some stored
           /\ tables (back run.2)
              = with_application (tables (back f)) (pending i n stored)
           /\ posts (journal_since (back f) (back run.2))
              = if unset LANDING_WAITLIST_URL then []
                else [landing_request LANDING_WAITLIST_URL (field body "email")]).
Proof.
  intros Htext. cbv zeta.
  destruct (post_partner_application srv LANDING_WAITLIST_URL body f)
    as [answer f'] eqn:Hrun.
  cbn [fst snd]. rewrite post_partner_application_run in Hrun.
  destruct (is_null body) eqn:Hnull.
  { injection Hrun as <- <-. rewrite journal_since_self. by left. }
  destruct (complete body) eqn:Hcomplete; cbn [negb] in Hrun.
  2:{ injection Hrun as <- <-. rewrite journal_since_self. by left. }
  destruct (complete_email body Hcomplete) as [_ Hemail].
  assert (Hnn : is_null (field body "email") = false) by (by apply truthy_not_null).
  unfold ftry, fbind at 1, select_application_by_email in Hrun.
  destruct (partner_applications_id_seq f) as [i|] eqn:Hseq.
  2:{ unfold fbind, on_back, fret, journaled in Hrun. rewrite console_run in Hrun.
      injection Hrun as <- <-.
      cbn [back partner_applications_id_seq tables noted].
      left. split_and!; [done|done|done|].
      unfold journal_since. simpl. by rewrite <- app_assoc, drop_app_length. }
  rewrite Hnn, Htext in Hrun.
  pose proof (stored_email_is_found sent (applications (tables (back f)))) as Hfound.
  destruct (filter (fun a => app_email a = Some sent) (applications (tables (back f))))
    as [|a found].
  2:{ unfold fret in Hrun. injection Hrun as <- <-.
      cbn [journaled back partner_applications_id_seq tables].
      left. split_and!; [done|done|done|].
      unfold journal_since. simpl. by rewrite drop_app_length. }
  assert (Hnew : Some sent ∉ app_email <$> applications (tables (back f))).
  { intros Hin. by apply Hfound in Hin. }
  change (0 <? List.length (take 1 (app_id <$> @nil application)))%nat with false
    in Hrun.
  cbv iota in Hrun.
  unfold fbind at 1, create_table_partner_applications in Hrun.
  cbn [journaled back partner_applications_id_seq tables journal] in Hrun.
  rewrite Hseq in Hrun. unfold fbind at 1 in Hrun.
  match type of Hrun with
  | context [insert_partner_application ?a ?b ?c ?d ?g ?p ?m ?f1] =>
      destruct (insert_partner_application_run a b c d g p m f1)
        as [Hins|(i' & n & stored & Hi & _ & He & Hins)];
      cbv zeta in Hins; rewrite Hins in Hrun; clear Hins
  end.
  { unfold fbind, on_back, fret, journaled in Hrun. rewrite console_run in Hrun.
    injection Hrun as <- <-.
    cbn [back partner_applications_id_seq tables noted].
    left. split_and!; [done|done|done|].
    unfold journal_since. simpl. by rewrite <- !app_assoc, drop_app_length. }
  cbn [partner_applications_id_seq] in Hi. injection Hi as <-.
  unfold required in He. rewrite Hnn in He.
  unfold fbind at 1, on_back at 1 in Hrun. rewrite console_run in Hrun.
  cbn [back partner_applications_id_seq] in Hrun.
  unfold fbind at 1, on_back at 1 in Hrun.
  cbn [back partner_applications_id_seq] in Hrun.
  match type of Hrun with
  | context [ntry (forwardEmailToLanding _ _ _) _ ?o] =>
      destruct (forwardEmailToLanding_run srv LANDING_WAITLIST_URL
                  (field body "email") o) as (events & Hforward & Hposts);
      unfold ntry in Hrun; rewrite Hforward in Hrun
  end.
  unfold fret in Hrun. injection Hrun as <- <-.
  right. split_and!; [done|done|done|].
  exists i, n, stored.
  cbn [back partner_applications_id_seq tables noted].
  split_and!; [done|done|done|done|].
  rewrite Hemail in Hposts. cbn [andb] in Hposts.
  unfold journal_since. cbn [journal noted].
  rewrite <- !app_assoc, drop_app_length. cbn [app].
  change (posts (?a :: ?b :: ?c :: ?d :: events)) with (posts events).
  rewrite Hposts. by destruct (unset LANDING_WAITLIST_URL).
Qed.

(** X30. For an email that the driver sends as a text, an application
    is judged by this text, the email as sent. If a stored application
    has this very text as its email, the request is not accepted, the
    tables and the sequence are unchanged and nothing is forwarded. If
    the request is answered 200, no stored application had the text, one
    row has been appended, with the next id, the status [pending] and the
    email as the VARCHAR(255) column stores it, and the email has been
    forwarded to the waitlist exactly when LANDING_WAITLIST_URL is set;
    and when the column stores the email as it was sent, the same request
    again is answered 400 and changes nothing. The proviso is needed: the
    column cuts spaces beyond 255 characters, and the email of 255
    letters and a space is accepted twice
    ([long_email_is_accepted_twice]). *)
Theorem email_is_accepted_once srv LANDING_WAITLIST_URL body sent f :
  text_in (field body "email") = Some sent ->
  let run := post_partner_application srv LANDING_WAITLIST_URL body f in
  (Some sent ∈ app_email <$> applications (tables (back f)) ->
   run.1 <> Ok SUBMITTED
   /\ tables (back run.2) = tables (back f)
   /\ partner_applications_id_seq run.2 = partner_applications_id_seq f
   /\ posts (journal_since (back f) (back run.2)) = [])
  /\ (run.1 = Ok SUBMITTED ->
      (Some sent ∉ app_email <$> applications (tables (back f)))
      /\ exists i row stored,
           partner_applications_id_seq f = Some i
           /\ partner_applications_id_seq run.2 = Some (i + 1)%Z
           /\ varchar_in 255 (field body "email") = Some stored
           /\ applications (tables (back run.2))
              = applications (tables (back f)) ++ [row]
           /\ app_id row = i
           /\ app_email row = Some stored
           /\ app_status row = Some "pending"
           /\ posts (journal_since (back f) (back run.2))
              = (if unset LANDING_WAITLIST_URL then []
                 else [landing_request LANDING_WAITLIST_URL (field body "email")])
           /\ (stored = sent ->
               let again :=
                 post_partner_application srv LANDING_WAITLIST_URL body run.2 in
               again.1 = Ok EMAIL_USED
               /\ tables (back again.2) = tables (back run.2)
               /\ partner_applications_id_seq again.2
                  = partner_applications_id_seq run.2
               /\ posts (journal_since (back run.2) (back again.2)) = [])).
Proof.
  intros Htext. cbv zeta.
  destruct (post_partner_application_cases srv LANDING_WAITLIST_URL body sent f
              Htext)
    as [(Hno & Ht & Hseq & Hposts)
       |(Hyes & Hcomplete & Hnew & i & n & stored & Hi & Hi' & Hv & Ht & Hposts)].
  - split; [done|]. intros Hyes. by destruct Hno.
  - split; [intros Hin; by destruct Hnew|]. intros _. split; [done|].
    exists i, (pending i n stored), stored.
    split_and!; [done|done|done|by rewrite Ht|done|done|done|done|].
    intros ->.
    rewrite (application_refused srv LANDING_WAITLIST_URL body sent (i + 1)
               (post_partner_application srv LANDING_WAITLIST_URL body f).2);
      [|done|done|done|].
    + cbn [fst snd journaled back tables partner_applications_id_seq].
      split_and!; [done|done|done|].
      unfold journal_since. simpl. by rewrite drop_app_length.
    + rewrite Ht. cbn [with_application applications]. rewrite fmap_app.
      apply elem_of_app. right. by apply list_elem_of_singleton.
Qed.

End ApplicationProperties.


(** ** The job on concrete inputs

    The default fee and commission settings, one partner linked to the
    affiliate [A1], and a few behaviours of the external service. *)

Module Scenario.
Section Inputs.
Context `{Postgres}.

Definition process_env (name : string) : option string :=
  if String.eqb name "TAPFILIATE_API_KEY" then Some "key"
  else if String.eqb name "TAPFILIATE_PROGRAM_ID" then Some "program"
  else None.

(** feePercent = 0.029, feeFixed = 0.30, commissionRate = 0.35 *)
Definition cfg : config := load_config process_env.

(** The same settings without the Tapfiliate variables. *)
Definition cfg_not_configured : config := load_config (fun _ => None).

(** The partner P. *)
Definition P : partner :=
  {| partner_row_id := 7; tapfiliate_affiliate_id := Some "A1" |}.

Definition empty_ledger : world :=
  {| db := {| partners := [P]; partner_earnings := [];
              partner_earnings_id_seq := 1 |};
     trace := [] |}.

(** [{affiliate: {id: affiliate}, amount: amount, currency: "USD"}] *)
Definition conversion (affiliate : string) (amount : value) : value :=
  VObj [ ("affiliate", VObj [("id", VStr affiliate)]);
         ("amount", amount);
         ("currency", VStr "USD") ].

(** The JSON number 100. *)
Definition hundred : value := VNum (of_Z 100).

Definition page_of (items : list value) : option response :=
  Some {| ok := true; status := 200; json := Some (VArr items) |}.

(** A service that answers page 1 with [first] and any other page with
    [later]. *)
Definition service (first : option response)
    (later : request -> option response) (clock : nat -> Z) : environment :=
  {| fetch := fun r => if (page r =? 1)%Z then first else later r;
     clock := clock |}.

Definition no_more_pages (r : request) : option response := page_of [].

Definition server_error : option response :=
  Some {| ok := false; status := 500; json := None |}.

(** A successful response whose body is not JSON. *)
Definition not_json (r : request) : option response :=
  Some {| ok := true; status := 200; json := None |}.

Definition wall_clock (effects : nat) : Z := 1735689600 + Z.of_nat effects.

(** Page 1 carries the conversion of the scenario, and there is no
    page 2. *)
Definition one_conversion : environment :=
  service (page_of [conversion "A1" hundred]) no_more_pages wall_clock.

(** Page 1 fails with status 500. *)
Definition failing : environment := service server_error no_more_pages wall_clock.

(** Page 1 is full (50 conversions), the body of page 2 is not JSON. *)
Definition full_page_of_conversions : list value :=
  repeat (conversion "A1" hundred) 50.

Definition then_garbage : environment :=
  service (page_of full_page_of_conversions) not_json wall_clock.

End Inputs.
End Scenario.

(** Runs the left-hand side of an equation. *)
Ltac run_lhs :=
  match goal with
  | |- ?l = _ => let v := eval vm_compute in l in change l with v
  end.

(** ** Binary64 arithmetic

    Rounding a non-negative mantissa never gives NaN, so sums, differences
    and products of finite doubles are numbers. *)

Section Binary64Arithmetic.
Import Binary64.

Lemma shr_1_nonneg mrs : 0 <= shr_m mrs -> 0 <= shr_m (shr_1 mrs).
Proof.
  destruct mrs as [m r s]. cbn [shr_m]. intros Hm.
  destruct m as [|[p|p|]|p]; cbn; lia.
Qed.

Lemma iter_pos_shr_1_nonneg p : forall mrs,
  0 <= shr_m mrs -> 0 <= shr_m (SpecFloat.iter_pos shr_1 p mrs).
Proof.
  induction p as [p IH|p IH|]; intros mrs Hm; cbn [SpecFloat.iter_pos].
  - apply IH, IH, shr_1_nonneg, Hm.
  - apply IH, IH, Hm.
  - apply shr_1_nonneg, Hm.
Qed.

Lemma shr_fexp_nonneg prec emax m e l :
  0 <= m -> 0 <= shr_m (fst (shr_fexp prec emax m e l)).
Proof.
  intros Hm. unfold shr_fexp, shr.
  assert (H0 : 0 <= shr_m (shr_record_of_loc m l)).
  { destruct l as [|[]]; exact Hm. }
  destruct (fexp prec emax (Zdigits2 m + e) - e); cbn [fst]; try exact H0.
  apply iter_pos_shr_1_nonneg, H0.
Qed.

Lemma round_nearest_even_nonneg m l : 0 <= m -> 0 <= round_nearest_even m l.
Proof.
  intros Hm. unfold round_nearest_even.
  destruct l as [|[]]; try destruct (Z.even m); lia.
Qed.

Lemma binary_round_aux_anumber prec emax sx m e l :
  0 <= m -> anumber (binary_round_aux prec emax sx m e l) = true.
Proof.
  intros Hm. unfold binary_round_aux.
  pose proof (shr_fexp_nonneg prec emax m e l Hm) as H1.
  destruct (shr_fexp prec emax m e l) as [mrs' e']. cbn [fst] in H1.
  pose proof (shr_fexp_nonneg prec emax
                (round_nearest_even (shr_m mrs') (loc_of_shr_record mrs')) e'
                loc_Exact (round_nearest_even_nonneg _ _ H1)) as H2.
  destruct (shr_fexp prec emax _ e' loc_Exact) as [mrs'' e'']. cbn [fst] in H2.
  destruct (shr_m mrs'') as [|q|q]; [reflexivity| |lia].
  destruct (e'' <=? emax - prec)%Z; reflexivity.
Qed.

Lemma binary_normalize_anumber prec emax m e szero :
  anumber (binary_normalize prec emax m e szero) = true.
Proof.
  unfold binary_normalize, binary_round.
  destruct m as [|p|p]; [reflexivity| |];
    destruct (shl_align p e _) as [mz ez];
    apply binary_round_aux_anumber; lia.
Qed.

Lemma SFmul_anumber prec emax x y :
  finite_number x = true -> finite_number y = true ->
  anumber (SFmul prec emax x y) = true.
Proof.
  destruct x, y; try discriminate; intros _ _; try reflexivity.
  cbn [SFmul]. apply binary_round_aux_anumber. lia.
Qed.

Lemma SFadd_anumber prec emax x y :
  anumber x = true -> finite_number y = true ->
  anumber (SFadd prec emax x y) = true.
Proof.
  destruct x as [sx|sx| |sx mx ex], y as [sy|sy| |sy my ey];
    try discriminate; intros _ _; try reflexivity.
  - destruct sx, sy; reflexivity.
  - cbn [SFadd]. apply binary_normalize_anumber.
Qed.

Lemma SFsub_anumber prec emax x y :
  finite_number x = true -> anumber y = true ->
  anumber (SFsub prec emax x y) = true.
Proof.
  destruct x as [sx|sx| |sx mx ex], y as [sy|sy| |sy my ey];
    try discriminate; intros _ _; try reflexivity.
  - destruct sx, sy; reflexivity.
  - cbn [SFsub]. apply binary_normalize_anumber.
Qed.

Lemma is_finite_spec x : is_finite x = true -> finite_number (Prim2SF x) = true.
Proof.
  unfold is_finite, is_nan, is_infinity.
  rewrite !FloatAxioms.eqb_spec, abs_spec.
  destruct (Prim2SF x) as [s|s| |s m e]; try reflexivity.
  - destruct s; discriminate.
  - discriminate.
Qed.

Lemma is_nan_spec x : is_nan x = negb (anumber (Prim2SF x)).
Proof.
  unfold is_nan. rewrite FloatAxioms.eqb_spec.
  destruct (Prim2SF x) as [s|s| |s m e]; try reflexivity.
  - destruct s; reflexivity.
  - unfold SFeqb, SFcompare. destruct s; rewrite Z.compare_refl, Pos.compare_cont_refl; reflexivity.
Qed.

Lemma float_max_zero_nonneg a :
  is_nan a = false -> PrimFloat.leb zero (float_max a zero) = true.
Proof.
  intros Ha. unfold float_max. rewrite Ha. cbn [orb].
  change (is_nan zero) with false. cbv iota.
  unfold is_zero. rewrite is_nan_spec in Ha.
  rewrite !ltb_spec, FloatAxioms.eqb_spec.
  destruct (SFltb (Prim2SF a) (Prim2SF zero)) eqn:E1; [reflexivity|].
  rewrite leb_spec.
  destruct (SFltb (Prim2SF zero) (Prim2SF a)) eqn:E2.
  { revert E2. unfold SFltb, SFleb. destruct (SFcompare _ _) as [[]|]; congruence. }
  destruct (SFeqb (Prim2SF a) (Prim2SF zero)) eqn:E3.
  - rewrite add_spec. revert E3.
    change (Prim2SF zero) with (S754_zero false).
    destruct (Prim2SF a) as [s|s| |s m e]; try discriminate.
    + destruct s; reflexivity.
    + destruct s; discriminate.
    + destruct s; discriminate.
  - revert E1 E2 E3 Ha. change (Prim2SF zero) with (S754_zero false).
    destruct (Prim2SF a) as [s|s| |s m e]; try destruct s; discriminate.
Qed.

End Binary64Arithmetic.

(** ** The job in binary64 arithmetic

    Numbers are doubles, the driver sends a Number as the string
    [Number::toString] gives, and the store reads that string into its
    NUMERIC columns. *)

Section OnBinary64.
Import Reference Scenario.
Local Existing Instance Binary64.binary64.
Local Existing Instance Binary64.store.

(** C6, as the code has it. For a finite gross amount [g >= 0] and finite
    fee settings, the net the aggregator computes is
    [Math.max(g - (g * feePercent + feeFixed), 0)] in binary64 arithmetic,
    and it is a number [>= 0]. *)
Theorem estimated_net_nonnegative (settings : config) (gross : float) :
  is_finite (STRIPE_FEE_PERCENT settings) = true ->
  is_finite (STRIPE_FEE_FIXED settings) = true ->
  is_finite gross = true ->
  num_le (of_Z 0) gross = true ->
  estimated_net settings gross
  = Math_max (num_sub gross
                (num_add (num_mul gross (STRIPE_FEE_PERCENT settings))
                   (STRIPE_FEE_FIXED settings)))
      (of_Z 0)
  /\ Number_isNaN (estimated_net settings gross) = false
  /\ num_le (of_Z 0) (estimated_net settings gross) = true.
Proof.
  intros Hp Hf Hg _. split; [reflexivity|].
  apply is_finite_spec in Hp, Hf, Hg.
  unfold estimated_net, stripe_fee.
  cbn [num_add num_mul num_sub Math_max of_Z num_le Number_isNaN
       Binary64.binary64].
  change (Binary64.float_of_Z 0) with zero.
  set (p := STRIPE_FEE_PERCENT settings) in *.
  set (f := STRIPE_FEE_FIXED settings) in *.
  assert (Hnet : is_nan (gross - (gross * p + f)) = false).
  { rewrite is_nan_spec, sub_spec, add_spec, mul_spec.
    apply negb_false_iff, SFsub_anumber; [exact Hg|].
    apply SFadd_anumber; [|exact Hf].
    apply SFmul_anumber; assumption. }
  pose proof (float_max_zero_nonneg _ Hnet) as Hle.
  split; [|exact Hle].
  rewrite is_nan_spec. apply negb_false_iff.
  revert Hle. rewrite leb_spec.
  destruct (Prim2SF (Binary64.float_max _ zero)); [reflexivity..|discriminate|reflexivity].
Qed.

Lemma estimated_net_nonnegative_witness :
  is_finite (STRIPE_FEE_PERCENT cfg) = true
  /\ is_finite (STRIPE_FEE_FIXED cfg) = true
  /\ is_finite (of_Z 100) = true
  /\ num_le (of_Z 0) (of_Z 100) = true
  /\ estimated_net cfg (of_Z 100) = StringToNumber "96.8"
  /\ num_le (of_Z 0) (estimated_net cfg (of_Z 100)) = true.
Proof.
  split; [reflexivity|]. split; [reflexivity|].
  split; [reflexivity|]. split; [reflexivity|].
  split; [vm_compute; reflexivity|].
  apply (estimated_net_nonnegative cfg (Binary64.float_of_Z 100));
    reflexivity.
Defined.

(** C4. Period 2025-01, the partner P linked to A1, the single
    conversion [{affiliate: {id: "A1"}, amount: 100, currency: "USD"}]
    on page 1, the default settings (0.029, 0.30, 0.35), an empty
    ledger, binary64 arithmetic: the run returns normally and the ledger
    then holds exactly one row, for (P, 2025-01-01, usd), with gross 100,
    net 96.8 and commission 33.88; the summary reports the same
    commission. Whatever the clock shows and the service would answer
    for other pages. *)
Theorem scenario_one_conversion clock later :
  let env := service (page_of [conversion "A1" hundred]) later clock in
  let run := syncPartnerEarningsFromTapfiliate env cfg "2025-01" empty_ledger in
  partner_earnings (db (snd run))
  = [ {| id := 1; partner_id := Some (partner_row_id P);
         period := (2025, 1, 1); currency := "usd";
         gross_revenue := fin 100;
         net_revenue := fin 96.8;
         commission_rate := fin 0.35;
         commission_amount := fin 33.88;
         source := Some "manual_test";
         created_at := clock 10%nat |} ]
  /\ fst run
     = Ok {| summary_period := "2025-01";
             totals := [ {| total_partner_id := VNum (of_Z 7);
                            total_currency := "usd";
                            total_gross := of_Z 100;
                            total_net := StringToNumber "96.8";
                            total_commission_rate := StringToNumber "0.35";
                            total_commission_amount := fin 33.88 |} ];
             note := None |}.
Proof. split; run_lhs; reflexivity. Qed.

(** C6 as stated fails for the gross amount Infinity, which is [>= 0]
    and passes the guards of the aggregator ([Number("Infinity")], or a
    JSON number too large for a double): the fee is infinite, the
    difference is NaN, and so is the net that enters the bucket. *)
Lemma estimated_net_of_infinity :
  let gross := StringToNumber "Infinity" in
  num_le (of_Z 0) gross = true
  /\ estimated_net cfg gross = NaN
  /\ num_le (of_Z 0) (estimated_net cfg gross) = false
  /\ aggregate cfg [("A1", 7)] [] [conversion "A1" (VStr "Infinity")]
     = Ok [ ("7:usd",
             {| bucket_partnerId := VNum (of_Z 7); bucket_currency := "usd";
                bucket_gross := gross; bucket_net := NaN |}) ].
Proof. repeat split; run_lhs; reflexivity. Qed.

(** C3 at the conversion
    [{affiliate: {id: "constructor"}, amount: 100, currency: "USD"}]. No
    partner is linked to an affiliate of that name, yet the lookup
    [affiliateToPartner["constructor"]] finds [Object.prototype.constructor],
    which is truthy: the record opens a bucket, and the upsert of that
    bucket, whose partner is a function, is refused by the store, so the
    job throws. *)
Theorem unknown_affiliate_named_constructor clock later :
  let affiliateToPartner := affiliate_map (linked_partners (db empty_ledger)) in
  let record := conversion "constructor" hundred in
  let env := service (page_of [record]) later clock in
  own_property affiliateToPartner "constructor" = None
  /\ aggregate cfg affiliateToPartner [] [record]
     = Ok [ ("function Object() { [native code] }:usd",
             {| bucket_partnerId := VBuiltin "constructor";
                bucket_currency := "usd";
                bucket_gross := of_Z 100;
                bucket_net := StringToNumber "96.8" |}) ]
  /\ fst (syncPartnerEarningsFromTapfiliate env cfg "2025-01" empty_ledger)
     = Throw QueryError.
Proof. repeat split; run_lhs; reflexivity. Qed.

(** C8 as stated fails when the Tapfiliate variables are not set: the
    malformed period is then rejected with the not-configured error, not
    with the invalid-period error. *)
Lemma invalid_period_without_configuration :
  period_format_ok "2025/01" = false
  /\ fst (syncPartnerEarningsFromTapfiliate one_conversion cfg_not_configured
            "2025/01" empty_ledger)
     = Throw ERR_NOT_CONFIGURED
  /\ ERR_NOT_CONFIGURED <> ERR_INVALID_PERIOD.
Proof. repeat split; try (run_lhs; reflexivity). discriminate. Qed.

Lemma invalid_period_rejected_before_io_witness :
  period_format_ok "2025/01" = false
  /\ syncPartnerEarningsFromTapfiliate one_conversion cfg "2025/01" empty_ledger
     = (Throw ERR_INVALID_PERIOD, empty_ledger).
Proof.
  split; [reflexivity|].
  apply (invalid_period_rejected_before_io one_conversion cfg "2025/01"
           empty_ledger).
  reflexivity.
Defined.

(** A ledger that holds a row for (P, 2025-01-01, usd) with other
    values, as an earlier run over other conversions would have left
    it. *)
Definition stale_row : earning :=
  {| id := 5; partner_id := Some 7%Z; period := (2025, 1, 1)%Z;
     currency := "usd"; gross_revenue := XFin 1; net_revenue := XFin 1;
     commission_rate := XFin (1 # 2); commission_amount := XFin (1 # 2);
     source := Some "import"; created_at := 1704067200 |}.

Definition stale_ledger : world :=
  {| db := {| partners := [P]; partner_earnings := [stale_row];
              partner_earnings_id_seq := 6 |};
     trace := [] |}.

Lemma rerun_leaves_ledger_unchanged_witness :
  unique_index (partner_earnings (db stale_ledger))
  /\ let first :=
       syncPartnerEarningsFromTapfiliate one_conversion cfg "2025-01"
         stale_ledger in
     let second :=
       syncPartnerEarningsFromTapfiliate one_conversion cfg "2025-01"
         (snd first) in
     partner_earnings (db (snd second)) = partner_earnings (db (snd first))
     /\ fst second = fst first
     /\ partner_earnings (db (snd second))
        = [ {| id := 5; partner_id := Some 7%Z; period := (2025, 1, 1)%Z;
               currency := "usd"; gross_revenue := XFin 100;
               net_revenue := XFin (484 # 5);
               commission_rate := XFin (7 # 20);
               commission_amount := XFin (847 # 25);
               source := Some "manual_test"; created_at := 1704067200 |} ].
Proof.
  assert (Hu : unique_index (partner_earnings (db stale_ledger)))
    by apply NoDup_singleton.
  split; [exact Hu|].
  destruct (rerun_leaves_ledger_unchanged one_conversion cfg "2025-01"
              stale_ledger Hu) as (Hsame & Hout & _).
  split; [exact Hsame|]. split; [exact Hout|].
  run_lhs. reflexivity.
Defined.

Lemma failed_page_aborts_witness :
  let run :=
    syncPartnerEarningsFromTapfiliate failing cfg "2025-01" empty_ledger in
  let r := mk_request cfg (fromIso_of "2025-01") (toIso_of "2025-01") 1 in
  Fetch r ∈ events_since empty_ledger (snd run)
  /\ fetch failing r = server_error
  /\ fst run = Throw ERR_FETCH_FAILED
  /\ partner_earnings (db (snd run)) = partner_earnings (db empty_ledger)
  /\ (Query INSERT_partner_earnings ∉ events_since empty_ledger (snd run)).
Proof.
  intros run r.
  assert (Hsent : Fetch r ∈ events_since empty_ledger (snd run)).
  { apply (list_elem_of_lookup_2 _ 5%nat). run_lhs. reflexivity. }
  split; [exact Hsent|]. split; [reflexivity|].
  apply (failed_page_aborts failing cfg "2025-01" empty_ledger r
           {| ok := false; status := 500; json := None |});
    [exact Hsent | reflexivity | reflexivity].
Defined.

Lemma unreadable_page_ends_pagination_witness :
  let fromIso := fromIso_of "2025-01" in
  let toIso := toIso_of "2025-01" in
  reaches then_garbage cfg fromIso toIso 2 full_page_of_conversions
  /\ fetch then_garbage (mk_request cfg fromIso toIso 2)
     = not_json (mk_request cfg fromIso toIso 2)
  /\ exists w1,
       fetch_pages then_garbage cfg fromIso toIso 5 1 []
         (logged empty_ledger prelude_events)
       = (Ok full_page_of_conversions, w1)
       /\ db w1 = db empty_ledger
       /\ Z.of_nat (List.length (requests (events_since empty_ledger w1))) = 2
       /\ syncPartnerEarningsFromTapfiliate then_garbage cfg "2025-01" empty_ledger
          = settle_conversions then_garbage cfg "2025-01"
              (affiliate_map (linked_partners (db empty_ledger)))
              full_page_of_conversions w1.
Proof.
  intros fromIso toIso.
  assert (Hreach : reaches then_garbage cfg fromIso toIso 2
                     full_page_of_conversions).
  { apply (reaches_next then_garbage cfg fromIso toIso 1 []
             {| ok := true; status := 200;
                json := Some (VArr full_page_of_conversions) |}
             full_page_of_conversions);
      [apply reaches_first | reflexivity | reflexivity | reflexivity
      | unfold full_page_of_conversions; rewrite repeat_length; lia]. }
  split; [exact Hreach|]. split; [reflexivity|].
  apply (unreadable_page_ends_pagination then_garbage cfg "2025-01" empty_ledger
           2 full_page_of_conversions
           {| ok := true; status := 200; json := None |});
    [reflexivity | reflexivity | intros Heq; vm_compute in Heq; discriminate
    | exact Hreach | lia
    | reflexivity | reflexivity | exact I].
Defined.





End OnBinary64.

(** ** The job on exact numbers

    The same inputs with rationals in place of doubles: no rounding
    before the store. *)

Section OnExactNumbers.
Import Reference Scenario.
Local Existing Instance exact.
Local Existing Instance store.

(** On exact numbers the net of a finite gross amount [q >= 0] under
    finite fee settings [p] and [f] is the rational
    [max (q - (q * p + f)) 0], which is not negative. *)
Lemma estimated_net_exact (settings : config) (p f q : Q) :
  STRIPE_FEE_PERCENT settings = XFin p ->
  STRIPE_FEE_FIXED settings = XFin f ->
  (0 <= q)%Q ->
  exists n : Q,
    estimated_net settings (XFin q) = XFin n
    /\ (n == Qmax (q - (q * p + f)) 0)%Q
    /\ (0 <= n)%Q.
Proof.
  intros Hp Hf _. unfold estimated_net, stripe_fee. rewrite Hp, Hf.
  cbn [num_add num_mul num_sub Math_max of_Z exact].
  unfold xmul, xadd, xsub, xneg, xadd, xmax, xle, fin.
  set (a := Qred (q + Qred (- Qred (Qred (q * p) + f)))).
  assert (Ha : (a == q - (q * p + f))%Q).
  { unfold a. rewrite !Qred_correct. reflexivity. }
  assert (H0 : (Qred (inject_Z 0) == 0)%Q) by (rewrite Qred_correct; reflexivity).
  destruct (Qle_bool a (Qred (inject_Z 0))) eqn:Hle.
  - exists (Qred (inject_Z 0)). split; [done|].
    apply Qle_bool_iff in Hle. rewrite H0 in *. split; [|apply Qle_refl].
    symmetry. apply Q.max_r. by rewrite <- Ha.
  - exists a. split; [done|].
    assert (Hlt : (0 < a)%Q).
    { apply Qnot_le_lt. intros Hc. rewrite <- H0 in Hc.
      apply Qle_bool_iff in Hc. congruence. }
    split; [|by apply Qlt_le_weak].
    symmetry. rewrite <- Ha. apply Q.max_l. by apply Qlt_le_weak.
Qed.

Lemma estimated_net_exact_at_100 :
  STRIPE_FEE_PERCENT cfg = XFin 0.029
  /\ STRIPE_FEE_FIXED cfg = XFin 0.3
  /\ (0 <= 100)%Q
  /\ exists n : Q,
       estimated_net cfg (XFin 100) = XFin n
       /\ (n == Qmax (100 - (100 * 0.029 + 0.3)) 0)%Q
       /\ (0 <= n)%Q.
Proof.
  split; [reflexivity|]. split; [reflexivity|].
  split; [discriminate|].
  apply (estimated_net_exact cfg 0.029 0.3 100);
    [reflexivity | reflexivity | discriminate].
Defined.

(** The scenario of C4, the gross amount Infinity and the affiliate
    named constructor, on exact numbers: the outcomes are the same. *)
Lemma scenario_one_conversion_exact clock later :
  let env := service (page_of [conversion "A1" hundred]) later clock in
  let run := syncPartnerEarningsFromTapfiliate env cfg "2025-01" empty_ledger in
  partner_earnings (db (snd run))
  = [ {| id := 1; partner_id := Some (partner_row_id P);
         period := (2025, 1, 1); currency := "usd";
         gross_revenue := fin 100;
         net_revenue := fin 96.8;
         commission_rate := fin 0.35;
         commission_amount := fin 33.88;
         source := Some "manual_test";
         created_at := clock 10%nat |} ]
  /\ fst run
     = Ok {| summary_period := "2025-01";
             totals := [ {| total_partner_id := VNum (fin 7);
                            total_currency := "usd";
                            total_gross := fin 100;
                            total_net := fin 96.8;
                            total_commission_rate := fin 0.35;
                            total_commission_amount := fin 33.88 |} ];
             note := None |}.
Proof. split; run_lhs; reflexivity. Qed.

Lemma estimated_net_of_infinity_exact :
  num_le (of_Z 0) (XInf false) = true
  /\ estimated_net cfg (XInf false) = NaN
  /\ num_le (of_Z 0) (estimated_net cfg (XInf false)) = false.
Proof. repeat split; run_lhs; reflexivity. Qed.

Lemma unknown_affiliate_named_constructor_exact clock later :
  let record := conversion "constructor" hundred in
  let env := service (page_of [record]) later clock in
  fst (syncPartnerEarningsFromTapfiliate env cfg "2025-01" empty_ledger)
  = Throw QueryError.
Proof. intros record env. run_lhs. reflexivity. Qed.

(** The call of C5's counterexample on exact numbers: the commission
    amount is the product rounded once, 0.04. *)
Lemma commission_of_one_tenth_exact :
  exists row w',
    upsertPartnerEarnings one_conversion
      {| partnerId := VNum (of_Z 7);
         arg_period := VStr "2025-01-01";
         arg_currency := VStr "usd";
         grossRevenue := VStr "0.1";
         netRevenue := VStr "0.1";
         commissionRate := VStr "0.35" |}
      empty_ledger
    = (Ok row, w')
    /\ net_revenue row = XFin (1 # 10)
    /\ commission_rate row = XFin (7 # 20)
    /\ commission_amount row = XFin (1 # 25).
Proof. eexists _, _. split; [run_lhs; reflexivity|]. by repeat split. Qed.

End OnExactNumbers.


(** ** The further properties on concrete inputs *)

Module Office.
Import Reference.

(** TAB, LF, VT, FF, CR and SP, the white space of ECMAScript within
    ASCII. *)
Definition is_white_space (c : ascii) : bool :=
  let n := nat_of_ascii c in
  ((9 <=? n) && (n <=? 13) || (n =? 32))%nat.

Fixpoint trim_start (s : string) : string :=
  match s with
  | String c rest => if is_white_space c then trim_start rest else s
  | EmptyString => s
  end.

Definition ascii_trim (s : string) : string :=
  let reversed x := string_of_list_ascii (rev (list_ascii_of_string x)) in
  reversed (trim_start (reversed (trim_start s))).

Definition strings : Strings := {| String_trim := ascii_trim |}.

(** A TEXT column takes the text of the parameter as it is. *)
Definition texts : @PostgresText Binary64.binary64 Binary64.store :=
  {| text_in := parameter_text |}.

End Office.

Section FurtherOnBinary64.
Import Reference Scenario.
Local Existing Instance Binary64.binary64.
Local Existing Instance Binary64.store.
Local Existing Instance Office.strings.
Local Existing Instance Office.texts.

(** A partner that is not linked to an affiliate. *)
Definition unlinked_ledger : world :=
  {| db := {| partners := [ {| partner_row_id := 7;
                               tapfiliate_affiliate_id := None |} ];
              partner_earnings := []; partner_earnings_id_seq := 1 |};
     trace := [] |}.

(** Services: page 1 is empty; every page is full; no request gets
    through. *)
Definition no_conversions : environment :=
  service (page_of []) no_more_pages wall_clock.

Definition endless : environment :=
  service (page_of full_page_of_conversions)
    (fun _ => page_of full_page_of_conversions) wall_clock.

Definition unreachable : environment := service None no_more_pages wall_clock.

Lemma no_linked_partner_returns_note_witness :
  configured cfg = true
  /\ period_format_ok "2025-01" = true
  /\ Forall (fun p => tapfiliate_affiliate_id p = None
                      \/ tapfiliate_affiliate_id p = Some "")
       (partners (db unlinked_ledger))
  /\ syncPartnerEarningsFromTapfiliate one_conversion cfg "2025-01" unlinked_ledger
     = (Ok {| summary_period := "2025-01"; totals := [];
              note := Some "No partners with tapfiliate_affiliate_id found." |},
        logged unlinked_ledger prelude_events).
Proof.
  assert (Hall : Forall (fun p => tapfiliate_affiliate_id p = None
                                  \/ tapfiliate_affiliate_id p = Some "")
                   (partners (db unlinked_ledger))).
  { constructor; [by left|constructor]. }
  split; [reflexivity|]. split; [reflexivity|]. split; [exact Hall|].
  apply (no_linked_partner_returns_note one_conversion cfg "2025-01"
           unlinked_ledger); [reflexivity|reflexivity|exact Hall].
Defined.

Lemma empty_first_page_returns_note_witness :
  let first := mk_request cfg (fromIso_of "2025-01") (toIso_of "2025-01") 1 in
  fetch no_conversions first = page_of []
  /\ syncPartnerEarningsFromTapfiliate no_conversions cfg "2025-01" empty_ledger
     = (Ok {| summary_period := "2025-01"; totals := [];
              note := Some "No conversions found for this period." |},
        logged empty_ledger (prelude_events ++ [Fetch first])).
Proof.
  intros first. split; [reflexivity|].
  apply (empty_first_page_returns_note no_conversions cfg "2025-01" empty_ledger
           P "A1" {| ok := true; status := 200; json := Some (VArr []) |});
    [reflexivity|reflexivity|constructor|reflexivity|discriminate|discriminate
    |reflexivity|reflexivity|by left].
Defined.

Lemma only_five_pages_are_read_witness :
  let ask := mk_request cfg (fromIso_of "2025-01") (toIso_of "2025-01") in
  let pages := fun _ : Z => full_page_of_conversions in
  (forall n, (1 <= n <= 5)%Z -> fetch endless (ask n) = page_of (pages n))
  /\ List.length full_page_of_conversions = 50%nat
  /\ requests (events_since empty_ledger
                 (snd (syncPartnerEarningsFromTapfiliate endless cfg "2025-01"
                         empty_ledger)))
     = [ask 1; ask 2; ask 3; ask 4; ask 5].
Proof.
  intros ask pages.
  assert (Hfetch : forall n, fetch endless (ask n) = page_of (pages n)).
  { intros n. unfold endless, service, ask. cbn [fetch mk_request page].
    by destruct (n =? 1)%Z. }
  assert (Hlen : List.length full_page_of_conversions = 50%nat).
  { unfold full_page_of_conversions. apply repeat_length. }
  split; [intros n _; apply Hfetch|]. split; [exact Hlen|].
  apply (only_five_pages_are_read endless cfg "2025-01" empty_ledger P "A1" pages);
    [reflexivity|reflexivity|constructor|reflexivity|discriminate|discriminate|].
  intros n _. eexists. split; [apply Hfetch|].
  split; [reflexivity|]. split; [reflexivity|]. unfold pages. rewrite Hlen. lia.
Defined.

Lemma rejected_request_aborts_witness :
  let run :=
    syncPartnerEarningsFromTapfiliate unreachable cfg "2025-01" empty_ledger in
  let r := mk_request cfg (fromIso_of "2025-01") (toIso_of "2025-01") 1 in
  Fetch r ∈ events_since empty_ledger (snd run)
  /\ fetch unreachable r = None
  /\ fst run = Throw FetchRejected
  /\ partner_earnings (db (snd run)) = partner_earnings (db empty_ledger)
  /\ (Query INSERT_partner_earnings ∉ events_since empty_ledger (snd run))
  /\ (forall message, Console_error message ∉ events_since empty_ledger (snd run)).
Proof.
  intros run r.
  assert (Hsent : Fetch r ∈ events_since empty_ledger (snd run)).
  { apply (list_elem_of_lookup_2 _ 5%nat). run_lhs. reflexivity. }
  split; [exact Hsent|]. split; [reflexivity|].
  apply (rejected_request_aborts unreachable cfg "2025-01" empty_ledger r);
    [exact Hsent|reflexivity].
Defined.

(** A call for a partner that does not exist, and one for the partner
    P. *)
Definition for_partner (partner : Z) : upsert_args :=
  {| partnerId := VNum (of_Z partner);
     arg_period := VStr "2025-01-01";
     arg_currency := VStr "usd";
     grossRevenue := hundred;
     netRevenue := hundred;
     commissionRate := VStr "0.35" |}.

Lemma upsert_refused_for_unknown_partner_witness :
  is_null (partnerId (for_partner 99)) = false
  /\ int4_in (partnerId (for_partner 99)) = Some 99%Z
  /\ exists e w',
       upsertPartnerEarnings one_conversion (for_partner 99) empty_ledger
       = (Throw e, w')
       /\ partner_earnings (db w') = partner_earnings (db empty_ledger)
       /\ Console_error "Error upserting partner earnings:"
          ∈ events_since empty_ledger w'.
Proof.
  assert (Hid : int4_in (partnerId (for_partner 99)) = Some 99%Z).
  { run_lhs. reflexivity. }
  split; [reflexivity|]. split; [exact Hid|].
  apply (upsert_refused_for_unknown_partner one_conversion (for_partner 99)
           empty_ledger); [reflexivity|].
  intros p Hp. rewrite Hid in Hp. injection Hp as <-.
  intros Hin. apply list_elem_of_singleton in Hin. discriminate Hin.
Defined.

Lemma upsert_overwrites_or_appends_witness :
  exists row w',
    upsertPartnerEarnings one_conversion (for_partner 7) empty_ledger = (Ok row, w')
    /\ row ∈ partner_earnings (db w')
    /\ partner_earnings_id_seq (db w') = 2%Z
    /\ partner_earnings (db w') = [row]
    /\ id row = 1%Z.
Proof.
  assert (Hrun : exists row w',
            upsertPartnerEarnings one_conversion (for_partner 7) empty_ledger
            = (Ok row, w')).
  { eexists _, _. run_lhs. reflexivity. }
  destruct Hrun as (row & w' & Hrun). exists row, w'. split; [exact Hrun|].
  destruct (upsert_overwrites_or_appends one_conversion (for_partner 7)
              empty_ledger row w' Hrun) as (Hin & Hseq & Hcases).
  split; [exact Hin|]. split; [exact Hseq|].
  destruct Hcases as [(old & Hold & _)|(_ & Happ & Hid)].
  - apply elem_of_nil in Hold. destruct Hold.
  - split; [exact Happ|exact Hid].
Defined.

(** A row of December 2024 in the ledger. *)
Definition december_row : earning :=
  {| id := 1; partner_id := Some 7%Z; period := (2024, 12, 1)%Z;
     currency := "usd"; gross_revenue := XFin 0; net_revenue := XFin 0;
     commission_rate := XFin 0; commission_amount := XFin 0;
     source := Some "manual_test"; created_at := 0 |}.

Definition december_ledger : world :=
  {| db := {| partners := [P]; partner_earnings := [december_row];
              partner_earnings_id_seq := 2 |};
     trace := [] |}.

Lemma other_periods_are_untouched_witness :
  date_in (VStr ("2025-01" +:+ "-01")) <> Some (period december_row)
  /\ (december_row ∈ partner_earnings (db december_ledger)
      <-> december_row
          ∈ partner_earnings
              (db (snd (syncPartnerEarningsFromTapfiliate one_conversion cfg
                          "2025-01" december_ledger)))).
Proof.
  assert (Hdate : date_in (VStr ("2025-01" +:+ "-01")) = Some (2025, 1, 1)%Z).
  { run_lhs. reflexivity. }
  assert (Hother : date_in (VStr ("2025-01" +:+ "-01")) <> Some (period december_row)).
  { rewrite Hdate. discriminate. }
  split; [exact Hother|].
  apply (other_periods_are_untouched one_conversion cfg "2025-01" december_ledger
           december_row Hother).
Defined.

Lemma buckets_are_filed_once_witness :
  exists bucket,
    aggregate cfg [("A1", 7%Z)] [] [conversion "A1" hundred; conversion "A1" hundred]
    = Ok bucket
    /\ NoDup (map fst bucket)
    /\ Forall filed bucket.
Proof.
  assert (Hrun : exists bucket,
            aggregate cfg [("A1", 7%Z)] []
              [conversion "A1" hundred; conversion "A1" hundred]
            = Ok bucket).
  { eexists. run_lhs. reflexivity. }
  destruct Hrun as [bucket Hrun]. exists bucket. split; [exact Hrun|].
  destruct (buckets_are_filed_once cfg [("A1", 7%Z)]
              [conversion "A1" hundred; conversion "A1" hundred] bucket Hrun)
    as (Hnd & Hfiled & _).
  split; [exact Hnd|exact Hfiled].
Defined.

(** *** The guard *)

Definition wrong_request : admin_request :=
  {| req_ip := Some "203.0.113.9"; req_authorization := Some "Bearer guess" |}.

Definition right_request : admin_request :=
  {| req_ip := Some "203.0.113.9"; req_authorization := Some "Bearer secret" |}.

Definition locked_store : list (string * attempts) :=
  [("203.0.113.9", {| count := 3; lockedUntil := 7200000 |})].

Lemma third_failure_locks_for_two_hours_witness :
  exists store1,
    serve (Some "secret")
      [(0, wrong_request); (1000, wrong_request); (2000, wrong_request);
       (7201999, right_request)]%Z []
    = Some ([Refused 401 MSG_UNAUTHORIZED; Refused 401 MSG_UNAUTHORIZED;
             Refused 401 MSG_UNAUTHORIZED; Refused 429 MSG_LOCKED], store1)
    /\ own_property store1 "203.0.113.9"
       = Some {| count := 3; lockedUntil := 7202000 |}.
Proof.
  destruct (third_failure_locks_for_two_hours (Some "secret") "203.0.113.9" []
              0 1000 2000 7201999 wrong_request wrong_request wrong_request
              right_request)
    as (store1 & Hrun & Hrecord);
    [reflexivity|reflexivity|reflexivity|reflexivity|reflexivity|reflexivity
    |reflexivity|reflexivity|reflexivity|lia|lia|].
  exists store1. split; [exact Hrun|exact Hrecord].
Defined.

Lemma expired_lock_returns_after_one_failure_witness :
  exists store1,
    serve (Some "secret") [(7200000, wrong_request); (7200001, right_request)]%Z
      locked_store
    = Some ([Refused 401 MSG_UNAUTHORIZED; Refused 429 MSG_LOCKED], store1)
    /\ own_property store1 "203.0.113.9"
       = Some {| count := 4; lockedUntil := 14400000 |}.
Proof.
  destruct (expired_lock_returns_after_one_failure (Some "secret") "203.0.113.9"
              {| count := 3; lockedUntil := 7200000 |} locked_store
              7200000 7200001 wrong_request right_request)
    as (store1 & Hrun & Hrecord);
    [reflexivity|simpl; lia|simpl; lia|lia|reflexivity|reflexivity|reflexivity|lia|].
  exists store1. split; [exact Hrun|exact Hrecord].
Defined.

Lemma guard_passes_only_with_the_token_witness :
  exists store1,
    requireAdmin (Some "secret") 0 right_request [] = Some (Next, store1)
    /\ Some "secret" = Some (bearer_token right_request)
    /\ bearer_token right_request <> ""
    /\ own_property store1 (client_key right_request)
       = Some {| count := 0; lockedUntil := 0 |}.
Proof.
  assert (Hrun : exists store1,
            requireAdmin (Some "secret") 0 right_request [] = Some (Next, store1)).
  { eexists. reflexivity. }
  destruct Hrun as [store1 Hrun]. exists store1. split; [exact Hrun|].
  destruct (guard_passes_only_with_the_token (Some "secret") 0 right_request [] store1
              Hrun) as (Htoken & Hne & Hrecord & _).
  split; [exact Htoken|]. split; [exact Hne|exact Hrecord].
Defined.

Lemma other_clients_are_untouched_witness :
  exists outcome store1,
    requireAdmin (Some "secret") 0
      {| req_ip := Some "198.51.100.7"; req_authorization := None |} locked_store
    = Some (outcome, store1)
    /\ "203.0.113.9"
       <> client_key {| req_ip := Some "198.51.100.7"; req_authorization := None |}
    /\ own_property store1 "203.0.113.9" = own_property locked_store "203.0.113.9".
Proof.
  assert (Hrun : exists outcome store1,
            requireAdmin (Some "secret") 0
              {| req_ip := Some "198.51.100.7"; req_authorization := None |}
              locked_store
            = Some (outcome, store1)).
  { eexists _, _. reflexivity. }
  destruct Hrun as (outcome & store1 & Hrun). exists outcome, store1.
  assert (Hne : "203.0.113.9"
                <> client_key {| req_ip := Some "198.51.100.7";
                                 req_authorization := None |}) by discriminate.
  split; [exact Hrun|]. split; [exact Hne|].
  apply (other_clients_are_untouched (Some "secret") 0
           {| req_ip := Some "198.51.100.7"; req_authorization := None |}
           locked_store outcome store1 Hrun "203.0.113.9" Hne).
Defined.

Lemma lock_is_not_extended_witness :
  own_property locked_store "203.0.113.9"
  = Some {| count := 3; lockedUntil := 7200000 |}
  /\ serve (Some "secret")
       [(1000, wrong_request); (2000, right_request); (7199999, wrong_request)]%Z
       locked_store
     = Some (repeat (Refused 429 MSG_LOCKED) 3, locked_store).
Proof.
  split; [reflexivity|].
  apply (lock_is_not_extended (Some "secret") "203.0.113.9"
           {| count := 3; lockedUntil := 7200000 |} locked_store
           [(1000, wrong_request); (2000, right_request); (7199999, wrong_request)]%Z);
    [reflexivity|discriminate|].
  repeat constructor; simpl; lia.
Defined.

Lemma bearer_prefix_is_optional_witness :
  has_space "secret" = false
  /\ requireAdmin (Some "secret") 0
       {| req_ip := None; req_authorization := Some "secret" |} []
     = requireAdmin (Some "secret") 0
         {| req_ip := None; req_authorization := Some ("Bearer " +:+ "secret") |} [].
Proof.
  split; [reflexivity|].
  apply (bearer_prefix_is_optional (Some "secret") 0 None "secret" []).
  reflexivity.
Defined.

(** *** The routes *)

Definition malformed_body : value := VObj [("period", VStr "2025/01")].

Lemma sync_route_hides_the_cause_witness :
  body_field malformed_body "period" = VStr "2025/01"
  /\ period_format_ok "2025/01" = false
  /\ post_partner_earnings_sync one_conversion cfg malformed_body empty_ledger
     = (Ok SYNC_FAILED,
        logged empty_ledger
          [Console_error "Error syncing partner earnings from Tapfiliate:"]).
Proof.
  split; [reflexivity|]. split; [reflexivity|].
  destruct (sync_route_hides_the_cause one_conversion cfg malformed_body "2025/01"
              empty_ledger) as [_ Hformat]; [reflexivity|discriminate|].
  apply Hformat. reflexivity.
Defined.

Definition test_body : value :=
  VObj [ ("partner_id", VNum (of_Z 7)); ("period", VStr "2025-01-01");
         ("currency", VStr "usd"); ("gross_revenue", hundred);
         ("net_revenue", hundred); ("commission_rate", VStr "0.35") ].

Lemma test_route_twice_witness :
  unique_index (partner_earnings (db empty_ledger))
  /\ let first := post_partner_earnings_test one_conversion test_body empty_ledger in
     let second := post_partner_earnings_test one_conversion test_body (snd first) in
     fst second = fst first
     /\ partner_earnings (db (snd second)) = partner_earnings (db (snd first)).
Proof.
  split; [apply NoDup_nil_2|].
  apply (test_route_twice one_conversion test_body empty_ledger).
  apply NoDup_nil_2.
Defined.

Lemma refused_requests_do_nothing_witness :
  exists out store1 w1,
    guarded (Some "secret") 0 wrong_request
      (post_partner_earnings_test one_conversion test_body) [] empty_ledger
    = Some (out, store1, w1)
    /\ (Some "secret" <> Some (bearer_token wrong_request)
        \/ bearer_token wrong_request = "")
    /\ w1 = empty_ledger.
Proof.
  assert (Hrun : exists out store1 w1,
            guarded (Some "secret") 0 wrong_request
              (post_partner_earnings_test one_conversion test_body) [] empty_ledger
            = Some (out, store1, w1)).
  { eexists _, _, _. reflexivity. }
  destruct Hrun as (out & store1 & w1 & Hrun). exists out, store1, w1.
  assert (Hbad : Some "secret" <> Some (bearer_token wrong_request)
                 \/ bearer_token wrong_request = "") by (left; discriminate).
  split; [exact Hrun|]. split; [exact Hbad|].
  destruct (refused_requests_do_nothing (Some "secret") 0 wrong_request
              (post_partner_earnings_test one_conversion test_body) [] empty_ledger
              out store1 w1 Hrun Hbad) as [Hw _].
  exact Hw.
Defined.

(** *** Onboarding *)

Lemma name_is_split_at_the_first_space_witness :
  split_name (VStr " Ada Lovelace King ") = Ok ("Ada", "Lovelace King")
  /\ has_space "Ada" = false
  /\ String_trim " Ada Lovelace King " = "Ada" +:+ " " +:+ "Lovelace King".
Proof.
  assert (Hsplit : split_name (VStr " Ada Lovelace King ")
                   = Ok ("Ada", "Lovelace King")) by reflexivity.
  split; [exact Hsplit|].
  destruct (name_is_split_at_the_first_space " Ada Lovelace King " "Ada"
              "Lovelace King" Hsplit) as [Hfirst Hrest].
  split; [exact Hfirst|exact Hrest].
Defined.

(** The application 12 of Ada Lovelace, with and without an affiliate. *)
Definition ada (affiliate : option string) : application :=
  {| app_id := 12; app_name := Some "Ada Lovelace";
     app_email := Some "ada@example.org"; app_affiliate := affiliate;
     app_status := Some "pending"; app_approved_at := None;
     app_approved_by := None |}.

Definition desk (affiliate : option string) : office :=
  {| tables := {| applications := [ada affiliate]; partner_rows := [];
                  partners_id_seq := 1; admin_logs := [];
                  earnings := []; earnings_id_seq := 1 |};
     journal := [] |}.

(** Tapfiliate creates the affiliate aff_1 and refuses to add it to the
    program; later it is out of reach. *)
Definition creates_then_refuses : services :=
  {| http := fun r =>
       match http_to r with
       | Affiliates =>
           Some {| ok := true; status := 201;
                   json := Some (VObj [("id", VStr "aff_1")]) |}
       | _ => Some {| ok := false; status := 500; json := None |}
       end;
     now := fun n => Z.of_nat n |}.

Definition out_of_reach : services :=
  {| http := fun _ => None; now := fun n => Z.of_nat n |}.

Lemma approving_twice_adds_one_partner_witness :
  int4_in (VStr "12") = Some 12%Z
  /\ let first := post_approve out_of_reach cfg "12" (desk None) in
     let second := post_approve out_of_reach cfg "12" (snd first) in
     fst first = Ok APPROVED
     /\ fst second = Ok APPROVED
     /\ partner_rows (tables (snd second)) = partner_rows (tables (snd first)).
Proof.
  assert (Hid : int4_in (VStr "12") = Some 12%Z) by reflexivity.
  split; [exact Hid|].
  destruct (approving_twice_adds_one_partner out_of_reach cfg "12" 12 (desk None)
              Hid) as (Hfirst & Hsecond & _ & Hrows).
  split; [exact Hfirst|]. split; [exact Hsecond|exact Hrows].
Defined.

(** Tapfiliate creates the affiliate aff_1 and adds it to the program. *)
Definition creates_and_joins : services :=
  {| http := fun r =>
       match http_to r with
       | Affiliates =>
           Some {| ok := true; status := 201;
                   json := Some (VObj [("id", VStr "aff_1")]) |}
       | Program_affiliates _ => Some {| ok := true; status := 200; json := None |}
       | Landing _ => None
       end;
     now := fun n => Z.of_nat n |}.

Lemma checkout_adds_at_most_one_partner_witness :
  exists o' affiliate requests,
    createTapfiliateAffiliateForEmail creates_and_joins cfg
      (VStr "ada@example.org") (VStr "Ada Lovelace") (desk None) = (Ok tt, o')
    /\ affiliate_created creates_and_joins cfg (VStr "ada@example.org")
         (VStr "Ada Lovelace") affiliate requests
    /\ tables o'
       = add_partner (tables (desk None))
           {| row_id := 1; row_application_id := None;
              row_affiliate := Some affiliate |}.
Proof.
  destruct (checkout_adds_at_most_one_partner creates_and_joins cfg
              (VStr "ada@example.org") (VStr "Ada Lovelace") (desk None))
    as (o' & E & [[_ Hnot]|(affiliate & requests & Hcreated & _ & Htables & _)]).
  - exfalso.
    apply (Hnot "aff_1"
             [creation_request cfg (VStr "ada@example.org") ("Ada", "Lovelace");
              join_request cfg (VStr "aff_1")]).
    exists ("Ada", "Lovelace"),
      {| ok := true; status := 201; json := Some (VObj [("id", VStr "aff_1")]) |},
      (VObj [("id", VStr "aff_1")]), (VStr "aff_1"),
      {| ok := true; status := 200; json := None |}.
    repeat split; reflexivity.
  - exists o', affiliate, requests.
    split; [exact E|]. split; [exact Hcreated|exact Htables].
Defined.

Lemma stored_affiliate_is_not_created_again_witness :
  exists o',
    syncTapfiliateAffiliate creates_then_refuses cfg (VStr "12")
      (desk (Some "aff_1")) = (Ok tt, o')
    /\ posts (journal_since (desk (Some "aff_1")) o')
       = [join_request cfg (VStr "aff_1")]
    /\ applications (tables o') = applications (tables (desk (Some "aff_1"))).
Proof.
  destruct (stored_affiliate_is_not_created_again creates_then_refuses cfg
              (VStr "12") 12 (ada (Some "aff_1")) [] "ada@example.org" "aff_1"
              (desk (Some "aff_1")))
    as (o' & Hrun & Hposts & Happs & _);
    [reflexivity|reflexivity|reflexivity|reflexivity|reflexivity|discriminate
    |reflexivity|discriminate|].
  exists o'. split; [exact Hrun|]. split; [exact Hposts|exact Happs].
Defined.

Lemma retry_does_not_create_a_second_affiliate_witness :
  let o1 := snd (syncTapfiliateAffiliate creates_then_refuses cfg (VStr "12")
                   (desk None)) in
  let o2 := snd (syncTapfiliateAffiliate out_of_reach cfg (VStr "12") o1) in
  posts (journal_since (desk None) o1)
  = [creation_request cfg (VStr "ada@example.org") ("Ada", "Lovelace");
     join_request cfg (VStr "aff_1")]
  /\ applications (tables o1) = [ada (Some "aff_1")]
  /\ admin_logs (tables o1) = []
  /\ posts (journal_since o1 o2) = [join_request cfg (VStr "aff_1")].
Proof.
  apply (retry_does_not_create_a_second_affiliate creates_then_refuses out_of_reach
           cfg (VStr "12") 12 (ada None) [] "ada@example.org" ("Ada", "Lovelace")
           {| ok := true; status := 201;
              json := Some (VObj [("id", VStr "aff_1")]) |}
           (VObj [("id", VStr "aff_1")]) (VStr "aff_1") "aff_1" (desk None));
    [reflexivity|reflexivity|reflexivity|reflexivity|reflexivity|discriminate
    |reflexivity|reflexivity|reflexivity|reflexivity|reflexivity|reflexivity
    |reflexivity|reflexivity|reflexivity|discriminate|].
  intros res2 Hres2. injection Hres2 as <-. reflexivity.
Defined.

(** *** Applications *)

Definition ada_body : value :=
  VObj [ ("name", VStr "Ada Lovelace"); ("email", VStr "ada@example.org");
         ("country", VStr "UK"); ("motivation", VStr "Engines");
         ("termsAccepted", VBool true) ].

Definition no_tables : crm :=
  {| applications := []; partner_rows := []; partners_id_seq := 1;
     admin_logs := []; earnings := []; earnings_id_seq := 1 |}.

(** A database without [partner_applications], and one with the empty
    table. *)
Definition fresh_front : front :=
  {| partner_applications_id_seq := None;
     back := {| tables := no_tables; journal := [] |} |}.

Definition open_front : front :=
  {| partner_applications_id_seq := Some 1%Z;
     back := {| tables := no_tables; journal := [] |} |}.

Lemma applications_table_is_never_created_witness :
  partner_applications_id_seq fresh_front = None
  /\ let run :=
       submit_all out_of_reach None [ada_body; VObj []; ada_body] fresh_front in
     partner_applications_id_seq run.2 = None
     /\ tables (back run.2) = tables (back fresh_front).
Proof.
  split; [reflexivity|].
  destruct (applications_table_is_never_created out_of_reach None
              [ada_body; VObj []; ada_body] fresh_front eq_refl)
    as (Hseq & Htables & _).
  split; [exact Hseq|exact Htables].
Defined.

Lemma email_is_accepted_once_witness :
  text_in (field ada_body "email") = Some "ada@example.org"
  /\ let run := post_partner_application out_of_reach None ada_body open_front in
     run.1 = Ok SUBMITTED
     /\ (Some "ada@example.org"
         ∉ app_email <$> applications (tables (back open_front)))
     /\ (exists row,
           applications (tables (back run.2)) = [row]
           /\ app_email row = Some "ada@example.org"
           /\ app_status row = Some "pending")
     /\ let again := post_partner_application out_of_reach None ada_body run.2 in
        again.1 = Ok EMAIL_USED
        /\ tables (back again.2) = tables (back run.2).
Proof.
  assert (Htext : text_in (field ada_body "email") = Some "ada@example.org")
    by reflexivity.
  assert (Hvarchar : varchar_in 255 (field ada_body "email")
                     = Some "ada@example.org") by reflexivity.
  split; [exact Htext|].
  destruct (email_is_accepted_once out_of_reach None ada_body "ada@example.org"
              open_front Htext) as [_ Haccepted].
  assert (Hrun : (post_partner_application out_of_reach None ada_body
                    open_front).1 = Ok SUBMITTED) by reflexivity.
  destruct (Haccepted Hrun)
    as (Hnew & i & row & stored & _ & _ & Hstored & Hrows & _ & Hrow_email
        & Hrow_status & _ & Hagain).
  rewrite Hvarchar in Hstored. injection Hstored as <-.
  destruct (Hagain eq_refl) as (Hrefused & Htables & _).
  split; [exact Hrun|]. split; [exact Hnew|].
  split; [exists row; split; [exact Hrows|]; split;
          [exact Hrow_email|exact Hrow_status]|].
  split; [exact Hrefused|exact Htables].
Defined.

(** An email of 256 characters that ends in a space is cut to 255
    characters by the column and compared as sent: the same application
    is accepted twice, and the two rows hold the same email. *)
Definition long_name : string := string_of_list_ascii (repeat "a"%char 255).

Definition long_body : value :=
  VObj [ ("name", VStr "Ada Lovelace"); ("email", VStr (long_name +:+ " "));
         ("country", VStr "UK"); ("motivation", VStr "Engines");
         ("termsAccepted", VBool true) ].

Lemma long_email_is_accepted_twice :
  let first := post_partner_application out_of_reach None long_body open_front in
  let second := post_partner_application out_of_reach None long_body first.2 in
  first.1 = Ok SUBMITTED
  /\ second.1 = Ok SUBMITTED
  /\ app_email <$> applications (tables (back second.2))
     = [Some long_name; Some long_name].
Proof. repeat split; vm_compute; reflexivity. Qed.

End FurtherOnBinary64.

